(** * refiner-cli: the analysis and cleanup engine of [commands.js]

    A shallow embedding of [analyzeProject], [cleanProject],
    [removeEmptyDirectories] and [getFolderSize], together with the parts of
    the JavaScript runtime they rest on (string methods, Node's posix [path]
    module, [fs/promises] over a directory tree, acorn's syntax tree and
    acorn-walk's [simple] traversal), followed by the properties of the
    specification checked against it. *)

From stdpp Require Import gmap strings list fin_maps pretty.
From Stdlib Require Import ZArith Ascii String.

Set Warnings "-register-all".
Local Open Scope string_scope.
Local Open Scope list_scope.

(** ** JavaScript string methods used by the source *)

Module JsString.

Definition slash : ascii := "/"%char.

(** [s.startsWith(p)] *)
Definition startsWith (s p : string) : bool := String.prefix p s.

(** [s.split(sep)] for a one-character separator: never empty. *)
Fixpoint split (sep : ascii) (s : string) : list string :=
  match s with
  | EmptyString => [ EmptyString ]
  | String c s' =>
      if Ascii.eqb c sep then EmptyString :: split sep s'
      else match split sep s' with
           | seg :: rest => String c seg :: rest
           | [] => [ String c EmptyString ]
           end
  end.

(** [a[0]] on the array a split returns. *)
Definition first (a : list string) : string :=
  match a with
  | x :: _ => x
  | [] => EmptyString
  end.

(** [a.join(sep)] *)
Fixpoint join (sep : string) (a : list string) : string :=
  match a with
  | [] => EmptyString
  | [ x ] => x
  | x :: rest => x +:+ sep +:+ join sep rest
  end.

(** [s.slice(n)] for [0 <= n]. *)
Fixpoint drop (n : nat) (s : string) : string :=
  match n, s with
  | O, _ => s
  | S n', String _ s' => drop n' s'
  | S _, EmptyString => EmptyString
  end.

(** [s.replace(pat, rep)] with a string pattern: the first occurrence only. *)
Fixpoint replace (pat rep s : string) : string :=
  if String.prefix pat s then rep +:+ drop (String.length pat) s
  else match s with
       | EmptyString => EmptyString
       | String c s' => String c (replace pat rep s')
       end.

(** [s.charCodeAt(s.length - 1) === 47] *)
Fixpoint endsWithSlash (s : string) : bool :=
  match s with
  | EmptyString => false
  | String c EmptyString => Ascii.eqb c slash
  | String _ s' => endsWithSlash s'
  end.

End JsString.

(** ** Node's [path] module (posix flavour) *)

Module Path.
Import JsString.

(** [normalizeString(path, allowAboveRoot, '/', isPosixPathSeparator)], on
    the segments between separators: empty and [.] segments vanish, [..]
    removes the segment before it unless there is none or it is [..]
    itself. [res] is kept reversed. *)
Fixpoint normalizeSegments (allowAboveRoot : bool) (segs res : list string)
  : list string :=
  match segs with
  | [] => rev res
  | seg :: segs' =>
      if String.eqb seg "" || String.eqb seg "." then
        normalizeSegments allowAboveRoot segs' res
      else if String.eqb seg ".." then
        match res with
        | last :: res' =>
            if String.eqb last ".." then
              normalizeSegments allowAboveRoot segs'
                (if allowAboveRoot then ".." :: res else res)
            else normalizeSegments allowAboveRoot segs' res'
        | [] =>
            normalizeSegments allowAboveRoot segs'
              (if allowAboveRoot then [ ".." ] else [])
        end
      else normalizeSegments allowAboveRoot segs' (seg :: res)
  end.

Definition normalizeString (path : string) (allowAboveRoot : bool) : string :=
  join "/" (normalizeSegments allowAboveRoot (split slash path) []).

(** [path.normalize] *)
Definition normalize (path : string) : string :=
  if String.eqb path "" then "."
  else
    let isAbsolute := startsWith path "/" in
    let trailingSeparator := endsWithSlash path in
    let p := normalizeString path (negb isAbsolute) in
    if String.eqb p "" then
      if isAbsolute then "/" else if trailingSeparator then "./" else "."
    else
      let p := if trailingSeparator then p +:+ "/" else p in
      if isAbsolute then "/" +:+ p else p.

(** [path.join(...args)] *)
Definition join (args : list string) : string :=
  match filter (fun a => a ≠ "") args with
  | [] => "."
  | parts => normalize (JsString.join "/" parts)
  end.

(** The right-to-left loop of [path.resolve]: [rargs] is the argument list
    reversed, followed by the working directory. *)
Fixpoint resolveLoop (rargs : list string) (resolvedPath : string)
  : string * bool :=
  match rargs with
  | [] => (resolvedPath, false)
  | path :: rest =>
      if String.eqb path "" then resolveLoop rest resolvedPath
      else
        let resolvedPath := path +:+ "/" +:+ resolvedPath in
        if startsWith path "/" then (resolvedPath, true)
        else resolveLoop rest resolvedPath
  end.

(** [path.resolve(...args)], with [process.cwd()] passed as [cwd]. *)
Definition resolve (cwd : string) (args : list string) : string :=
  let '(resolvedPath, resolvedAbsolute) := resolveLoop (rev args ++ [ cwd ]) "" in
  let p := normalizeString resolvedPath (negb resolvedAbsolute) in
  if resolvedAbsolute then "/" +:+ p
  else if String.eqb p "" then "." else p.

(** The backward scan of [path.dirname] over the characters at indices
    [length - 1 .. 1], given last first; [i] is the index of the head. *)
Fixpoint dirnameScan (rchars : list ascii) (i : nat) (matchedSlash : bool)
  : option nat :=
  match rchars with
  | [] => None
  | c :: rest =>
      if Ascii.eqb c slash then
        if matchedSlash then dirnameScan rest (pred i) true else Some i
      else dirnameScan rest (pred i) false
  end.

(** [path.dirname] *)
Definition dirname (path : string) : string :=
  match path with
  | EmptyString => "."
  | String c0 tl =>
      let hasRoot := Ascii.eqb c0 slash in
      match dirnameScan (rev (list_ascii_of_string tl)) (String.length tl) true with
      | None => if hasRoot then "/" else "."
      | Some e =>
          if hasRoot && Nat.eqb e 1 then "//" else String.substring 0 e path
      end
  end.

End Path.

(** ** Exceptions and the effect monad

    A computation runs on a state [S] and either returns, throws a JavaScript
    error, or exhausts the fuel of a recursive model. The state it leaves
    behind is kept in every case: what a callback mutated before it threw
    stays mutated, as in the source. *)

Record Error := mkError { error_name : string; message : string }.

Inductive Outcome (A : Type) : Type :=
| Return (a : A)
| Throw (e : Error)
| OutOfFuel.
Arguments Return {A} a.
Arguments Throw {A} e.
Arguments OutOfFuel {A}.

Definition M (S A : Type) : Type := S -> Outcome A * S.

Definition ret {S A} (a : A) : M S A := fun s => (Return a, s).

Definition bind {S A B} (m : M S A) (k : A -> M S B) : M S B :=
  fun s =>
    match m s with
    | (Return a, s') => k a s'
    | (Throw e, s') => (Throw e, s')
    | (OutOfFuel, s') => (OutOfFuel, s')
    end.

Definition throw {S A} (e : Error) : M S A := fun s => (Throw e, s).

(** [try { m } catch (error) { handler(error) }] *)
Definition tryCatch {S A} (m : M S A) (handler : Error -> M S A) : M S A :=
  fun s =>
    match m s with
    | (Throw e, s') => handler e s'
    | r => r
    end.

Definition gets {S A} (f : S -> A) : M S A := fun s => (Return (f s), s).
Definition modify {S} (f : S -> S) : M S unit := fun s => (Return tt, f s).

(** Lift the result of a function that cannot touch the state. *)
Definition liftResult {S A} (r : Error + A) : M S A :=
  match r with
  | inl e => throw e
  | inr a => ret a
  end.

Declare Scope js_scope.
Delimit Scope js_scope with js.
Notation "x <- m ;; k" := (bind m (fun x => k))
  (at level 100, m at next level, right associativity) : js_scope.
Notation "m ;; k" := (bind m (fun _ => k))
  (at level 100, right associativity) : js_scope.
Local Open Scope js_scope.

(** [for (const x of l) body(x, acc)], the loop variables carried in [acc]. *)
Fixpoint forOf {S A B} (l : list A) (body : A -> B -> M S B) (acc : B) : M S B :=
  match l with
  | [] => ret acc
  | x :: l' => acc' <- body x acc ;; forOf l' body acc'
  end.

(** ** JSON values *)

Inductive Json :=
| JNull
| JBool (b : bool)
| JNum (raw : string)
| JStr (s : string)
| JArr (items : list Json)
| JObj (props : list (string * Json)).

Module JsObject.

(** Own properties as an insertion-ordered association list. *)
Definition Props := list (string * Json).

Fixpoint get (k : string) (o : Props) : option Json :=
  match o with
  | [] => None
  | (k', v) :: o' => if String.eqb k k' then Some v else get k o'
  end.

(** [o[k] = v]: an existing key keeps its place. *)
Fixpoint set (k : string) (v : Json) (o : Props) : Props :=
  match o with
  | [] => [ (k, v) ]
  | (k', v') :: o' =>
      if String.eqb k k' then (k, v) :: o' else (k', v') :: set k v o'
  end.

(** [delete o[k]] *)
Fixpoint delete (k : string) (o : Props) : Props :=
  match o with
  | [] => []
  | (k', v') :: o' =>
      if String.eqb k k' then delete k o' else (k', v') :: delete k o'
  end.

(** The own enumerable properties [{...v}] copies: those of an object,
    nothing for [undefined], [null], numbers and booleans. An array or a
    string in the place of a dependency table (not a manifest npm accepts)
    is treated as having no properties. *)
Definition spreadProps (v : option Json) : Props :=
  match v with
  | Some (JObj props) => props
  | _ => []
  end.

(** [{...a, ...b}]: the properties of [a], then those of [b], a name of
    both keeping the place it has in [a] with the value it has in [b]. (Names
    that are array indices, which JavaScript enumerates first, are not
    reordered here; the order plays no role below.) *)
Definition spread2 (a b : option Json) : Props :=
  fold_left (fun o kv => set (fst kv) (snd kv) o)
            (spreadProps a ++ spreadProps b) [].

(** Truthiness of a value, [undefined] being [None]. *)
Definition truthy (v : option Json) : bool :=
  match v with
  | None | Some JNull => false
  | Some (JBool b) => b
  | Some (JNum raw) => negb (String.eqb raw "0")
  | Some (JStr s) => negb (String.eqb s "")
  | Some (JArr _) | Some (JObj _) => true
  end.

End JsObject.

(** ** acorn's syntax tree, as far as the visitors look at it *)

Module Ast.

Inductive LiteralValue :=
| VString (s : string)
| VNumber (raw : string)
| VBoolean (b : bool)
| VNull
| VRegExp (pattern : string)
| VBigInt (raw : string).

(** The children of [Other] are listed in the order acorn-walk's base
    visitor walks them. The [source] of an import declaration is always a
    string literal, so [node.source.value] is kept as a string. *)
Inductive Node :=
| ImportDeclaration (source : string)
| CallExpression (callee : Node) (arguments : list Node)
| Identifier (name : string)
| Literal (value : LiteralValue)
| Other (type : string) (children : list Node).

(** [node.name], [undefined] being [None]. *)
Definition name (n : Node) : option string :=
  match n with
  | Identifier x => Some x
  | _ => None
  end.

End Ast.

(** ** The file system under [fs/promises]

    A tree of directories and regular files. Each carries the permissions of
    the user running the tool: reading a file or listing a directory needs
    [readable], changing the entries of a directory or rewriting a file
    needs [writable]. There are no symbolic links, and the entries of a
    directory come in the order [readdir] lists them. *)

Module Fs.

Record Meta := mkMeta { mtime : Z; readable : bool; writable : bool }.

Inductive Inode :=
| IFile (content : string) (meta : Meta)
| IDir (entries : list (string * Inode)) (meta : Meta).

Record Stats := mkStats { size : Z; stat_mtime : Z; isDirectory : bool }.

(** What [console.warn], [console.error] and [console.log] printed. *)
Inductive Level := LWarn | LError | LLog.

Record World := mkWorld {
  fs : Inode;                       (* the root directory *)
  console : list (Level * string);  (* oldest line first *)
  clock : Z
}.

Definition fsError (code description syscall path : string) : Error :=
  mkError "Error" (code +:+ ": " +:+ description +:+ ", " +:+ syscall
                   +:+ " '" +:+ path +:+ "'").
Definition ENOENT := fsError "ENOENT" "no such file or directory".
Definition EACCES := fsError "EACCES" "permission denied".
Definition EISDIR := fsError "EISDIR" "illegal operation on a directory".
Definition ENOTDIR := fsError "ENOTDIR" "not a directory".
Definition ENOTEMPTY := fsError "ENOTEMPTY" "directory not empty".
Definition EBUSY := fsError "EBUSY" "resource busy or locked".

Fixpoint assoc (name : string) (entries : list (string * Inode)) : option Inode :=
  match entries with
  | [] => None
  | (n, i) :: rest => if String.eqb name n then Some i else assoc name rest
  end.

Fixpoint removeEntry (name : string) (entries : list (string * Inode))
  : list (string * Inode) :=
  match entries with
  | [] => []
  | (n, i) :: rest =>
      if String.eqb name n then rest else (n, i) :: removeEntry name rest
  end.

Fixpoint setEntry (name : string) (node : Inode) (entries : list (string * Inode))
  : list (string * Inode) :=
  match entries with
  | [] => [ (name, node) ]
  | (n, i) :: rest =>
      if String.eqb name n then (n, node) :: rest
      else (n, i) :: setEntry name node rest
  end.

(** The names from the root to [path], which is resolved against the
    working directory of the process first. *)
Definition segments (cwd path : string) : list string :=
  Path.normalizeSegments false
    (JsString.split JsString.slash (Path.resolve cwd [ path ])) [].

Fixpoint lookup (segs : list string) (n : Inode) : option Inode :=
  match segs with
  | [] => Some n
  | s :: rest =>
      match n with
      | IDir entries _ =>
          match assoc s entries with
          | Some child => lookup rest child
          | None => None
          end
      | IFile _ _ => None
      end
  end.

(** Rewrite the entries of the directory that holds the last name of
    [segs]; [f] gets that name, the entries and the directory's metadata
    and answers with an error constructor or the new entries. *)
Fixpoint modifyParent (segs : list string)
    (f : string -> list (string * Inode) -> Meta ->
         (string -> string -> Error) + list (string * Inode))
    (n : Inode) : (string -> string -> Error) + Inode :=
  match segs with
  | [] => inl EBUSY
  | s :: rest =>
      match n with
      | IFile _ _ => inl ENOTDIR
      | IDir entries m =>
          match rest with
          | [] =>
              match f s entries m with
              | inl e => inl e
              | inr entries' => inr (IDir entries' m)
              end
          | _ :: _ =>
              match assoc s entries with
              | None => inl ENOENT
              | Some child =>
                  match modifyParent rest f child with
                  | inl e => inl e
                  | inr child' => inr (IDir (setEntry s child' entries) m)
                  end
              end
          end
      end
  end.

(** Whether a recursive removal can empty the subtree: every directory with
    entries in it must be readable and writable. *)
Fixpoint removable (n : Inode) : bool :=
  match n with
  | IFile _ _ => true
  | IDir entries m =>
      match entries with
      | [] => true
      | _ :: _ =>
          readable m && writable m
          && forallb (fun e => match e with (_, child) => removable child end) entries
      end
  end.

(** The longest chain of nested directories. *)
Fixpoint depth (n : Inode) : nat :=
  match n with
  | IFile _ _ => 0
  | IDir entries _ =>
      S (fold_right (fun e d => match e with (_, child) => Nat.max (depth child) d end)
                    0 entries)
  end.

Section Operations.
Variable cwd : string.

Definition find (path : string) : M World (option Inode) :=
  gets (fun w => lookup (segments cwd path) (fs w)).

Definition mutate (syscall path : string)
    (f : string -> list (string * Inode) -> Meta ->
         (string -> string -> Error) + list (string * Inode))
  : M World unit :=
  fun w =>
    match modifyParent (segments cwd path) f (fs w) with
    | inl e => (Throw (e syscall path), w)
    | inr root' => (Return tt, mkWorld root' (console w) (clock w))
    end.

(** [readFile(path, 'utf8')] *)
Definition readFile (path : string) : M World string :=
  node <- find path ;;
  match node with
  | None => throw (ENOENT "open" path)
  | Some (IDir _ _) => throw (EISDIR "read" path)
  | Some (IFile content m) =>
      if readable m then ret content else throw (EACCES "open" path)
  end.

(** [stat(path)]; the size of a file is the length of its content, that
    of a directory one block. *)
Definition stat (path : string) : M World Stats :=
  node <- find path ;;
  match node with
  | None => throw (ENOENT "stat" path)
  | Some (IFile content m) =>
      ret (mkStats (Z.of_nat (String.length content)) (mtime m) false)
  | Some (IDir _ m) => ret (mkStats 4096 (mtime m) true)
  end.

(** [readdir(path)] *)
Definition readdir (path : string) : M World (list string) :=
  node <- find path ;;
  match node with
  | None => throw (ENOENT "scandir" path)
  | Some (IFile _ _) => throw (ENOTDIR "scandir" path)
  | Some (IDir entries m) =>
      if readable m then ret (map fst entries)
      else throw (EACCES "scandir" path)
  end.

(** [unlink(path)] *)
Definition unlink (path : string) : M World unit :=
  mutate "unlink" path (fun name entries m =>
    match assoc name entries with
    | None => inl ENOENT
    | Some (IDir _ _) => inl EISDIR
    | Some (IFile _ _) =>
        if writable m then inr (removeEntry name entries) else inl EACCES
    end).

(** [rmdir(path)] *)
Definition rmdir (path : string) : M World unit :=
  mutate "rmdir" path (fun name entries m =>
    match assoc name entries with
    | None => inl ENOENT
    | Some (IFile _ _) => inl ENOTDIR
    | Some (IDir (_ :: _) _) => inl ENOTEMPTY
    | Some (IDir [] _) =>
        if writable m then inr (removeEntry name entries) else inl EACCES
    end).

(** [rm(path, { recursive: true })]; a removal that cannot complete is
    modelled as removing nothing. *)
Definition rm (path : string) : M World unit :=
  mutate "rm" path (fun name entries m =>
    match assoc name entries with
    | None => inl ENOENT
    | Some node =>
        if writable m && removable node then inr (removeEntry name entries)
        else inl EACCES
    end).

(** [writeFile(path, data)] *)
Definition writeFile (path data : string) : M World unit :=
  now <- gets clock ;;
  mutate "open" path (fun name entries m =>
    match assoc name entries with
    | Some (IDir _ _) => inl EISDIR
    | Some (IFile _ fm) =>
        if writable fm
        then inr (setEntry name (IFile data (mkMeta now (readable fm) true)) entries)
        else inl EACCES
    | None =>
        if writable m
        then inr (setEntry name (IFile data (mkMeta now true true)) entries)
        else inl EACCES
    end).

Definition consoleWrite (level : Level) (line : string) : M World unit :=
  modify (fun w => mkWorld (fs w) (console w ++ [ (level, line) ]) (clock w)).

End Operations.

End Fs.

(** ** What the engine takes from its environment

    The parser (acorn), the file finder (glob), [JSON], [child_process] and
    [Date] are libraries, not code of this repository: the engine is stated
    over any implementation of them. *)

Record GlobOptions := mkGlobOptions {
  ignore : list string;
  glob_cwd : string;
  absolute : bool;
  nodir : bool
}.

Record Platform := mkPlatform {
  (* process.cwd() *)
  cwd : string;
  (* parse(content, { sourceType: 'module', ecmaVersion: 'latest' }) *)
  parse : string -> Error + Ast.Node;
  (* glob(pattern, options), reading the directory tree *)
  glob : string -> GlobOptions -> Fs.Inode -> Error + list string;
  JSON_parse : string -> Error + Json;
  (* JSON.stringify(value, null, 2) *)
  JSON_stringify : Json -> string;
  (* execSync(command, { cwd, stdio: 'ignore' }): the tree it leaves, and
     the error it throws if the command fails *)
  execSync : string -> string -> Fs.Inode -> option Error * Fs.Inode;
  (* date.toISOString() of a time stamp *)
  toISOString : Z -> string
}.

Module UnusedDependency.
Record t := mk { name : string; version : Json; size : Z }.
End UnusedDependency.

Module UnusedFile.
Record t := mk { path : string; lastModified : string; size : Z }.
End UnusedFile.

Module AnalysisResult.
Record t := mk {
  unusedDependencies : list UnusedDependency.t;
  unusedFiles : list UnusedFile.t
}.
End AnalysisResult.

Module CleanResult.
Record t := mk {
  removedDependencies : list string;
  removedFiles : list string;
  removedDirs : list string;
  freedSpace : Z
}.
End CleanResult.

(** ** Local variables of a function next to the world

    The callbacks handed to the walker and the bodies of the [try] blocks
    assign to variables of the enclosing function; these live in a record [L]
    beside the world, so that assignments made before a throw are kept. *)

Definition inWorld {L A} (m : M Fs.World A) : M (Fs.World * L) A :=
  fun s => match m (fst s) with (o, w) => (o, (w, snd s)) end.

Definition inLocals {L A} (m : M L A) : M (Fs.World * L) A :=
  fun s => match m (snd s) with (o, l) => (o, (fst s, l)) end.

Definition local {L A} (f : L -> A) : M (Fs.World * L) A :=
  gets (fun s => f (snd s)).

Definition assign {L} (f : L -> L) : M (Fs.World * L) unit :=
  modify (fun s => (fst s, f (snd s))).

Definition withLocals {L A} (init : L) (m : M (Fs.World * L) A) : M Fs.World A :=
  fun w => match m (w, init) with (o, s) => (o, fst s) end.

(** The variables of [analyzeProject] that its loop and visitors assign to. *)
Record AnalyzeLocals := mkAnalyzeLocals {
  usedDependencies : gset string;
  unusedFiles : list UnusedFile.t;
  fileImports : gmap string bool;
  isUsed : bool
}.

(** The variables of [cleanProject]. *)
Record CleanLocals := mkCleanLocals {
  removedDependencies : list string;
  removedFiles : list string;
  removedDirs : list string;
  freedSpace : Z
}.

Definition TypeError (msg : string) : Error := mkError "TypeError" msg.

(** [object.key] where [object] came out of [JSON.parse]: a [TypeError] on
    [null], [undefined] (here [None]) where there is no such property. *)
Definition getProp {S} (object : Json) (key : string) : M S (option Json) :=
  match object with
  | JNull =>
      throw (TypeError ("Cannot read properties of null (reading '" +:+ key +:+ "')"))
  | JObj props => ret (JsObject.get key props)
  | _ => ret None
  end.

(** [table?.[key]] *)
Definition optionalGet (table : option Json) (key : string) : option Json :=
  match table with
  | Some (JObj props) => JsObject.get key props
  | _ => None
  end.

(** [delete packageJson[section][key]] *)
Definition deleteIn (packageJson : Json) (section key : string) : Json :=
  match packageJson with
  | JObj props =>
      match JsObject.get section props with
      | Some (JObj table) =>
          JObj (JsObject.set section (JObj (JsObject.delete key table)) props)
      | _ => packageJson
      end
  | _ => packageJson
  end.

(** ** The engine *)

Section Engine.
Variable P : Platform.

Definition runGlob (pattern : string) (options : GlobOptions)
  : M Fs.World (list string) :=
  tree <- gets Fs.fs ;; liftResult (glob P pattern options tree).

(** *** The visitors of [analyzeProject]

    They assign to the variables of [analyzeProject] and touch nothing
    else. *)

Definition usedDependencies_add (packageName : string) : M AnalyzeLocals unit :=
  modify (fun l => mkAnalyzeLocals ({[ packageName ]} ∪ usedDependencies l)
                     (unusedFiles l) (fileImports l) (isUsed l)).

Definition fileImports_set (resolvedPath : string) : M AnalyzeLocals unit :=
  modify (fun l => mkAnalyzeLocals (usedDependencies l) (unusedFiles l)
                     (<[ resolvedPath := true ]> (fileImports l)) (isUsed l)).

Definition isUsed_assign (b : bool) : M AnalyzeLocals unit :=
  modify (fun l => mkAnalyzeLocals (usedDependencies l) (unusedFiles l)
                     (fileImports l) b).

Definition unusedFiles_push (entry : UnusedFile.t) : M AnalyzeLocals unit :=
  modify (fun l => mkAnalyzeLocals (usedDependencies l) (unusedFiles l ++ [ entry ])
                     (fileImports l) (isUsed l)).

(** [ImportDeclaration(node)] *)
Definition visitImportDeclaration (file source : string) : M AnalyzeLocals unit :=
  let importPath := source in
  if negb (JsString.startsWith importPath ".")
     && negb (JsString.startsWith importPath "/") then
    let packageName := JsString.first (JsString.split JsString.slash importPath) in
    usedDependencies_add packageName
  else
    let resolvedPath := Path.resolve (cwd P) [ Path.dirname file; importPath ] in
    fileImports_set resolvedPath ;;
    isUsed_assign true.

(** [CallExpression(node)]: [arg.value.startsWith] is a method of strings
    only, so the call throws for every other literal. *)
Definition visitCallExpression (file : string) (callee : Ast.Node)
    (arguments : list Ast.Node) : M AnalyzeLocals unit :=
  match Ast.name callee with
  | Some calleeName =>
      if String.eqb calleeName "require" then
        match arguments with
        | Ast.Literal value :: _ =>
            match value with
            | Ast.VString requirePath =>
                if negb (JsString.startsWith requirePath ".")
                   && negb (JsString.startsWith requirePath "/") then
                  let packageName :=
                    JsString.first (JsString.split JsString.slash requirePath) in
                  usedDependencies_add packageName
                else
                  let resolvedPath :=
                    Path.resolve (cwd P) [ Path.dirname file; requirePath ] in
                  fileImports_set resolvedPath ;;
                  isUsed_assign true
            | Ast.VNull =>
                throw (TypeError "Cannot read properties of null (reading 'startsWith')")
            | _ => throw (TypeError "requirePath.startsWith is not a function")
            end
        | _ => ret tt
        end
      else ret tt
  | None => ret tt
  end.

(** [walk(ast, visitors)] of acorn-walk ([simple]): children first, in
    order, then the visitor registered for the type of the node. *)
Fixpoint walk (file : string) (node : Ast.Node) : M AnalyzeLocals unit :=
  match node with
  | Ast.ImportDeclaration source => visitImportDeclaration file source
  | Ast.CallExpression callee arguments =>
      walk file callee ;;
      (fix each (l : list Ast.Node) : M AnalyzeLocals unit :=
         match l with
         | [] => ret tt
         | child :: l' => walk file child ;; each l'
         end) arguments ;;
      visitCallExpression file callee arguments
  | Ast.Identifier _ | Ast.Literal _ => ret tt
  | Ast.Other _ children =>
      (fix each (l : list Ast.Node) : M AnalyzeLocals unit :=
         match l with
         | [] => ret tt
         | child :: l' => walk file child ;; each l'
         end) children
  end.

(** *** [getFolderSize] *)

Definition getFolderSize (folderPath : string) : M Fs.World Z :=
  tryCatch
    (files <- runGlob "**/*" (mkGlobOptions [] folderPath true true) ;;
     totalSize <- forOf files (fun file totalSize =>
                    stats <- Fs.stat (cwd P) file ;;
                    ret (totalSize + Fs.size stats)%Z) 0%Z ;;
     ret totalSize)
    (fun error => ret 0%Z).

(** *** [analyzeProject] *)

(** The body of [for (const file of files)]. *)
Definition analyzeFile (projectPath file : string)
  : M (Fs.World * AnalyzeLocals) unit :=
  content <- inWorld (Fs.readFile (cwd P) file) ;;
  fileStat <- inWorld (Fs.stat (cwd P) file) ;;
  inLocals (isUsed_assign false) ;;
  tryCatch
    (ast <- liftResult (parse P content) ;;
     inLocals (walk file ast) ;;
     used <- local isUsed ;;
     imports <- local fileImports ;;
     if negb used && negb (bool_decide (is_Some (imports !! file))) then
       inLocals (unusedFiles_push
         (UnusedFile.mk (JsString.replace (projectPath +:+ "/") "" file)
                        (toISOString P (Fs.stat_mtime fileStat))
                        (Fs.size fileStat)))
     else ret tt)
    (fun error =>
       inWorld (Fs.consoleWrite Fs.LWarn
                  ("Warning: Could not parse " +:+ file +:+ ": " +:+ message error))).

(** [for (const file of files) { ... }] *)
Definition analyzeFiles (projectPath : string) (files : list string)
  : M (Fs.World * AnalyzeLocals) unit :=
  forOf files (fun file _ => analyzeFile projectPath file) tt.

(** The body of [for (const [name, version] of Object.entries(allDependencies))]. *)
Definition checkDependency (projectPath : string) (entry : string * Json)
    (unusedDependencies : list UnusedDependency.t)
  : M (Fs.World * AnalyzeLocals) (list UnusedDependency.t) :=
  let '(name, version) := entry in
  used <- local usedDependencies ;;
  if negb (bool_decide (name ∈ used)) then
    let depPath := Path.join [ projectPath; "node_modules"; name ] in
    size <- tryCatch (inWorld (getFolderSize depPath)) (fun error => ret 0%Z) ;;
    ret (unusedDependencies ++ [ UnusedDependency.mk name version size ])
  else ret unusedDependencies.

Definition analyzeProject (projectPath : string) : M Fs.World AnalysisResult.t :=
  tryCatch
    (let packageJsonPath := Path.join [ projectPath; "package.json" ] in
     text <- Fs.readFile (cwd P) packageJsonPath ;;
     packageJson <- liftResult (JSON_parse P text) ;;
     dependencies <- getProp packageJson "dependencies" ;;
     devDependencies <- getProp packageJson "devDependencies" ;;
     let allDependencies := JsObject.spread2 dependencies devDependencies in
     files <- runGlob "**/*.{js,jsx,ts,tsx}"
                (mkGlobOptions
                   [ "**/node_modules/**"; "**/dist/**"; "**/build/**"; "**/.git/**" ]
                   projectPath true false) ;;
     withLocals (mkAnalyzeLocals ∅ [] ∅ false)
       (analyzeFiles projectPath files ;;
        unusedDependencies <- forOf allDependencies (checkDependency projectPath) [] ;;
        unusedFiles <- local unusedFiles ;;
        ret (AnalysisResult.mk unusedDependencies unusedFiles)))
    (fun error => throw (mkError "Error" ("Failed to analyze project: " +:+ message error))).

(** *** [removeEmptyDirectories]

    The recursion follows the directory tree; [fuel] bounds its depth. *)
Fixpoint removeEmptyDirectories (fuel : nat) (directory : string) : M Fs.World bool :=
  match fuel with
  | O => fun w => (OutOfFuel, w)
  | S fuel' =>
      files <- Fs.readdir (cwd P) directory ;;
      if Nat.eqb (List.length files) 0 then
        Fs.rmdir (cwd P) directory ;;
        ret true
      else
        isEmpty <- forOf files (fun file isEmpty =>
                     let fullPath := Path.join [ directory; file ] in
                     stats <- Fs.stat (cwd P) fullPath ;;
                     if Fs.isDirectory stats then
                       removed <- removeEmptyDirectories fuel' fullPath ;;
                       if negb removed then ret false else ret isEmpty
                     else ret false) true ;;
        if isEmpty then
          Fs.rmdir (cwd P) directory ;;
          ret true
        else ret false
  end.

(** *** [cleanProject] *)

Definition removedDependencies_push (name : string) : M (Fs.World * CleanLocals) unit :=
  assign (fun l => mkCleanLocals (removedDependencies l ++ [ name ]) (removedFiles l)
                     (removedDirs l) (freedSpace l)).

Definition removedFiles_push (path : string) : M (Fs.World * CleanLocals) unit :=
  assign (fun l => mkCleanLocals (removedDependencies l) (removedFiles l ++ [ path ])
                     (removedDirs l) (freedSpace l)).

Definition removedDirs_push (dir : string) : M (Fs.World * CleanLocals) unit :=
  assign (fun l => mkCleanLocals (removedDependencies l) (removedFiles l)
                     (removedDirs l ++ [ dir ]) (freedSpace l)).

Definition freedSpace_add (n : Z) : M (Fs.World * CleanLocals) unit :=
  assign (fun l => mkCleanLocals (removedDependencies l) (removedFiles l)
                     (removedDirs l) (freedSpace l + n)%Z).

(** [await stat(path).catch(() => false)], as the condition of an [if]. *)
Definition statOrFalse (path : string) : M Fs.World bool :=
  tryCatch (Fs.stat (cwd P) path ;; ret true) (fun _ => ret false).

(** The body of [for (const dep of analysis.unusedDependencies)]. *)
Definition removeDependency (projectPath : string) (dep : UnusedDependency.t)
  : M (Fs.World * CleanLocals) unit :=
  tryCatch
    (let packageJsonPath := Path.join [ projectPath; "package.json" ] in
     text <- inWorld (Fs.readFile (cwd P) packageJsonPath) ;;
     packageJson <- liftResult (JSON_parse P text) ;;
     dependencies <- getProp packageJson "dependencies" ;;
     let packageJson :=
       if JsObject.truthy (optionalGet dependencies (UnusedDependency.name dep))
       then deleteIn packageJson "dependencies" (UnusedDependency.name dep)
       else packageJson in
     devDependencies <- getProp packageJson "devDependencies" ;;
     let packageJson :=
       if JsObject.truthy (optionalGet devDependencies (UnusedDependency.name dep))
       then deleteIn packageJson "devDependencies" (UnusedDependency.name dep)
       else packageJson in
     inWorld (Fs.writeFile (cwd P) packageJsonPath (JSON_stringify P packageJson)) ;;
     removedDependencies_push (UnusedDependency.name dep))
    (fun err =>
       inWorld (Fs.consoleWrite Fs.LError
                  ("Error removing dependency " +:+ UnusedDependency.name dep
                   +:+ ": " +:+ message err))).

(** The body of [for (const file of analysis.unusedFiles)]. *)
Definition removeFile (projectPath : string) (file : UnusedFile.t)
  : M (Fs.World * CleanLocals) unit :=
  tryCatch
    (let fullPath := Path.resolve (cwd P) [ projectPath; UnusedFile.path file ] in
     found <- inWorld (statOrFalse fullPath) ;;
     if (found : bool) then
       fileStat <- inWorld (Fs.stat (cwd P) fullPath) ;;
       freedSpace_add (Fs.size fileStat) ;;
       inWorld (Fs.unlink (cwd P) fullPath) ;;
       removedFiles_push (UnusedFile.path file)
     else ret tt)
    (fun error =>
       inWorld (Fs.consoleWrite Fs.LWarn
                  ("Warning: Could not remove file " +:+ UnusedFile.path file
                   +:+ ": " +:+ message error))).

Definition runExecSync (command dir : string) : M Fs.World unit :=
  fun w =>
    match execSync P command dir (Fs.fs w) with
    | (None, tree) => (Return tt, Fs.mkWorld tree (Fs.console w) (Fs.clock w))
    | (Some e, tree) => (Throw e, Fs.mkWorld tree (Fs.console w) (Fs.clock w))
    end.

Definition cleanProject (projectPath : string) (analysis : AnalysisResult.t)
  : M Fs.World CleanResult.t :=
  withLocals (mkCleanLocals [] [] [] 0%Z)
    (forOf (AnalysisResult.unusedDependencies analysis)
           (fun dep _ => removeDependency projectPath dep) tt ;;
     forOf (AnalysisResult.unusedFiles analysis)
           (fun file _ => removeFile projectPath file) tt ;;
     (* the recursion gets as much fuel as the tree is deep *)
     tree <- inWorld (gets Fs.fs) ;;
     inWorld (removeEmptyDirectories (S (Fs.depth tree)) projectPath) ;;
     tryCatch
       (let nodeModulesPath := Path.join [ projectPath; "node_modules" ] in
        found <- inWorld (statOrFalse nodeModulesPath) ;;
        if (found : bool) then
          inWorld (Fs.rm (cwd P) nodeModulesPath) ;;
          removedDirs_push "node_modules" ;;
          inWorld (Fs.consoleWrite Fs.LLog "node_modules directory removed")
        else ret tt)
       (fun error =>
          inWorld (Fs.consoleWrite Fs.LWarn
                     "Warning: Could not remove node_modules directory")) ;;
     tryCatch
       (inWorld (runExecSync "npm install" projectPath))
       (fun error =>
          inWorld (Fs.consoleWrite Fs.LWarn
                     "Warning: Could not update package-lock.json")) ;;
     l <- local id ;;
     ret (CleanResult.mk (removedDependencies l) (removedFiles l)
                         (removedDirs l) (freedSpace l))).

End Engine.

(** ** A small platform to run the engine on

    Concrete stand-ins for the libraries, enough to evaluate the engine on
    the projects used as examples below. *)

Module Demo.

Definition Program (body : list Ast.Node) : Ast.Node := Ast.Other "Program" body.
Definition ExpressionStatement (e : Ast.Node) : Ast.Node :=
  Ast.Other "ExpressionStatement" [ e ].
Definition require (arguments : list Ast.Node) : Ast.Node :=
  Ast.CallExpression (Ast.Identifier "require") arguments.

(** The trees acorn builds for the sources of the examples. *)
Definition sources : list (string * Ast.Node) :=
  [ ("", Program []);
    ("export default 1", Program [ Ast.Other "ExportDefaultDeclaration"
                                     [ Ast.Literal (Ast.VNumber "1") ] ]);
    ("import a from './a.js'", Program [ Ast.ImportDeclaration "./a.js" ]);
    ("import b from './b.js'", Program [ Ast.ImportDeclaration "./b.js" ]);
    ("import b from './b'", Program [ Ast.ImportDeclaration "./b" ]);
    ("import chalk from 'chalk'", Program [ Ast.ImportDeclaration "chalk" ]);
    ("import x from '@scope/pkg'", Program [ Ast.ImportDeclaration "@scope/pkg" ]);
    ("require('lodash')",
      Program [ ExpressionStatement (require [ Ast.Literal (Ast.VString "lodash") ]) ]);
    ("require(name)",
      Program [ ExpressionStatement (require [ Ast.Identifier "name" ]) ]);
    ("require()", Program [ ExpressionStatement (require []) ]);
    ("require(5)",
      Program [ ExpressionStatement (require [ Ast.Literal (Ast.VNumber "5") ]) ]);
    ("require(5); require('lodash')",
      Program [ ExpressionStatement (require [ Ast.Literal (Ast.VNumber "5") ]);
                ExpressionStatement (require [ Ast.Literal (Ast.VString "lodash") ]) ]);
    ("require('lodash'); require(5)",
      Program [ ExpressionStatement (require [ Ast.Literal (Ast.VString "lodash") ]);
                ExpressionStatement (require [ Ast.Literal (Ast.VNumber "5") ]) ]) ].

Fixpoint tableGet {A} (k : string) (t : list (string * A)) : option A :=
  match t with
  | [] => None
  | (k', v) :: t' => if String.eqb k k' then Some v else tableGet k t'
  end.

(** The sources of the examples that acorn rejects, with its message. *)
Definition rejected : list (string * string) :=
  [ ("const x = (", "Unexpected token (1:11)") ].

Definition parse (content : string) : Error + Ast.Node :=
  match tableGet content sources with
  | Some ast => inr ast
  | None =>
      match tableGet content rejected with
      | Some msg => inl (mkError "SyntaxError" msg)
      | None => inl (mkError "SyntaxError" "Unexpected token (1:0)")
      end
  end.

Definition quote (s : string) : string :=
  let mark := String (Ascii.ascii_of_nat 34) EmptyString in
  mark +:+ s +:+ mark.

(** [JSON.stringify] without indentation and without escapes. *)
Fixpoint JSON_stringify (v : Json) : string :=
  match v with
  | JNull => "null"
  | JBool true => "true"
  | JBool false => "false"
  | JNum raw => raw
  | JStr s => quote s
  | JArr items => "[" +:+ JsString.join "," (map JSON_stringify items) +:+ "]"
  | JObj props =>
      "{" +:+ JsString.join ","
                (map (fun kv => match kv with
                                | (k, x) => quote k +:+ ":" +:+ JSON_stringify x
                                end) props) +:+ "}"
  end.

(** The manifests of the examples; their text is what [JSON_stringify]
    prints for them. *)
Definition manifest (dependencies : list (string * string)) : Json :=
  JObj [ ("dependencies", JObj (map (fun kv => (fst kv, JStr (snd kv))) dependencies)) ].

Definition manifests : list Json :=
  [ JObj [];
    JNull;
    manifest [ ("lodash", "^4.17.21"); ("chalk", "^5.3.0") ];
    manifest [];
    manifest [ ("lodash", "^4.17.21") ];
    manifest [ ("chalk", "^5.3.0") ];
    manifest [ ("@scope/pkg", "1.0.0") ] ].

Definition JSON_parse (text : string) : Error + Json :=
  match tableGet text (map (fun v => (JSON_stringify v, v)) manifests) with
  | Some v => inr v
  | None => inl (mkError "SyntaxError" "Unexpected end of JSON input")
  end.

(** Every file below a directory, as lists of names, in the order of the
    entries; names starting with a dot and the names in [skip] are passed
    over, as glob does without [dot] and with the [ignore] patterns of
    [analyzeProject]. *)
Fixpoint listFiles (skip : list string) (n : Fs.Inode) : list (list string) :=
  match n with
  | Fs.IFile _ _ => [ [] ]
  | Fs.IDir entries _ =>
      flat_map (fun e =>
        match e with
        | (name, child) =>
            if JsString.startsWith name "." || existsb (String.eqb name) skip
            then []
            else map (cons name) (listFiles skip child)
        end) entries
  end.

Fixpoint endsWith (s suffix : string) : bool :=
  String.eqb s suffix
  || match s with
     | EmptyString => false
     | String _ s' => endsWith s' suffix
     end.

Definition isScript (segs : list string) : bool :=
  let base := List.last segs "" in
  endsWith base ".js" || endsWith base ".jsx"
  || endsWith base ".ts" || endsWith base ".tsx".

Definition glob (pattern : string) (options : GlobOptions) (tree : Fs.Inode)
  : Error + list string :=
  let root := Path.resolve "/" [ glob_cwd options ] in
  match Fs.lookup (Fs.segments "/" root) tree with
  | Some (Fs.IDir entries m) =>
      let skip := if String.eqb pattern "**/*" then []
                  else [ "node_modules"; "dist"; "build" ] in
      let found := filter (fun segs => segs ≠ [])
                          (listFiles skip (Fs.IDir entries m)) in
      let found := if String.eqb pattern "**/*" then found
                   else List.filter isScript found in
      inr (map (fun segs => Path.join (root :: segs)) found)
  | _ => inr []
  end.

(** [npm] is not installed: the command fails and changes nothing. *)
Definition execSync (command dir : string) (tree : Fs.Inode)
  : option Error * Fs.Inode :=
  (Some (mkError "Error" ("Command failed: " +:+ command)), tree).

Definition pad (width : nat) (n : Z) : string :=
  let digits := pretty (Z.to_N n) in
  String.concat "" (repeat "0" (width - String.length digits)) +:+ digits.

(** [toISOString] for the years 0000 to 9999, by the proleptic Gregorian
    calendar (days since 1970-01-01 to a civil date). *)
Definition toISOString (ms : Z) : string :=
  let days := (ms / 86400000)%Z in
  let rest := (ms mod 86400000)%Z in
  let z := (days + 719468)%Z in
  let era := (z / 146097)%Z in
  let doe := (z - era * 146097)%Z in
  let yoe := ((doe - doe / 1460 + doe / 36524 - doe / 146096) / 365)%Z in
  let doy := (doe - (365 * yoe + yoe / 4 - yoe / 100))%Z in
  let mp := ((5 * doy + 2) / 153)%Z in
  let d := (doy - (153 * mp + 2) / 5 + 1)%Z in
  let m := (if (mp <? 10)%Z then mp + 3 else mp - 9)%Z in
  let y := (yoe + era * 400 + (if (m <=? 2)%Z then 1 else 0))%Z in
  pad 4 y +:+ "-" +:+ pad 2 m +:+ "-" +:+ pad 2 d +:+ "T"
  +:+ pad 2 (rest / 3600000) +:+ ":" +:+ pad 2 (rest / 60000 mod 60) +:+ ":"
  +:+ pad 2 (rest / 1000 mod 60) +:+ "." +:+ pad 3 (rest mod 1000) +:+ "Z".

Definition platform : Platform :=
  mkPlatform "/" parse glob JSON_parse JSON_stringify execSync toISOString.

(** Building trees. *)
Definition file (name content : string) : string * Fs.Inode :=
  (name, Fs.IFile content (Fs.mkMeta 1700000000000 true true)).
Definition dir (name : string) (entries : list (string * Fs.Inode))
  : string * Fs.Inode :=
  (name, Fs.IDir entries (Fs.mkMeta 1700000000000 true true)).
Definition world (entries : list (string * Fs.Inode)) : Fs.World :=
  Fs.mkWorld (Fs.IDir entries (Fs.mkMeta 0 true true)) [] 1700000000000.

End Demo.

(** ** The words of the specification

    What the specification calls the references of a file, read off the
    syntax tree without running the walker. *)

Module Spec.

(** A specifier with a relative or absolute path marker is Internal, any
    other External. *)
Definition isInternal (specifier : string) : bool :=
  JsString.startsWith specifier "." || JsString.startsWith specifier "/".

(** The string-literal first argument of a call of [require], if the node
    is one. *)
Definition requireSpecifier (callee : Ast.Node) (arguments : list Ast.Node)
  : list string :=
  match Ast.name callee, arguments with
  | Some calleeName, Ast.Literal (Ast.VString s) :: _ =>
      if String.eqb calleeName "require" then [ s ] else []
  | _, _ => []
  end.

(** The specifiers of the static imports and of the [require] calls with a
    string-literal argument, in the order of the source's traversal. *)
Fixpoint specifiers (node : Ast.Node) : list string :=
  match node with
  | Ast.ImportDeclaration source => [ source ]
  | Ast.CallExpression callee arguments =>
      specifiers callee ++ flat_map specifiers arguments
      ++ requireSpecifier callee arguments
  | Ast.Identifier _ | Ast.Literal _ => []
  | Ast.Other _ children => flat_map specifiers children
  end.

(** A call of [require] whose first argument is a literal, but not a
    string. *)
Definition requireOfNonString (callee : Ast.Node) (arguments : list Ast.Node)
  : bool :=
  match Ast.name callee, arguments with
  | Some calleeName, Ast.Literal (Ast.VString _) :: _ => false
  | Some calleeName, Ast.Literal _ :: _ => String.eqb calleeName "require"
  | _, _ => false
  end.

Fixpoint hasRequireOfNonString (node : Ast.Node) : bool :=
  match node with
  | Ast.CallExpression callee arguments =>
      hasRequireOfNonString callee || existsb hasRequireOfNonString arguments
      || requireOfNonString callee arguments
  | Ast.Other _ children => existsb hasRequireOfNonString children
  | _ => false
  end.

(** The package name as the source extracts it: the text before the first
    separator. *)
Definition packageName (specifier : string) : string :=
  JsString.first (JsString.split JsString.slash specifier).

(** The package name as the specification wants it: the first two segments
    of a scoped specifier, joined. *)
Definition scopedPackageName (specifier : string) : string :=
  match JsString.split JsString.slash specifier with
  | scope :: name :: _ =>
      if JsString.startsWith scope "@" then scope +:+ "/" +:+ name else scope
  | segs => JsString.first segs
  end.

(** What one specifier adds to the variables of [analyzeProject]. *)
Definition register (cwd file : string) (l : AnalyzeLocals) (specifier : string)
  : AnalyzeLocals :=
  if isInternal specifier then
    mkAnalyzeLocals (usedDependencies l) (unusedFiles l)
      (<[ Path.resolve cwd [ Path.dirname file; specifier ] := true ]> (fileImports l))
      true
  else
    mkAnalyzeLocals ({[ packageName specifier ]} ∪ usedDependencies l)
      (unusedFiles l) (fileImports l) (isUsed l).

(** The path a file is reported under. *)
Definition reportedPath (projectPath file : string) : string :=
  JsString.replace (projectPath +:+ "/") "" file.

(** A name between two separators that names an entry of a directory. *)
Definition plainSegment (seg : string) : Prop :=
  JsString.split JsString.slash seg = [ seg ]
  /\ seg <> "" /\ seg <> "." /\ seg <> "..".

(** The absolute path with the given names from the root. *)
Definition absolute (segs : list string) : string :=
  "/" +:+ JsString.join "/" segs.


End Spec.

(** The tree a computation leaves is the one it found. *)
Definition preservesTree {S A} (tree : S -> Fs.Inode) (m : M S A) : Prop :=
  forall s, tree (snd (m s)) = tree s.

(** A computation that leaves its state as it found it and needs no fuel. *)
Definition inert {S A} (m : M S A) : Prop :=
  forall s, snd (m s) = s /\ fst (m s) <> OutOfFuel.

(** The world after [console.warn(line)]. *)
Definition warned (w : Fs.World) (line : string) : Fs.World :=
  Fs.mkWorld (Fs.fs w) (Fs.console w ++ [ (Fs.LWarn, line) ]) (Fs.clock w).

(** One iteration of the loop of [analyzeProject] in closed form, shown equal
    to [analyzeFile] below. *)
Definition fileStep (P : Platform) (projectPath file : string)
    (s : Fs.World * AnalyzeLocals) : Outcome unit * (Fs.World * AnalyzeLocals) :=
  let w := fst s in
  let l := snd s in
  match fst (Fs.readFile (cwd P) file w) with
  | Throw e => (Throw e, s)
  | OutOfFuel => (OutOfFuel, s)
  | Return content =>
      match fst (Fs.stat (cwd P) file w) with
      | Throw e => (Throw e, s)
      | OutOfFuel => (OutOfFuel, s)
      | Return fileStat =>
          let l0 := mkAnalyzeLocals (usedDependencies l) (unusedFiles l)
                                    (fileImports l) false in
          let warning e :=
            "Warning: Could not parse " +:+ file +:+ ": " +:+ message e in
          match parse P content with
          | inl e => (Return tt, (warned w (warning e), l0))
          | inr ast =>
              match walk P file ast l0 with
              | (Return _, l1) =>
                  (Return tt,
                   (w, if negb (isUsed l1)
                          && negb (bool_decide (is_Some (fileImports l1 !! file)))
                       then mkAnalyzeLocals (usedDependencies l1)
                              (unusedFiles l1
                               ++ [ UnusedFile.mk (Spec.reportedPath projectPath file)
                                      (toISOString P (Fs.stat_mtime fileStat))
                                      (Fs.size fileStat) ])
                              (fileImports l1) (isUsed l1)
                       else l1))
              | (Throw e, l1) => (Return tt, (warned w (warning e), l1))
              | (OutOfFuel, l1) => (OutOfFuel, (w, l1))
              end
          end
      end
  end.

(** The walker on a list of children. *)
Definition walkAll (P : Platform) (file : string) : list Ast.Node -> M AnalyzeLocals unit :=
  fix each (l : list Ast.Node) : M AnalyzeLocals unit :=
    match l with
    | [] => ret tt
    | child :: l' => walk P file child ;; each l'
    end.

(** What the walker did on a tree: either no [require] of a non-string
    literal is in it, the walk returns and every specifier is registered, or
    there is one, the walk throws and the specifiers met before it are
    registered. *)
Definition walked (P : Platform) (file : string) (m : M AnalyzeLocals unit)
    (specs : list string) (throws : bool) : Prop :=
  forall l,
    (throws = false
     /\ m l = (Return tt, fold_left (Spec.register (cwd P) file) specs l))
    \/ (throws = true
        /\ exists e pre suf,
             specs = pre ++ suf
             /\ m l = (Throw e, fold_left (Spec.register (cwd P) file) pre l)).

(** The entry [analyzeProject] pushes for a file. *)
Definition unusedEntry (P : Platform) (projectPath file : string) (fileStat : Fs.Stats)
  : UnusedFile.t :=
  UnusedFile.mk (Spec.reportedPath projectPath file)
                (toISOString P (Fs.stat_mtime fileStat)) (Fs.size fileStat).

(** The variables at the start of an iteration. *)
Definition resetIsUsed (l : AnalyzeLocals) : AnalyzeLocals :=
  mkAnalyzeLocals (usedDependencies l) (unusedFiles l) (fileImports l) false.

(** The variables after [unusedFiles.push(...)] of the given entries. *)
Definition pushed (l : AnalyzeLocals) (entries : list UnusedFile.t) : AnalyzeLocals :=
  mkAnalyzeLocals (usedDependencies l) (unusedFiles l ++ entries)
                  (fileImports l) (isUsed l).

(** A candidate whose text and metadata can be read. *)
Definition readable (P : Platform) (w : Fs.World) (file : string) : Prop :=
  exists content fileStat,
    fst (Fs.readFile (cwd P) file w) = Return content
    /\ fst (Fs.stat (cwd P) file w) = Return fileStat.


(** The manifest of the project can be read and decodes to [packageJson]. *)
Definition manifestReads (P : Platform) (projectPath : string) (w : Fs.World)
    (packageJson : Json) : Prop :=
  exists text,
    fst (Fs.readFile (cwd P) (Path.join [ projectPath; "package.json" ]) w) = Return text
    /\ JSON_parse P text = inr packageJson
    /\ packageJson <> JNull.

(** The candidate files [glob] finds for [analyzeProject]. *)
Definition candidates (P : Platform) (projectPath : string) (w : Fs.World)
    (files : list string) : Prop :=
  glob P "**/*.{js,jsx,ts,tsx}"
       (mkGlobOptions [ "**/node_modules/**"; "**/dist/**"; "**/build/**"; "**/.git/**" ]
                      projectPath true false)
       (Fs.fs w) = inr files.

(** The table [analyzeProject] merges from the manifest, and the names
    declared in it. *)
Definition allDependenciesOf (packageJson : Json) : JsObject.Props :=
  match packageJson with
  | JObj props =>
      JsObject.spread2 (JsObject.get "dependencies" props)
                       (JsObject.get "devDependencies" props)
  | _ => []
  end.

Definition declaredNames (packageJson : Json) : list string :=
  map fst (allDependenciesOf packageJson).

(** What [analyzeProject] does once the manifest is read and the candidates
    are found. *)
Definition analyzeCandidates (P : Platform) (projectPath : string)
    (packageJson : Json) (files : list string) : M Fs.World AnalysisResult.t :=
  withLocals (mkAnalyzeLocals ∅ [] ∅ false)
    (analyzeFiles P projectPath files ;;
     unusedDependencies <- forOf (allDependenciesOf packageJson)
                                 (checkDependency P projectPath) [] ;;
     unusedFiles <- local unusedFiles ;;
     ret (AnalysisResult.mk unusedDependencies unusedFiles))%js.

(** The error [analyzeProject] rethrows. *)
Definition analysisFailed (e : Error) : Error :=
  mkError "Error" ("Failed to analyze project: " +:+ message e).

(** The variables of [analyzeProject] before its loop. *)
Definition initialLocals : AnalyzeLocals := mkAnalyzeLocals ∅ [] ∅ false.


(** The outcome of a computation depends on the tree only, not on the
    console or the clock. *)
Definition observesTree {A} (m : M Fs.World A) : Prop :=
  forall w w', Fs.fs w = Fs.fs w' -> fst (m w) = fst (m w').

(** Two states of the loop of [analyzeProject] that differ at most in the
    console, the clock and [isUsed]. *)
Definition similar (s1 s2 : Fs.World * AnalyzeLocals) : Prop :=
  Fs.fs (fst s1) = Fs.fs (fst s2)
  /\ usedDependencies (snd s1) = usedDependencies (snd s2)
  /\ unusedFiles (snd s1) = unusedFiles (snd s2)
  /\ fileImports (snd s1) = fileImports (snd s2).

(** The line printed for a file that could not be parsed. *)
Definition parseWarning (file : string) (e : Error) : string :=
  "Warning: Could not parse " +:+ file +:+ ": " +:+ message e.

(** A computation that needs no fuel, and one that returns whatever the
    state. *)
Definition fuelFree {S A} (m : M S A) : Prop :=
  forall s, fst (m s) <> OutOfFuel.

Definition alwaysReturns {S A} (m : M S A) : Prop :=
  forall s, exists a, fst (m s) = Return a.

(** ** Example projects *)

Module Scenario.
Import Demo.

Definition packageJson (dependencies : list (string * string)) : string * Fs.Inode :=
  file "package.json" (JSON_stringify (manifest dependencies)).

Definition analyze (w : Fs.World) : Outcome AnalysisResult.t * Fs.World :=
  analyzeProject platform "/p" w.

Definition unusedPaths (r : Outcome AnalysisResult.t) : option (list string) :=
  match r with
  | Return a => Some (map UnusedFile.path (AnalysisResult.unusedFiles a))
  | _ => None
  end.

Definition unusedNames (r : Outcome AnalysisResult.t) : option (list string) :=
  match r with
  | Return a => Some (map UnusedDependency.name (AnalysisResult.unusedDependencies a))
  | _ => None
  end.

(** [b.js] imports [a.js]; the directory lists [a.js] first. *)
Definition importedFirst : Fs.World :=
  world [ dir "p" [ packageJson [];
                    file "a.js" "";
                    file "b.js" "import a from './a.js'" ] ].

(** The same project, the directory listing [b.js] first. *)
Definition importerFirst : Fs.World :=
  world [ dir "p" [ packageJson [];
                    file "b.js" "import a from './a.js'";
                    file "a.js" "" ] ].

(** [lodash] is declared and required after a [require] of a number. *)
Definition numberThenLodash : Fs.World :=
  world [ dir "p" [ packageJson [ ("lodash", "^4.17.21") ];
                    file "a.js" "require(5); require('lodash')" ] ].

(** [lodash] is required before the [require] of a number. *)
Definition lodashThenNumber : Fs.World :=
  world [ dir "p" [ packageJson [ ("lodash", "^4.17.21") ];
                    file "a.js" "require('lodash'); require(5)" ] ].

(** A scoped package, declared and imported. *)
Definition scoped : Fs.World :=
  world [ dir "p" [ packageJson [ ("@scope/pkg", "1.0.0") ];
                    file "a.js" "import x from '@scope/pkg'" ] ].

(** One file, whose only statement is the given source. *)
Definition single (source : string) : Fs.World :=
  world [ dir "p" [ packageJson []; file "a.js" source ] ].

(** Scenario A of the specification, with a file that does not parse. *)
Definition withSyntaxError : Fs.World :=
  world [ dir "p" [ packageJson [ ("lodash", "^4.17.21"); ("chalk", "^5.3.0") ];
                    file "a.js" "import chalk from 'chalk'";
                    file "broken.js" "const x = (";
                    file "b.js" "" ] ].

(** A file that cannot be read, next to one that can. *)
Definition withUnreadableFile : Fs.World :=
  world [ dir "p" [ packageJson [];
                    ("a.js", Fs.IFile "" (Fs.mkMeta 1700000000000 false true));
                    file "b.js" "" ] ].

(** An unused file in a directory that does not allow removing entries. *)
Definition withLockedDirectory : Fs.World :=
  world [ dir "p" [ packageJson [];
                    ("locked", Fs.IDir [ file "a.js" "export default 1" ]
                                       (Fs.mkMeta 1700000000000 true false)) ] ].

(** A directory that cannot be listed. *)
Definition withUnreadableDirectory : Fs.World :=
  world [ dir "p" [ packageJson [];
                    ("secret", Fs.IDir [] (Fs.mkMeta 1700000000000 false true));
                    file "a.js" "import chalk from 'chalk'" ] ].

(** [a.js] imports [./b], and [b.js] imports nothing. *)
Definition extensionless : Fs.World :=
  world [ dir "p" [ packageJson [];
                    file "a.js" "import b from './b'";
                    file "b.js" "" ] ].

End Scenario.

(** ** The command line ([index.js])

    The two commands of the program. What they take from the terminal is
    kept apart from the engine: the styles of chalk, the events of the ora
    spinner, the question asked through readline and the answer typed. Sizes
    are whole numbers of bytes below 2^53, so that the divisions by 1024 and
    the sums of the source are exact and [toFixed] can be computed on
    integers. *)

Inductive Color := red | green | yellow | blue | gray.

Record Terminal := mkTerminal {
  (* chalk.red(text), chalk.green(text), ... *)
  chalk : Color -> string -> string
}.

(** The flags of [clean]. *)
Record Options := mkOptions { dryRun : bool; yes : bool }.

Inductive SpinnerEvent :=
| SpinnerStart (text : string)
| SpinnerSucceed (text : string)
| SpinnerFail (text : string).

(** What a command did to the terminal besides printing lines. *)
Record CliLocals := mkCliLocals {
  spinner : list SpinnerEvent;
  questions : list string
}.

(** How a command ends: by returning, or by [process.exit(code)]. *)
Inductive Exit := Finished | Exited (code : Z).

Module Cli.

Definition newline : string := String (Ascii.ascii_of_nat 10) EmptyString.

(** [(n / d).toFixed(2)] for [0 <= n] and [0 < d]: the nearest number of
    hundredths, the larger of two that are equally near. *)
Definition toFixed2 (n d : Z) : string :=
  let hundredths := ((200 * n + d) / (2 * d))%Z in
  let cents := pretty (hundredths mod 100)%Z in
  pretty (hundredths / 100)%Z +:+ "."
  +:+ (if (hundredths mod 100 <? 10)%Z then "0" +:+ cents else cents).

(** A value inside a template literal. *)
Fixpoint templateString (v : Json) : string :=
  match v with
  | JNull => "null"
  | JBool true => "true"
  | JBool false => "false"
  | JNum raw => raw
  | JStr s => s
  | JArr items =>
      JsString.join ","
        (map (fun x => match x with
                       | JNull => EmptyString
                       | _ => templateString x
                       end) items)
  | JObj _ => "[object Object]"
  end.

(** [c.toLowerCase()] on the letters A to Z; no other character has the
    lower case [y]. *)
Definition lowerAscii (c : ascii) : ascii :=
  let n := Ascii.nat_of_ascii c in
  if Nat.leb 65 n && Nat.leb n 90 then Ascii.ascii_of_nat (n + 32) else c.

Fixpoint toLowerCase (s : string) : string :=
  match s with
  | EmptyString => EmptyString
  | String c s' => String (lowerAscii c) (toLowerCase s')
  end.

(** [array.reduce((acc, x) => acc + (size(x) || 0), 0)] *)
Definition totalSize {A} (size : A -> Z) (items : list A) : Z :=
  fold_left (fun acc x => (acc + size x)%Z) items 0%Z.

Definition isEmpty {A} (l : list A) : bool := Nat.eqb (List.length l) 0.

End Cli.

Section CommandLine.
Variable P : Platform.
Variable T : Terminal.

Definition console_log (line : string) : M (Fs.World * CliLocals) unit :=
  inWorld (Fs.consoleWrite Fs.LLog line).

Definition spinner_push (event : SpinnerEvent) : M (Fs.World * CliLocals) unit :=
  assign (fun l => mkCliLocals (spinner l ++ [ event ]) (questions l)).

(** [readline.question(prompt, ...)]: the prompt is shown. *)
Definition ask (prompt : string) : M (Fs.World * CliLocals) unit :=
  assign (fun l => mkCliLocals (spinner l) (questions l ++ [ prompt ])).

(** The [catch] of both commands. *)
Definition failWith (text : string) (error : Error) : M (Fs.World * CliLocals) Exit :=
  spinner_push (SpinnerFail text) ;;
  inWorld (Fs.consoleWrite Fs.LError
             (chalk T red (Cli.newline +:+ "Error:") +:+ " " +:+ message error)) ;;
  ret (Exited 1).

(** [items.forEach(item => console.log(line(item)))] when there are items,
    under its heading. *)
Definition logEach {A} (heading : string) (items : list A)
    (lines : A -> M (Fs.World * CliLocals) unit) : M (Fs.World * CliLocals) unit :=
  if negb (Cli.isEmpty items) then
    console_log (chalk T yellow (Cli.newline +:+ heading)) ;;
    forOf items (fun item _ => lines item) tt
  else ret tt.

(** What both commands do around their work: start the spinner, analyse
    the working directory, hand the analysis to [work]; whatever is thrown
    is printed, and the process exits with code 1. *)
Definition command (work : AnalysisResult.t -> M (Fs.World * CliLocals) Exit)
    (failure : string) : M (Fs.World * CliLocals) Exit :=
  spinner_push (SpinnerStart "Analyzing project...") ;;
  tryCatch
    (analysis <- inWorld (analyzeProject P (cwd P)) ;;
     work analysis)
    (failWith failure).

(** The [try] block of [analyze] after the analysis. *)
Definition reportUnused (analysis : AnalysisResult.t) : M (Fs.World * CliLocals) Exit :=
  spinner_push (SpinnerSucceed "Analysis complete") ;;
  let unusedDependencies := AnalysisResult.unusedDependencies analysis in
  let unusedFiles := AnalysisResult.unusedFiles analysis in
  if Cli.isEmpty unusedDependencies && Cli.isEmpty unusedFiles then
    console_log
      (chalk T green
         (Cli.newline
          +:+ "✨ Your project is clean! No unused dependencies or files found.")) ;;
    ret Finished
  else
    logEach "Unused Dependencies:" unusedDependencies (fun dep =>
      console_log
        (chalk T red ("  • " +:+ UnusedDependency.name dep +:+ " ("
                      +:+ Cli.templateString (UnusedDependency.version dep)
                      +:+ ")")) ;;
      if negb (Z.eqb (UnusedDependency.size dep) 0) then
        console_log
          (chalk T gray ("    Size: "
                         +:+ Cli.toFixed2 (UnusedDependency.size dep) (1024 * 1024)
                         +:+ " MB"))
      else ret tt) ;;
    logEach "Unused Files:" unusedFiles (fun file =>
      console_log (chalk T red ("  • " +:+ UnusedFile.path file)) ;;
      console_log (chalk T gray ("    Last modified: "
                                 +:+ UnusedFile.lastModified file)) ;;
      console_log
        (chalk T gray ("    Size: " +:+ Cli.toFixed2 (UnusedFile.size file) 1024
                       +:+ " KB"))) ;;
    console_log (chalk T blue (Cli.newline +:+ "Potential savings:")) ;;
    let totalDepsSize := Cli.totalSize UnusedDependency.size unusedDependencies in
    let totalFilesSize := Cli.totalSize UnusedFile.size unusedFiles in
    console_log
      (chalk T green ("  • " +:+ Cli.toFixed2 totalDepsSize (1024 * 1024)
                      +:+ " MB from dependencies")) ;;
    console_log
      (chalk T green ("  • " +:+ Cli.toFixed2 totalFilesSize 1024
                      +:+ " KB from files")) ;;
    ret Finished.

(** The action of [refiner analyze]. *)
Definition analyzeAction : M (Fs.World * CliLocals) Exit :=
  command reportUnused "Analysis failed".

(** [answer.toLowerCase() === 'y'] *)
Definition confirms (answer : string) : bool :=
  String.eqb (Cli.toLowerCase answer) "y".

(** The lines [clean] prints after a cleanup. *)
Definition logRemoved (heading : string) (items : list string)
  : M (Fs.World * CliLocals) unit :=
  console_log (chalk T yellow (Cli.newline +:+ heading)) ;;
  if negb (Cli.isEmpty items) then
    forOf items (fun item _ => console_log (chalk T green ("  • " +:+ item))) tt
  else console_log (chalk T green "  • None").

(** What [clean] prints after the cleanup. *)
Definition reportCleanup (result : CleanResult.t) : M (Fs.World * CliLocals) Exit :=
  spinner_push (SpinnerSucceed "Cleanup complete") ;;
  console_log (chalk T green (Cli.newline +:+ "✨ Cleanup Results:")) ;;
  logRemoved "Removed Dependencies:" (CleanResult.removedDependencies result) ;;
  logRemoved "Removed Files:" (CleanResult.removedFiles result) ;;
  logRemoved "Removed Directories:" (CleanResult.removedDirs result) ;;
  console_log (chalk T blue (Cli.newline +:+ "Space freed:")) ;;
  console_log
    (chalk T green ("  • "
                    +:+ Cli.toFixed2 (CleanResult.freedSpace result) (1024 * 1024)
                    +:+ " MB total")) ;;
  ret Finished.

(** The end of [clean], once the items are listed: ask unless told not to,
    then clean and report, given the flags and what the user types if
    asked. *)
Definition proceed (options : Options) (answer : string) (analysis : AnalysisResult.t)
  : M (Fs.World * CliLocals) Exit :=
  confirm <- (if negb (yes options) && negb (dryRun options) then
                ask (chalk T yellow
                       (Cli.newline
                        +:+ "Do you want to proceed with cleanup? (y/N) ")) ;;
                ret (confirms answer)
              else ret true) ;;
  if negb confirm then
    console_log (chalk T yellow (Cli.newline +:+ "Cleanup cancelled")) ;;
    ret Finished
  else if dryRun options then
    console_log
      (chalk T blue (Cli.newline +:+ "🔍 Dry run complete - no changes made")) ;;
    ret Finished
  else
    spinner_push (SpinnerStart "Cleaning project...") ;;
    result <- inWorld (cleanProject P (cwd P) analysis) ;;
    reportCleanup result.

(** The items [clean] lists before it asks. *)
Definition listItems (analysis : AnalysisResult.t) : M (Fs.World * CliLocals) unit :=
  console_log (chalk T yellow (Cli.newline +:+ "Items to be removed:")) ;;
  logEach "Dependencies:" (AnalysisResult.unusedDependencies analysis) (fun dep =>
    console_log (chalk T red ("  • " +:+ UnusedDependency.name dep))) ;;
  logEach "Files:" (AnalysisResult.unusedFiles analysis) (fun file =>
    console_log (chalk T red ("  • " +:+ UnusedFile.path file))).

(** The [try] block of [clean] after the analysis. *)
Definition removeUnused (options : Options) (answer : string)
    (analysis : AnalysisResult.t) : M (Fs.World * CliLocals) Exit :=
  spinner_push (SpinnerSucceed "Analysis complete") ;;
  if Cli.isEmpty (AnalysisResult.unusedDependencies analysis)
     && Cli.isEmpty (AnalysisResult.unusedFiles analysis) then
    console_log
      (chalk T green (Cli.newline +:+ "✨ Your project is already clean!")) ;;
    ret Finished
  else
    listItems analysis ;;
    proceed options answer analysis.

(** The action of [refiner clean]. *)
Definition cleanAction (options : Options) (answer : string)
  : M (Fs.World * CliLocals) Exit :=
  command (removeUnused options answer) "Cleanup failed".

End CommandLine.

(** ** A terminal session to run the commands in

    The platform of the examples with the project as the working directory,
    and a terminal without colours. *)

Module Session.

Definition platform : Platform :=
  mkPlatform "/p" Demo.parse Demo.glob Demo.JSON_parse Demo.JSON_stringify
             Demo.execSync Demo.toISOString.

Definition terminal : Terminal := mkTerminal (fun _ text => text).

Definition start (w : Fs.World) : Fs.World * CliLocals := (w, mkCliLocals [] []).

Definition analyze (w : Fs.World) : Outcome Exit * (Fs.World * CliLocals) :=
  analyzeAction platform terminal (start w).

Definition clean (options : Options) (answer : string) (w : Fs.World)
  : Outcome Exit * (Fs.World * CliLocals) :=
  cleanAction platform terminal options answer (start w).

(** Two files that import each other and no dependencies: nothing is
    unused. *)
Definition tidy : Fs.World :=
  Demo.world [ Demo.dir "p" [ Scenario.packageJson [];
                              Demo.file "a.js" "import b from './b.js'";
                              Demo.file "b.js" "import a from './a.js'" ] ].

(** A project with a directory that holds only an empty directory, next to
    one that holds a file. *)
Definition withEmptyDirectories : Fs.World :=
  Demo.world [ Demo.dir "p" [ Scenario.packageJson [];
                              Demo.dir "empty" [ Demo.dir "inner" [] ];
                              Demo.dir "src" [ Demo.file "a.js" "" ] ] ].

(** A project with an installed dependency that nothing imports. *)
Definition withModules : Fs.World :=
  Demo.world [ Demo.dir "p" [ Scenario.packageJson [ ("lodash", "^4.17.21") ];
                              Demo.dir "node_modules"
                                [ Demo.dir "lodash" [ Demo.file "index.js" "export default 1" ] ];
                              Demo.file "a.js" "import b from './b.js'";
                              Demo.file "b.js" "import a from './a.js'" ] ].

(** Its analysis. *)
Definition unusedLodash : AnalysisResult.t :=
  AnalysisResult.mk [ UnusedDependency.mk "lodash" (JStr "^4.17.21") 16 ] [].




End Session.

(** ** What a computation leaves of the state it found *)

(** The state left is related to the state found, whatever the outcome. *)
Definition stable {S A} (R : S -> S -> Prop) (m : M S A) : Prop :=
  forall s, R s (snd (m s)).

(** A part of the state is left as it was found. *)
Definition keeps {S A X} (view : S -> X) (m : M S A) : Prop :=
  stable (fun s s' => view s' = view s) m.

(** The tree and the questions asked so far: what a command that only
    reports must leave alone. *)
Definition untouched (s : Fs.World * CliLocals) : Fs.Inode * list string :=
  (Fs.fs (fst s), questions (snd s)).

(** The prompt of [clean]. *)
Definition cleanupPrompt (T : Terminal) : string :=
  chalk T yellow (Cli.newline +:+ "Do you want to proceed with cleanup? (y/N) ").

(** The line both commands print for an error. *)
Definition errorLine (T : Terminal) (e : Error) : Fs.Level * string :=
  (Fs.LError, chalk T red (Cli.newline +:+ "Error:") +:+ " " +:+ message e).

(** A computation that returns [a] whatever the state. *)
Definition yields {S A} (a : A) (m : M S A) : Prop :=
  forall s, fst (m s) = Return a.

(** Whether [stat] succeeds on a path in a world, and the size it gives
    there. *)
Definition statable (P : Platform) (w : Fs.World) (path : string) : bool :=
  match fst (Fs.stat (cwd P) path w) with
  | Return _ => true
  | _ => false
  end.

Definition sizeAt (P : Platform) (w : Fs.World) (path : string) : Z :=
  match fst (Fs.stat (cwd P) path w) with
  | Return stats => Fs.size stats
  | _ => 0%Z
  end.

Definition sumZ (l : list Z) : Z := fold_right Z.add 0%Z l.

(** The regular file at [segs] in [n], if there is one, is at [segs] in [n']
    with the same content and metadata. *)
Definition keepsFileAt (segs : list string) (n n' : Fs.Inode) : Prop :=
  forall content meta,
    Fs.lookup segs n = Some (Fs.IFile content meta) ->
    Fs.lookup segs n' = Some (Fs.IFile content meta).

(** A change of the entries of a directory that leaves every name but the
    one it is made for. *)
Definition changesOneName
    (f : string -> list (string * Fs.Inode) -> Fs.Meta ->
         (string -> string -> Error) + list (string * Fs.Inode)) : Prop :=
  forall name entries meta entries',
    f name entries meta = inr entries' ->
    forall other, other <> name -> Fs.assoc other entries' = Fs.assoc other entries.

(** Every regular file stays as it is, and nothing is printed. *)
Definition spares (w w' : Fs.World) : Prop :=
  (forall segs, keepsFileAt segs (Fs.fs w) (Fs.fs w'))
  /\ Fs.console w' = Fs.console w.

(** A relation on worlds, and one on the variables of a function, as
    relations on the states of its body. *)
Definition onWorld {L} (R : Fs.World -> Fs.World -> Prop) (s s' : Fs.World * L) : Prop :=
  R (fst s) (fst s').

Definition onLocals {L} (R : L -> L -> Prop) (s s' : Fs.World * L) : Prop :=
  R (snd s) (snd s').

(** The regular file at [segs] stays as it is. *)
Definition keepsFile (segs : list string) (w w' : Fs.World) : Prop :=
  keepsFileAt segs (Fs.fs w) (Fs.fs w').

(** What [cleanProject] has added to its variables: names out of [names],
    paths out of [paths] and directories out of [dirs], each in the order of
    the list, and a number of bytes, none where there is no path. *)
Definition reportedMore (names paths dirs : list string) (l l' : CleanLocals) : Prop :=
  exists subNames subPaths subDirs freed,
    subNames `sublist_of` names
    /\ subPaths `sublist_of` paths
    /\ subDirs `sublist_of` dirs
    /\ (0 <= freed)%Z
    /\ (paths = [] -> freed = 0%Z)
    /\ l' = mkCleanLocals (removedDependencies l ++ subNames)
                          (removedFiles l ++ subPaths)
                          (removedDirs l ++ subDirs)
                          (freedSpace l + freed)%Z.

(** The value a body returns is read off its variables. *)
Definition returnsLocals {L A} (f : L -> A) (m : M (Fs.World * L) A) : Prop :=
  forall s a, fst (m s) = Return a -> a = f (snd (snd (m s))).

(** The console has gained nothing but warnings about files that could not
    be parsed. *)
Definition warnsOnly (w w' : Fs.World) : Prop :=
  exists lines,
    Fs.console w' = Fs.console w ++ lines
    /\ Forall (fun line => exists file e, line = (Fs.LWarn, parseWarning file e)) lines.





(** A tree as a file system has it: every name in it is one path segment,
    neither empty nor [.] nor [..]. *)
Fixpoint wellNamed (n : Fs.Inode) : Prop :=
  match n with
  | Fs.IFile _ _ => True
  | Fs.IDir entries _ =>
      fold_right (fun e rest =>
                    match e with
                    | (name, child) => Spec.plainSegment name /\ wellNamed child /\ rest
                    end) True entries
  end.

(** The same of the entries of a directory. *)
Definition wellNamedEntries (entries : list (string * Fs.Inode)) : Prop :=
  Forall (fun e => Spec.plainSegment (fst e) /\ wellNamed (snd e)) entries.

(** The depth of the deepest entry of a directory. *)
Definition deepest (entries : list (string * Fs.Inode)) : nat :=
  fold_right (fun e d => match e with (_, child) => Nat.max (Fs.depth child) d end)
             0 entries.

(** The depth of what is at [segs], nothing having depth 0. *)
Definition depthAt (segs : list string) (n : Fs.Inode) : nat :=
  match Fs.lookup segs n with
  | Some below => Fs.depth below
  | None => 0
  end.

(** A change of a directory that takes the name out of it. *)
Definition removesName
    (f : string -> list (string * Fs.Inode) -> Fs.Meta ->
         (string -> string -> Error) + list (string * Fs.Inode)) : Prop :=
  forall name entries m entries',
    f name entries m = inr entries' -> entries' = Fs.removeEntry name entries.

(** A change of a directory that leaves names as a file system has them. *)
Definition keepsNames
    (f : string -> list (string * Fs.Inode) -> Fs.Meta ->
         (string -> string -> Error) + list (string * Fs.Inode)) : Prop :=
  forall name entries m entries',
    Spec.plainSegment name -> wellNamedEntries entries ->
    f name entries m = inr entries' -> wellNamedEntries entries'.

(** [m], started where [Pre] holds, ends (it returns or throws) and leaves
    [Post]. *)
Definition ends {S A} (Pre Post : S -> Prop) (m : M S A) : Prop :=
  forall s, Pre s -> fst (m s) <> OutOfFuel /\ Post (snd (m s)).

(** What the pruning of [segs] keeps while it goes through the directory:
    names stay as they are and nothing from [segs] up gets deeper than it was
    in [w]. *)
Definition notDeeper (segs : list string) (w s : Fs.World) : Prop :=
  wellNamed (Fs.fs s)
  /\ forall p, p `prefix_of` segs -> depthAt p (Fs.fs s) <= depthAt p (Fs.fs w).

(** What it leaves: the same above [segs]. *)
Definition notDeeperAbove (segs : list string) (w s : Fs.World) : Prop :=
  wellNamed (Fs.fs s)
  /\ forall p x rest, segs = p ++ x :: rest ->
                      depthAt p (Fs.fs s) <= depthAt p (Fs.fs w).

(** Names stay as a file system has them. *)
Definition staysNamed (w w' : Fs.World) : Prop :=
  wellNamed (Fs.fs w) -> wellNamed (Fs.fs w').

(** * Properties *)

(** ** String and path functions on examples *)

Example split_first_example :
  JsString.first (JsString.split JsString.slash "lodash/fp") = "lodash"
  /\ JsString.split JsString.slash "" = [ "" ]
  /\ JsString.replace "/p/" "" "/p/src/a.js" = "src/a.js".
Proof. repeat split; reflexivity. Qed.

Example path_examples :
  Path.dirname "/p/src/a.js" = "/p/src"
  /\ Path.dirname "/a.js" = "/"
  /\ Path.resolve "/cwd" [ "/p/src"; "../lib/b" ] = "/p/lib/b"
  /\ Path.resolve "/cwd" [ "/p/src"; "./b" ] = "/p/src/b"
  /\ Path.resolve "/cwd" [ "/p/src"; "/abs/c.js" ] = "/abs/c.js"
  /\ Path.resolve "/cwd" [ "rel"; "x" ] = "/cwd/rel/x"
  /\ Path.join [ "/p"; "node_modules"; "@scope/pkg" ] = "/p/node_modules/@scope/pkg"
  /\ Path.join [ "/p"; "package.json" ] = "/p/package.json".
Proof. repeat split; vm_compute; reflexivity. Qed.

(** Scenario A of the specification. *)
Example scenario_A :
  Scenario.unusedNames (fst (Scenario.analyze Scenario.withSyntaxError)) = Some [ "lodash" ]
  /\ Scenario.unusedPaths (fst (Scenario.analyze Scenario.withSyntaxError))
     = Some [ "a.js"; "b.js" ].
Proof. split; vm_compute; reflexivity. Qed.

(** ** The monad *)

Section PreservesTree.
Context {S : Type} (tree : S -> Fs.Inode).

Lemma preservesTree_ret {A} (a : A) : preservesTree tree (ret a).
Proof. intros s. reflexivity. Qed.

Lemma preservesTree_throw {A} (e : Error) : preservesTree tree (@throw S A e).
Proof. intros s. reflexivity. Qed.

Lemma preservesTree_gets {A} (f : S -> A) : preservesTree tree (gets f).
Proof. intros s. reflexivity. Qed.

Lemma preservesTree_liftResult {A} (r : Error + A) :
  preservesTree tree (liftResult r).
Proof. destruct r; intros s; reflexivity. Qed.

Lemma preservesTree_bind {A B} (m : M S A) (k : A -> M S B) :
  preservesTree tree m -> (forall a, preservesTree tree (k a)) ->
  preservesTree tree (bind m k).
Proof.
  intros Hm Hk s. unfold bind. specialize (Hm s).
  destruct (m s) as [[a | e | ] s']; simpl in *; try assumption.
  rewrite Hk. assumption.
Qed.

Lemma preservesTree_tryCatch {A} (m : M S A) (handler : Error -> M S A) :
  preservesTree tree m -> (forall e, preservesTree tree (handler e)) ->
  preservesTree tree (tryCatch m handler).
Proof.
  intros Hm Hh s. unfold tryCatch. specialize (Hm s).
  destruct (m s) as [[a | e | ] s']; simpl in *; try assumption.
  rewrite Hh. assumption.
Qed.

Lemma preservesTree_forOf {A B} (l : list A) (body : A -> B -> M S B) (acc : B) :
  (forall x b, preservesTree tree (body x b)) ->
  preservesTree tree (forOf l body acc).
Proof.
  intros Hbody. revert acc.
  induction l as [| x l IH]; intros acc; simpl.
  - apply preservesTree_ret.
  - apply preservesTree_bind; [apply Hbody | intros b; apply IH].
Qed.

End PreservesTree.

(** ** The analysis only reads *)

Section ReadOnly.
Variable P : Platform.

Lemma preservesTree_inWorld {L A} (m : M Fs.World A) :
  preservesTree Fs.fs m ->
  preservesTree (fun s : Fs.World * L => Fs.fs (fst s)) (inWorld m).
Proof.
  intros Hm s. unfold inWorld. specialize (Hm (fst s)).
  destruct (m (fst s)) as [o w]. exact Hm.
Qed.

Lemma preservesTree_inLocals {L A} (m : M L A) :
  preservesTree (fun s : Fs.World * L => Fs.fs (fst s)) (inLocals m).
Proof.
  intros s. unfold inLocals. destruct (m (snd s)) as [o l]. reflexivity.
Qed.

Lemma preservesTree_local {L A} (f : L -> A) :
  preservesTree (fun s : Fs.World * L => Fs.fs (fst s)) (local f).
Proof. intros s. reflexivity. Qed.

Lemma preservesTree_withLocals {L A} (init : L) (m : M (Fs.World * L) A) :
  preservesTree (fun s : Fs.World * L => Fs.fs (fst s)) m ->
  preservesTree Fs.fs (withLocals init m).
Proof.
  intros Hm w. unfold withLocals. specialize (Hm (w, init)).
  destruct (m (w, init)) as [o s]. exact Hm.
Qed.

Lemma preservesTree_readFile path : preservesTree Fs.fs (Fs.readFile (cwd P) path).
Proof.
  apply preservesTree_bind; [apply preservesTree_gets |].
  intros [[content m | entries m] |]; try apply preservesTree_throw.
  destruct (Fs.readable m);
    [apply preservesTree_ret | apply preservesTree_throw].
Qed.

Lemma preservesTree_stat path : preservesTree Fs.fs (Fs.stat (cwd P) path).
Proof.
  apply preservesTree_bind; [apply preservesTree_gets |].
  intros [[content m | entries m] |];
    first [apply preservesTree_ret | apply preservesTree_throw].
Qed.

Lemma preservesTree_consoleWrite level line :
  preservesTree Fs.fs (Fs.consoleWrite level line).
Proof. intros w. reflexivity. Qed.

Lemma preservesTree_runGlob pattern options :
  preservesTree Fs.fs (runGlob P pattern options).
Proof.
  apply preservesTree_bind; [apply preservesTree_gets |].
  intros tree. apply preservesTree_liftResult.
Qed.

Lemma preservesTree_getProp {S} (tree : S -> Fs.Inode) object key :
  preservesTree tree (getProp object key).
Proof.
  destruct object; first [apply preservesTree_ret | apply preservesTree_throw].
Qed.

Lemma preservesTree_getFolderSize folderPath :
  preservesTree Fs.fs (getFolderSize P folderPath).
Proof.
  apply preservesTree_tryCatch; [| intros e; apply preservesTree_ret].
  apply preservesTree_bind; [apply preservesTree_runGlob |].
  intros files. apply preservesTree_bind; [| intros n; apply preservesTree_ret].
  apply preservesTree_forOf. intros file n.
  apply preservesTree_bind; [apply preservesTree_stat |].
  intros stats. apply preservesTree_ret.
Qed.

Lemma preservesTree_analyzeFile projectPath file :
  preservesTree (fun s : Fs.World * AnalyzeLocals => Fs.fs (fst s))
                (analyzeFile P projectPath file).
Proof.
  apply preservesTree_bind;
    [apply preservesTree_inWorld, preservesTree_readFile |].
  intros content.
  apply preservesTree_bind;
    [apply preservesTree_inWorld, preservesTree_stat |].
  intros fileStat.
  apply preservesTree_bind; [apply preservesTree_inLocals |].
  intros _. apply preservesTree_tryCatch.
  - apply preservesTree_bind; [apply preservesTree_liftResult |].
    intros ast. apply preservesTree_bind; [apply preservesTree_inLocals |].
    intros _. apply preservesTree_bind; [apply preservesTree_local |].
    intros used. apply preservesTree_bind; [apply preservesTree_local |].
    intros imports.
    destruct (negb used && negb (bool_decide (is_Some (imports !! file))));
      [apply preservesTree_inLocals | apply preservesTree_ret].
  - intros e. apply preservesTree_inWorld, preservesTree_consoleWrite.
Qed.

Lemma preservesTree_checkDependency projectPath entry acc :
  preservesTree (fun s : Fs.World * AnalyzeLocals => Fs.fs (fst s))
                (checkDependency P projectPath entry acc).
Proof.
  destruct entry as [name version]. unfold checkDependency.
  apply preservesTree_bind; [apply preservesTree_local |].
  intros used. destruct (negb (bool_decide (name ∈ used)));
    [| apply preservesTree_ret].
  apply preservesTree_bind; [| intros n; apply preservesTree_ret].
  apply preservesTree_tryCatch; [| intros e; apply preservesTree_ret].
  apply preservesTree_inWorld, preservesTree_getFolderSize.
Qed.

Lemma preservesTree_analyzeProject projectPath :
  preservesTree Fs.fs (analyzeProject P projectPath).
Proof.
  apply preservesTree_tryCatch; [| intros e; apply preservesTree_throw].
  apply preservesTree_bind; [apply preservesTree_readFile |].
  intros text. apply preservesTree_bind; [apply preservesTree_liftResult |].
  intros packageJson. apply preservesTree_bind; [apply preservesTree_getProp |].
  intros dependencies. apply preservesTree_bind; [apply preservesTree_getProp |].
  intros devDependencies. apply preservesTree_bind; [apply preservesTree_runGlob |].
  intros files. apply preservesTree_withLocals.
  apply preservesTree_bind.
  { apply preservesTree_forOf. intros file b. apply preservesTree_analyzeFile. }
  intros _. apply preservesTree_bind.
  { apply preservesTree_forOf. intros entry acc. apply preservesTree_checkDependency. }
  intros unusedDependencies.
  apply preservesTree_bind; [apply preservesTree_local |].
  intros unused. apply preservesTree_ret.
Qed.

End ReadOnly.

(** C7. [analyzeProject] performs no file-system mutation: whatever the
    project, the platform and the state of the world, the directory tree
    after the run is the tree before it, whether the run returns a result or
    throws. *)
Theorem analyzeProject_leaves_tree_unchanged :
  forall (P : Platform) (projectPath : string) (w : Fs.World),
    Fs.fs (snd (analyzeProject P projectPath w)) = Fs.fs w.
Proof. intros P projectPath w. apply preservesTree_analyzeProject. Qed.

(** [cleanProject], for comparison, does change the tree. *)
Example cleanProject_changes_tree :
  Fs.fs (snd (cleanProject Demo.platform "/p"
                (AnalysisResult.mk [] [ UnusedFile.mk "b.js" "" 0 ])
                Scenario.extensionless))
  <> Fs.fs Scenario.extensionless.
Proof. vm_compute. discriminate. Qed.

(** ** The engine on the example projects *)

(** C1. Whether a file is reported as unused depends on the order in which
    the files are met. [b.js] imports [./a.js], whose resolved target is the
    candidate [/p/a.js]; when [a.js] is met first it is classified before
    that reference is recorded, and is reported as unused. The same two files
    met in the other order give an empty list. *)
Theorem unused_files_depend_on_file_order :
  glob Demo.platform "**/*.{js,jsx,ts,tsx}"
       (mkGlobOptions [ "**/node_modules/**"; "**/dist/**"; "**/build/**"; "**/.git/**" ]
                      "/p" true false)
       (Fs.fs Scenario.importedFirst) = inr [ "/p/a.js"; "/p/b.js" ]
  /\ glob Demo.platform "**/*.{js,jsx,ts,tsx}"
       (mkGlobOptions [ "**/node_modules/**"; "**/dist/**"; "**/build/**"; "**/.git/**" ]
                      "/p" true false)
       (Fs.fs Scenario.importerFirst) = inr [ "/p/b.js"; "/p/a.js" ]
  /\ Path.resolve (cwd Demo.platform) [ Path.dirname "/p/b.js"; "./a.js" ] = "/p/a.js"
  /\ Scenario.unusedPaths (fst (Scenario.analyze Scenario.importedFirst)) = Some [ "a.js" ]
  /\ Scenario.unusedPaths (fst (Scenario.analyze Scenario.importerFirst)) = Some [].
Proof. repeat split; vm_compute; reflexivity. Qed.

(** C2. A declared dependency can be reported as unused although a file that
    parses requires it: in [require(5); require('lodash')] the visitor throws
    at the first call, the walk of the file ends there, and [lodash] is never
    registered. (With the two calls in the other order [lodash] is registered
    before the throw, and is not reported, although the file is then printed
    as one that could not be parsed.) *)
Theorem dependency_after_require_of_number_is_reported_unused :
  (exists ast, parse Demo.platform "require(5); require('lodash')" = inr ast
               /\ In "lodash" (Spec.specifiers ast)
               /\ Spec.isInternal "lodash" = false
               /\ Spec.packageName "lodash" = "lodash")
  /\ Scenario.unusedNames (fst (Scenario.analyze Scenario.numberThenLodash))
     = Some [ "lodash" ]
  /\ Scenario.unusedNames (fst (Scenario.analyze Scenario.lodashThenNumber))
     = Some []
  /\ Fs.console (snd (Scenario.analyze Scenario.lodashThenNumber))
     = [ (Fs.LWarn,
          "Warning: Could not parse /p/a.js: requirePath.startsWith is not a function") ].
Proof.
  split.
  - eexists. split; [reflexivity |]. vm_compute. intuition.
  - repeat split; vm_compute; reflexivity.
Qed.

(** C3. For the scoped specifier [@scope/pkg] the visitor registers the
    first segment [@scope] only, so the declared package [@scope/pkg] is
    reported as unused although a file imports it. *)
Theorem scoped_specifier_registers_scope_only :
  Spec.packageName "@scope/pkg" = "@scope"
  /\ Spec.scopedPackageName "@scope/pkg" = "@scope/pkg"
  /\ usedDependencies
       (snd (visitImportDeclaration Demo.platform "/p/a.js" "@scope/pkg"
               (mkAnalyzeLocals ∅ [] ∅ false)))
     = {[ "@scope" ]}
  /\ Scenario.unusedNames (fst (Scenario.analyze Scenario.scoped)) = Some [ "@scope/pkg" ].
Proof. repeat split; vm_compute; reflexivity. Qed.

(** C6. A [require] whose first argument is a number literal is not skipped:
    the visitor throws a [TypeError], the file is reported as one that could
    not be parsed and is left out of the unused files, where the same file
    with a non-literal argument is listed and nothing is printed. *)
Theorem require_of_number_throws_and_changes_classification :
  fst (visitCallExpression Demo.platform "/p/a.js" (Ast.Identifier "require")
         [ Ast.Literal (Ast.VNumber "5") ] (mkAnalyzeLocals ∅ [] ∅ false))
  = Throw (TypeError "requirePath.startsWith is not a function")
  /\ Scenario.unusedPaths (fst (Scenario.analyze (Scenario.single "require(5)"))) = Some []
  /\ Fs.console (snd (Scenario.analyze (Scenario.single "require(5)")))
     = [ (Fs.LWarn,
          "Warning: Could not parse /p/a.js: requirePath.startsWith is not a function") ]
  /\ Scenario.unusedPaths (fst (Scenario.analyze (Scenario.single "require(name)")))
     = Some [ "a.js" ]
  /\ Fs.console (snd (Scenario.analyze (Scenario.single "require(name)"))) = [].
Proof. repeat split; vm_compute; reflexivity. Qed.

(** C8. [freedSpace] counts a file that was not deleted: the size is added
    before [unlink] runs, so when [unlink] fails the 16 bytes of the file are
    reported as freed while the file is still there and [removedFiles] is
    empty. *)
Theorem freedSpace_counts_file_that_failed_to_delete :
  exists analysis,
    fst (Scenario.analyze Scenario.withLockedDirectory) = Return analysis
    /\ map UnusedFile.path (AnalysisResult.unusedFiles analysis) = [ "locked/a.js" ]
    /\ fst (Fs.unlink "/" "/p/locked/a.js" Scenario.withLockedDirectory)
       = Throw (Fs.EACCES "unlink" "/p/locked/a.js")
    /\ fst (cleanProject Demo.platform "/p" analysis Scenario.withLockedDirectory)
       = Return (CleanResult.mk [] [] [] 16)
    /\ fst (Fs.stat "/" "/p/locked/a.js"
              (snd (cleanProject Demo.platform "/p" analysis Scenario.withLockedDirectory)))
       = Return (Fs.mkStats 16 1700000000000 false).
Proof. eexists. repeat split; vm_compute; reflexivity. Qed.

(** C9. A failure while pruning empty directories is not scoped to the
    directory: [removeEmptyDirectories] is called outside any [try], so a
    directory that cannot be listed makes [cleanProject] throw, after it has
    deleted the unused file, instead of returning its result. *)
Theorem unreadable_directory_aborts_cleanProject :
  exists analysis,
    fst (Scenario.analyze Scenario.withUnreadableDirectory) = Return analysis
    /\ map UnusedFile.path (AnalysisResult.unusedFiles analysis) = [ "a.js" ]
    /\ fst (Fs.readdir "/" "/p/secret" Scenario.withUnreadableDirectory)
       = Throw (Fs.EACCES "scandir" "/p/secret")
    /\ fst (cleanProject Demo.platform "/p" analysis Scenario.withUnreadableDirectory)
       = Throw (Fs.EACCES "scandir" "/p/secret")
    /\ fst (Fs.stat "/" "/p/a.js"
              (snd (cleanProject Demo.platform "/p" analysis
                      Scenario.withUnreadableDirectory)))
       = Throw (Fs.ENOENT "stat" "/p/a.js").
Proof. eexists. repeat split; vm_compute; reflexivity. Qed.

(** ** Computations that only look *)

Section Inert.
Context {S : Type}.

Lemma inert_ret {A} (a : A) : inert (@ret S A a).
Proof. intros s. split; [reflexivity | discriminate]. Qed.

Lemma inert_throw {A} (e : Error) : inert (@throw S A e).
Proof. intros s. split; [reflexivity | discriminate]. Qed.

Lemma inert_gets {A} (f : S -> A) : inert (gets f).
Proof. intros s. split; [reflexivity | discriminate]. Qed.

Lemma inert_liftResult {A} (r : Error + A) : inert (@liftResult S A r).
Proof. destruct r; [apply inert_throw | apply inert_ret]. Qed.

Lemma inert_bind {A B} (m : M S A) (k : A -> M S B) :
  inert m -> (forall a, inert (k a)) -> inert (bind m k).
Proof.
  intros Hm Hk s. unfold bind. destruct (Hm s) as [Hs Hf].
  destruct (m s) as [[a | e | ] s']; simpl in *; subst.
  - apply Hk.
  - split; [reflexivity | discriminate].
  - contradiction.
Qed.

Lemma inert_tryCatch {A} (m : M S A) (handler : Error -> M S A) :
  inert m -> (forall e, inert (handler e)) -> inert (tryCatch m handler).
Proof.
  intros Hm Hh s. unfold tryCatch. destruct (Hm s) as [Hs Hf].
  destruct (m s) as [[a | e | ] s']; simpl in *; subst.
  - split; [reflexivity | discriminate].
  - apply Hh.
  - contradiction.
Qed.

Lemma inert_forOf {A B} (l : list A) (body : A -> B -> M S B) (acc : B) :
  (forall x b, inert (body x b)) -> inert (forOf l body acc).
Proof.
  intros Hbody. revert acc.
  induction l as [| x l IH]; intros acc; simpl.
  - apply inert_ret.
  - apply inert_bind; [apply Hbody | intros b; apply IH].
Qed.

(** An inert computation run at [s] gives back [s]. *)
Lemma inert_run {A} (m : M S A) (s : S) :
  inert m -> m s = (fst (m s), s).
Proof.
  intros Hm. destruct (Hm s) as [Hs _].
  destruct (m s) as [o s']. simpl in *. subst. reflexivity.
Qed.

(** A handler that returns makes the whole [try] return. *)
Lemma inert_tryCatch_returns {A} (m : M S A) (a0 : A) (s : S) :
  inert m -> exists a, tryCatch m (fun _ => ret a0) s = (Return a, s).
Proof.
  intros Hm. unfold tryCatch. destruct (Hm s) as [Hs Hf].
  destruct (m s) as [[a | e | ] s']; simpl in *; subst.
  - exists a. reflexivity.
  - exists a0. reflexivity.
  - contradiction.
Qed.

End Inert.

Section InertOperations.
Variable P : Platform.

Lemma inert_readFile path : inert (Fs.readFile (cwd P) path).
Proof.
  apply inert_bind; [apply inert_gets |].
  intros [[content m | entries m] |]; try apply inert_throw.
  destruct (Fs.readable m); [apply inert_ret | apply inert_throw].
Qed.

Lemma inert_stat path : inert (Fs.stat (cwd P) path).
Proof.
  apply inert_bind; [apply inert_gets |].
  intros [[content m | entries m] |];
    first [apply inert_ret | apply inert_throw].
Qed.

Lemma inert_runGlob pattern options : inert (runGlob P pattern options).
Proof.
  apply inert_bind; [apply inert_gets |].
  intros tree. apply inert_liftResult.
Qed.

Lemma inert_getProp {S} object key : inert (@getProp S object key).
Proof. destruct object; first [apply inert_ret | apply inert_throw]. Qed.

Lemma inert_getFolderSize folderPath : inert (getFolderSize P folderPath).
Proof.
  apply inert_tryCatch; [| intros e; apply inert_ret].
  apply inert_bind; [apply inert_runGlob |].
  intros files. apply inert_bind; [| intros n; apply inert_ret].
  apply inert_forOf. intros file n.
  apply inert_bind; [apply inert_stat |].
  intros stats. apply inert_ret.
Qed.

(** Reading depends on the tree only. *)
Lemma readFile_tree path (w w' : Fs.World) :
  Fs.fs w = Fs.fs w' ->
  fst (Fs.readFile (cwd P) path w) = fst (Fs.readFile (cwd P) path w').
Proof.
  intros Hfs. unfold Fs.readFile, Fs.find, bind, gets. simpl. rewrite Hfs.
  destruct (Fs.lookup (Fs.segments (cwd P) path) (Fs.fs w'))
    as [[content m | entries m] |]; try reflexivity.
  destruct (Fs.readable m); reflexivity.
Qed.

Lemma stat_tree path (w w' : Fs.World) :
  Fs.fs w = Fs.fs w' ->
  fst (Fs.stat (cwd P) path w) = fst (Fs.stat (cwd P) path w').
Proof.
  intros Hfs. unfold Fs.stat, Fs.find, bind, gets. simpl. rewrite Hfs.
  destruct (Fs.lookup (Fs.segments (cwd P) path) (Fs.fs w'))
    as [[content m | entries m] |]; reflexivity.
Qed.

(** [analyzeFile] in closed form. *)
Lemma analyzeFile_fileStep projectPath file s :
  analyzeFile P projectPath file s = fileStep P projectPath file s.
Proof.
  destruct s as [w l]. unfold analyzeFile, fileStep. simpl fst. simpl snd.
  unfold bind at 1. unfold inWorld at 1. simpl fst. simpl snd.
  rewrite (inert_run (Fs.readFile (cwd P) file) w (inert_readFile file)).
  destruct (fst (Fs.readFile (cwd P) file w)) as [content | e | ]; try reflexivity.
  unfold bind at 1. unfold inWorld at 1. simpl fst. simpl snd.
  rewrite (inert_run (Fs.stat (cwd P) file) w (inert_stat file)).
  destruct (fst (Fs.stat (cwd P) file w)) as [fileStat | e | ]; try reflexivity.
  unfold bind at 1. unfold inLocals at 1, isUsed_assign, modify. simpl.
  unfold tryCatch, bind, liftResult.
  destruct (parse P content) as [e | ast]; simpl; [reflexivity |].
  unfold inLocals at 1. simpl.
  destruct (walk P file ast _) as [[[] | e | ] l1]; simpl; try reflexivity.
  unfold Spec.reportedPath.
  destruct (negb (isUsed l1) && negb (bool_decide (is_Some (fileImports l1 !! file))));
    reflexivity.
Qed.

End InertOperations.

(** ** The walker against the specifiers of a tree *)

Section NodeInduction.
Variable Q : Ast.Node -> Prop.
Hypothesis QImport : forall source, Q (Ast.ImportDeclaration source).
Hypothesis QCall : forall callee arguments,
    Q callee -> Forall Q arguments -> Q (Ast.CallExpression callee arguments).
Hypothesis QIdentifier : forall name, Q (Ast.Identifier name).
Hypothesis QLiteral : forall value, Q (Ast.Literal value).
Hypothesis QOther : forall type children,
    Forall Q children -> Q (Ast.Other type children).

Fixpoint Node_nested_ind (node : Ast.Node) : Q node :=
  match node with
  | Ast.ImportDeclaration source => QImport source
  | Ast.CallExpression callee arguments =>
      QCall callee arguments (Node_nested_ind callee)
        ((fix all (l : list Ast.Node) : Forall Q l :=
            match l with
            | [] => @List.Forall_nil _ Q
            | child :: l' => @List.Forall_cons _ Q child l' (Node_nested_ind child) (all l')
            end) arguments)
  | Ast.Identifier name => QIdentifier name
  | Ast.Literal value => QLiteral value
  | Ast.Other type children =>
      QOther type children
        ((fix all (l : list Ast.Node) : Forall Q l :=
            match l with
            | [] => @List.Forall_nil _ Q
            | child :: l' => @List.Forall_cons _ Q child l' (Node_nested_ind child) (all l')
            end) children)
  end.
End NodeInduction.

Section Walker.
Variable P : Platform.
Variable file : string.

Local Abbreviation register := (Spec.register (cwd P) file).
Local Abbreviation walked := (walked P file).

Lemma walked_ret : walked (ret tt) [] false.
Proof. intros l. left. split; reflexivity. Qed.

Lemma walked_bind m1 specs1 throws1 m2 specs2 throws2 :
  walked m1 specs1 throws1 -> walked m2 specs2 throws2 ->
  walked (m1 ;; m2) (specs1 ++ specs2) (throws1 || throws2).
Proof.
  intros H1 H2 l. unfold bind.
  destruct (H1 l) as [[-> E1] | [-> (e & pre & suf & -> & E1)]]; rewrite E1.
  - simpl.
    destruct (H2 (fold_left register specs1 l))
      as [[-> E2] | [-> (e & pre & suf & -> & E2)]]; rewrite E2.
    + left. split; [reflexivity |]. rewrite fold_left_app. reflexivity.
    + right. split; [reflexivity |].
      exists e, (specs1 ++ pre), suf. split.
      * rewrite app_assoc. reflexivity.
      * rewrite fold_left_app. reflexivity.
  - right. split; [reflexivity |].
    exists e, pre, (suf ++ specs2). split; [| reflexivity].
    rewrite app_assoc. reflexivity.
Qed.

Lemma walked_visitImportDeclaration source :
  walked (visitImportDeclaration P file source) [ source ] false.
Proof.
  intros l. left. split; [reflexivity |].
  unfold visitImportDeclaration, Spec.register, Spec.isInternal. simpl.
  destruct (JsString.startsWith source "."), (JsString.startsWith source "/");
    reflexivity.
Qed.

Lemma walked_visitCallExpression callee arguments :
  walked (visitCallExpression P file callee arguments)
         (Spec.requireSpecifier callee arguments)
         (Spec.requireOfNonString callee arguments).
Proof.
  intros l.
  unfold visitCallExpression, Spec.requireSpecifier, Spec.requireOfNonString.
  destruct (Ast.name callee) as [calleeName |];
    [| left; split; reflexivity].
  destruct arguments as [| [ | | | value | ] rest];
    try (destruct (String.eqb calleeName "require"); left; split; reflexivity).
  destruct (String.eqb calleeName "require").
  2: { destruct value; left; split; reflexivity. }
  destruct value as [s | | | | | ];
    try (right; split; [reflexivity |];
         eexists; exists [], []; split; reflexivity).
  left. split; [reflexivity |].
  unfold Spec.register, Spec.isInternal. simpl.
  destruct (JsString.startsWith s "."), (JsString.startsWith s "/");
    reflexivity.
Qed.

Lemma walked_walkAll children :
  Forall (fun node => walked (walk P file node) (Spec.specifiers node)
                             (Spec.hasRequireOfNonString node)) children ->
  walked (walkAll P file children) (flat_map Spec.specifiers children)
         (existsb Spec.hasRequireOfNonString children).
Proof.
  induction 1 as [| child rest Hchild _ IH]; simpl.
  - apply walked_ret.
  - apply walked_bind; assumption.
Qed.

Lemma walked_walk node :
  walked (walk P file node) (Spec.specifiers node) (Spec.hasRequireOfNonString node).
Proof.
  induction node as [source | callee arguments IHcallee IHarguments | name | value
                     | type children IHchildren] using Node_nested_ind.
  - apply walked_visitImportDeclaration.
  - change (walk P file (Ast.CallExpression callee arguments))
      with (walk P file callee ;; walkAll P file arguments ;;
            visitCallExpression P file callee arguments)%js.
    simpl Spec.specifiers. simpl Spec.hasRequireOfNonString.
    rewrite <- orb_assoc.
    apply walked_bind; [assumption |].
    apply walked_bind; [apply walked_walkAll; assumption |].
    apply walked_visitCallExpression.
  - apply walked_ret.
  - apply walked_ret.
  - change (walk P file (Ast.Other type children))
      with (walkAll P file children).
    apply walked_walkAll. assumption.
Qed.

(** The walker needs no fuel. *)
Lemma walk_no_fuel node l : fst (walk P file node l) <> OutOfFuel.
Proof.
  destruct (walked_walk node l) as [[_ E] | [_ (e & pre & suf & _ & E)]];
    rewrite E; discriminate.
Qed.

(** Whatever the outcome, the variables after the walk are those before it
    with some of the specifiers of the tree registered. *)
Lemma walk_registers node l :
  exists pre suf,
    Spec.specifiers node = pre ++ suf
    /\ snd (walk P file node l) = fold_left register pre l.
Proof.
  destruct (walked_walk node l) as [[_ E] | [_ (e & pre & suf & Hs & E)]];
    rewrite E.
  - exists (Spec.specifiers node), []. split; [| reflexivity].
    rewrite app_nil_r. reflexivity.
  - exists pre, suf. split; [assumption | reflexivity].
Qed.

End Walker.

(** ** What registering specifiers changes *)

Section Register.
Variable cwd : string.
Variable file : string.

Local Abbreviation register := (Spec.register cwd file).

Lemma register_unusedFiles specs l :
  unusedFiles (fold_left register specs l) = unusedFiles l.
Proof.
  revert l. induction specs as [| s specs IH]; intros l; simpl; [reflexivity |].
  rewrite IH. unfold Spec.register. destruct (Spec.isInternal s); reflexivity.
Qed.


Lemma register_isUsed specs l :
  isUsed (fold_left register specs l) = isUsed l || existsb Spec.isInternal specs.
Proof.
  revert l. induction specs as [| s specs IH]; intros l; simpl.
  - rewrite orb_false_r. reflexivity.
  - rewrite IH. unfold Spec.register.
    destruct (Spec.isInternal s); simpl; [| reflexivity].
    rewrite orb_true_r. reflexivity.
Qed.


End Register.

(** ** One iteration of the loop *)

Section FileStep.
Variable P : Platform.
Variable projectPath : string.

(** An iteration on a file that can be read returns; it leaves the tree
    alone, registers some of the specifiers of the file and pushes at most
    the entry of the file. *)
Lemma fileStep_readable file w l content fileStat :
  fst (Fs.readFile (cwd P) file w) = Return content ->
  fst (Fs.stat (cwd P) file w) = Return fileStat ->
  exists w' pre extra,
    let lw := fold_left (Spec.register (cwd P) file) pre (resetIsUsed l) in
    fileStep P projectPath file (w, l) = (Return tt, (w', pushed lw extra))
    /\ Fs.fs w' = Fs.fs w
    /\ (forall e, parse P content = inl e ->
          pre = [] /\ extra = []
          /\ w' = warned w ("Warning: Could not parse " +:+ file +:+ ": "
                            +:+ message e))
    /\ (forall ast, parse P content = inr ast ->
          exists suf,
            Spec.specifiers ast = pre ++ suf
            /\ (Spec.hasRequireOfNonString ast = false ->
                  suf = []
                  /\ extra = if negb (isUsed lw)
                                && negb (bool_decide (is_Some (fileImports lw !! file)))
                             then [ unusedEntry P projectPath file fileStat ]
                             else [])
            /\ (Spec.hasRequireOfNonString ast = true -> extra = [])).
Proof.
  intros Hread Hstat. unfold fileStep. simpl fst. simpl snd.
  rewrite Hread, Hstat.
  assert (Hpushed : forall l1 : AnalyzeLocals, l1 = pushed l1 []).
  { intros [u f i b]. unfold pushed. simpl. rewrite app_nil_r. reflexivity. }
  destruct (parse P content) as [e | ast] eqn:Hparse.
  - exists (warned w ("Warning: Could not parse " +:+ file +:+ ": " +:+ message e)),
           [], [].
    simpl. split; [apply (f_equal (fun x => (Return tt, (_, x)))), Hpushed |].
    split; [reflexivity |]. split.
    + intros e' He'. injection He' as <-. auto.
    + intros ast Hast. discriminate.
  - destruct (walked_walk P file ast (resetIsUsed l))
      as [[Hthrows E] | [Hthrows (e & pre & suf & Hspecs & E)]];
      fold (resetIsUsed l); rewrite E.
    + set (lw := fold_left (Spec.register (cwd P) file) (Spec.specifiers ast)
                           (resetIsUsed l)).
      exists w, (Spec.specifiers ast),
             (if negb (isUsed lw)
                 && negb (bool_decide (is_Some (fileImports lw !! file)))
              then [ unusedEntry P projectPath file fileStat ] else []).
      simpl. fold lw. split; [| split; [reflexivity | split]].
      * destruct (negb (isUsed lw)
                  && negb (bool_decide (is_Some (fileImports lw !! file))));
          [reflexivity |].
        apply (f_equal (fun x => (Return tt, (w, x)))), Hpushed.
      * intros e He. discriminate.
      * intros ast' Hast'. injection Hast' as <-. exists [].
        rewrite app_nil_r. split; [reflexivity |]. split; [auto |].
        intros Htrue. congruence.
    + exists (warned w ("Warning: Could not parse " +:+ file +:+ ": " +:+ message e)),
             pre, [].
      simpl. split; [apply (f_equal (fun x => (Return tt, (_, x)))), Hpushed |].
      split; [reflexivity |]. split.
      * intros e' He'. discriminate.
      * intros ast' Hast'. injection Hast' as <-. exists suf.
        split; [assumption |]. split; [intros Hfalse; congruence | reflexivity].
Qed.

(** An iteration on a file that cannot be read throws, and changes
    nothing. *)
Lemma fileStep_unreadable file w l :
  ~ readable P w file ->
  exists e, fileStep P projectPath file (w, l) = (Throw e, (w, l)).
Proof.
  intros Hno. unfold fileStep. simpl fst. simpl snd.
  destruct (fst (Fs.readFile (cwd P) file w)) as [content | e | ] eqn:Hread.
  - destruct (fst (Fs.stat (cwd P) file w)) as [fileStat | e | ] eqn:Hstat.
    + exfalso. apply Hno. exists content, fileStat. auto.
    + exists e. reflexivity.
    + exfalso. exact (proj2 (inert_stat P file w) Hstat).
  - exists e. reflexivity.
  - exfalso. exact (proj2 (inert_readFile P file w) Hread).
Qed.

(** Being readable depends on the tree only. *)
Lemma readable_tree file (w w' : Fs.World) :
  Fs.fs w = Fs.fs w' -> readable P w file -> readable P w' file.
Proof.
  intros Hfs (content & fileStat & Hread & Hstat).
  exists content, fileStat.
  rewrite <- (readFile_tree P file w w' Hfs), <- (stat_tree P file w w' Hfs).
  auto.
Qed.

End FileStep.

(** ** The loop over the candidate files *)

Section Loop.
Variable P : Platform.
Variable projectPath : string.

Lemma analyzeFiles_cons file files s :
  analyzeFiles P projectPath (file :: files) s
  = match fileStep P projectPath file s with
    | (Return _, s') => analyzeFiles P projectPath files s'
    | (Throw e, s') => (Throw e, s')
    | (OutOfFuel, s') => (OutOfFuel, s')
    end.
Proof.
  unfold analyzeFiles. simpl. unfold bind.
  rewrite analyzeFile_fileStep.
  destruct (fileStep P projectPath file s) as [[[] | e | ] s']; reflexivity.
Qed.

Lemma analyzeFiles_app files1 files2 s :
  analyzeFiles P projectPath (files1 ++ files2) s
  = match analyzeFiles P projectPath files1 s with
    | (Return _, s') => analyzeFiles P projectPath files2 s'
    | (Throw e, s') => (Throw e, s')
    | (OutOfFuel, s') => (OutOfFuel, s')
    end.
Proof.
  revert s. induction files1 as [| file files1 IH]; intros s.
  - reflexivity.
  - simpl app. rewrite !analyzeFiles_cons.
    destruct (fileStep P projectPath file s) as [[[] | e | ] s'];
      [apply IH | reflexivity | reflexivity].
Qed.

(** When every candidate can be read the loop returns, and a property of
    the state that every iteration keeps holds at the end. *)
Lemma analyzeFiles_invariant (Inv : Fs.World * AnalyzeLocals -> Prop) files w :
  (forall file, In file files -> readable P w file) ->
  (forall file s1 s2,
      In file files -> Fs.fs (fst s1) = Fs.fs w -> Inv s1 ->
      fileStep P projectPath file s1 = (Return tt, s2) -> Inv s2) ->
  forall s1,
    Fs.fs (fst s1) = Fs.fs w -> Inv s1 ->
    exists s2,
      analyzeFiles P projectPath files s1 = (Return tt, s2)
      /\ Fs.fs (fst s2) = Fs.fs w /\ Inv s2.
Proof.
  induction files as [| file files IH]; intros Hread Hstep [w1 l1] Hfs Hinv.
  - exists (w1, l1). auto.
  - rewrite analyzeFiles_cons. simpl in Hfs.
    destruct (readable_tree P file w w1 (eq_sym Hfs) (Hread file (or_introl eq_refl)))
      as (content & fileStat & Hc & Hs).
    destruct (fileStep_readable P projectPath file w1 l1 content fileStat Hc Hs)
      as (w' & pre & extra & E & Hfs' & _).
    simpl in E. rewrite E.
    apply IH.
    + intros g Hg. apply Hread. right. exact Hg.
    + intros g sa sb Hg. apply Hstep. right. exact Hg.
    + simpl. congruence.
    + apply (Hstep file (w1, l1) _ (or_introl eq_refl) Hfs Hinv E).
Qed.

(** An iteration pushes nothing but the entry of its file, and only when
    the file parses. *)
Lemma fileStep_pushes file w l content fileStat s2 :
  fst (Fs.readFile (cwd P) file w) = Return content ->
  fst (Fs.stat (cwd P) file w) = Return fileStat ->
  fileStep P projectPath file (w, l) = (Return tt, s2) ->
  exists extra,
    unusedFiles (snd s2) = unusedFiles l ++ extra
    /\ forall x, In x extra ->
         x = unusedEntry P projectPath file fileStat
         /\ exists ast, parse P content = inr ast.
Proof.
  intros Hc Hs E.
  destruct (fileStep_readable P projectPath file w l content fileStat Hc Hs)
    as (w' & pre & extra & E' & _ & Hfail & Hok).
  simpl in E'. rewrite E' in E. injection E as <-.
  exists extra. simpl. rewrite register_unusedFiles. split; [reflexivity |].
  intros x Hx.
  destruct (parse P content) as [e | ast] eqn:Hparse.
  - destruct (Hfail e eq_refl) as (_ & -> & _). destruct Hx.
  - destruct (Hok ast eq_refl) as (suf & _ & Hfalse & Htrue).
    split; [| exists ast; reflexivity].
    destruct (Spec.hasRequireOfNonString ast).
    + rewrite (Htrue eq_refl) in Hx. destruct Hx.
    + destruct (Hfalse eq_refl) as [_ Hextra]. rewrite Hextra in Hx.
      destruct (negb _ && negb _) in Hx; [| destruct Hx].
      destruct Hx as [<- | []]. reflexivity.
Qed.

(** An iteration only adds lines to the console. *)
Lemma fileStep_console file s line :
  In line (Fs.console (fst s)) ->
  In line (Fs.console (fst (snd (fileStep P projectPath file s)))).
Proof.
  destruct s as [w l]. intros Hin. unfold fileStep. simpl fst. simpl snd.
  destruct (fst (Fs.readFile (cwd P) file w)) as [content | e | ]; try exact Hin.
  destruct (fst (Fs.stat (cwd P) file w)) as [fileStat | e | ]; try exact Hin.
  destruct (parse P content) as [e | ast].
  - simpl. apply in_or_app. left. exact Hin.
  - destruct (walk P file ast _) as [[[] | e | ] l1]; simpl; try exact Hin.
    apply in_or_app. left. exact Hin.
Qed.

(** A candidate that cannot be read makes the loop throw. *)
Lemma analyzeFiles_aborts files w file :
  In file files -> ~ readable P w file ->
  forall w1 l1,
    Fs.fs w1 = Fs.fs w ->
    exists e s2, analyzeFiles P projectPath files (w1, l1) = (Throw e, s2).
Proof.
  induction files as [| g files IH]; intros Hin Hno w1 l1 Hfs; [destruct Hin |].
  rewrite analyzeFiles_cons.
  destruct (fileStep P projectPath g (w1, l1)) as [[[] | e | ] [w2 l2]] eqn:E.
  - destruct Hin as [-> | Hin].
    + exfalso.
      assert (Hno1 : ~ readable P w1 file).
      { intros H. apply Hno. exact (readable_tree P file w1 w Hfs H). }
      destruct (fileStep_unreadable P projectPath file w1 l1 Hno1) as (e & E').
      congruence.
    + apply IH; [assumption | assumption |].
      pose proof (preservesTree_analyzeFile P projectPath g (w1, l1)) as Htree.
      rewrite analyzeFile_fileStep, E in Htree. simpl in Htree. congruence.
  - exists e, (w2, l2). reflexivity.
  - exfalso. revert E. unfold fileStep. simpl fst. simpl snd.
    destruct (fst (Fs.readFile (cwd P) g w1)) as [content | e | ] eqn:Hread;
      [| discriminate | exfalso; exact (proj2 (inert_readFile P g w1) Hread)].
    destruct (fst (Fs.stat (cwd P) g w1)) as [fileStat | e | ] eqn:Hstat;
      [| discriminate | exfalso; exact (proj2 (inert_stat P g w1) Hstat)].
    destruct (parse P content) as [e | ast]; [discriminate |].
    pose proof (walk_no_fuel P g ast (resetIsUsed l1)) as Hfuel.
    fold (resetIsUsed l1).
    destruct (walk P g ast (resetIsUsed l1)) as [[[] | e | ] l']; try discriminate.
    exfalso. apply Hfuel. reflexivity.
Qed.

End Loop.

(** ** The loop over the declared dependencies, and the whole analysis *)

Section Analysis.
Variable P : Platform.
Variable projectPath : string.

Lemma checkDependency_run entry acc (s : Fs.World * AnalyzeLocals) :
  exists out,
    checkDependency P projectPath entry acc s = (Return out, s)
    /\ map UnusedDependency.name out
       = map UnusedDependency.name acc
         ++ (if bool_decide (fst entry ∈ usedDependencies (snd s)) then []
             else [ fst entry ]).
Proof.
  destruct entry as [name version], s as [w l].
  unfold checkDependency, bind, local, gets. simpl.
  destruct (bool_decide (name ∈ usedDependencies l)); simpl.
  - exists acc. rewrite app_nil_r. split; reflexivity.
  - set (depPath := Path.join [ projectPath; "node_modules"; name ]).
    assert (Hinert : inert (@inWorld AnalyzeLocals Z (getFolderSize P depPath))).
    { intros [w1 l1]. unfold inWorld. simpl.
      destruct (inert_getFolderSize P depPath w1) as [Hs Hf].
      destruct (getFolderSize P depPath w1) as [o w2]. simpl in *. subst.
      split; [reflexivity | assumption]. }
    destruct (inert_tryCatch_returns _ 0%Z (w, l) Hinert) as (size & E).
    rewrite E. eexists. split; [reflexivity |].
    rewrite map_app. reflexivity.
Qed.

Lemma checkDependencies_run entries acc (s : Fs.World * AnalyzeLocals) :
  exists out,
    forOf entries (checkDependency P projectPath) acc s = (Return out, s)
    /\ map UnusedDependency.name out
       = map UnusedDependency.name acc
         ++ List.filter (fun name => negb (bool_decide (name ∈ usedDependencies (snd s))))
                        (map fst entries).
Proof.
  revert acc. induction entries as [| entry entries IH]; intros acc; simpl.
  - exists acc. rewrite app_nil_r. split; reflexivity.
  - unfold bind.
    destruct (checkDependency_run entry acc s) as (out1 & E1 & Hnames1).
    rewrite E1.
    destruct (IH out1) as (out & E & Hnames). exists out. split; [exact E |].
    rewrite Hnames, Hnames1, <- app_assoc. f_equal.
    destruct (bool_decide (fst entry ∈ usedDependencies (snd s))); reflexivity.
Qed.

(** Past the manifest and [glob], [analyzeProject] is the two loops inside
    its [try]. *)
Lemma analyzeProject_candidates w packageJson files :
  manifestReads P projectPath w packageJson ->
  candidates P projectPath w files ->
  analyzeProject P projectPath w
  = tryCatch (analyzeCandidates P projectPath packageJson files)
             (fun error => throw (analysisFailed error)) w.
Proof.
  intros (text & Hread & Hparse & Hnull) Hfiles.
  unfold analyzeProject, tryCatch.
  unfold bind at 1.
  rewrite (inert_run _ w (inert_readFile P _)), Hread.
  unfold bind at 1. rewrite Hparse. simpl liftResult. unfold ret at 1.
  unfold candidates in Hfiles.
  destruct packageJson; try contradiction;
    simpl; unfold bind at 1; unfold runGlob, bind, gets; simpl;
    rewrite Hfiles; reflexivity.
Qed.

(** When the loop over the files returns, so does the analysis: with the
    unused files the loop collected, and with the declared names that are
    not among the used dependencies. *)
Lemma analyzeProject_returns w packageJson files w' l' :
  manifestReads P projectPath w packageJson ->
  candidates P projectPath w files ->
  analyzeFiles P projectPath files (w, initialLocals) = (Return tt, (w', l')) ->
  exists unusedDependencies,
    analyzeProject P projectPath w
    = (Return (AnalysisResult.mk unusedDependencies (unusedFiles l')), w')
    /\ map UnusedDependency.name unusedDependencies
       = List.filter (fun name => negb (bool_decide (name ∈ usedDependencies l')))
                     (declaredNames packageJson).
Proof.
  intros Hmanifest Hfiles Hloop.
  rewrite (analyzeProject_candidates w packageJson files Hmanifest Hfiles).
  unfold tryCatch, analyzeCandidates, withLocals. unfold bind at 1.
  fold initialLocals. rewrite Hloop.
  destruct (checkDependencies_run (allDependenciesOf packageJson) [] (w', l'))
    as (out & E & Hnames).
  unfold bind at 1. rewrite E. simpl.
  exists out. split; [reflexivity | exact Hnames].
Qed.

(** When the loop over the files throws, the analysis throws the wrapped
    error. *)
Lemma analyzeProject_throws w packageJson files e s' :
  manifestReads P projectPath w packageJson ->
  candidates P projectPath w files ->
  analyzeFiles P projectPath files (w, initialLocals) = (Throw e, s') ->
  analyzeProject P projectPath w = (Throw (analysisFailed e), fst s').
Proof.
  intros Hmanifest Hfiles Hloop.
  rewrite (analyzeProject_candidates w packageJson files Hmanifest Hfiles).
  unfold tryCatch, analyzeCandidates, withLocals. unfold bind at 1.
  fold initialLocals. rewrite Hloop. reflexivity.
Qed.

End Analysis.

(** ** Failures to read *)

Section ReadFailures.
Variable P : Platform.
Variable projectPath : string.


(** Either the manifest is read, or the analysis throws the wrapped error
    of reading it. *)
Lemma manifest_read_or_thrown w :
  (exists packageJson, manifestReads P projectPath w packageJson)
  \/ (exists e, analyzeProject P projectPath w = (Throw (analysisFailed e), w)).
Proof.
  unfold manifestReads, analyzeProject, tryCatch.
  unfold bind at 1.
  rewrite (inert_run _ w (inert_readFile P _)).
  destruct (fst (Fs.readFile (cwd P) (Path.join [ projectPath; "package.json" ]) w))
    as [text | e | ] eqn:Hread.
  - unfold bind at 1.
    destruct (JSON_parse P text) as [e | packageJson] eqn:Hparse.
    + right. exists e. reflexivity.
    + destruct packageJson;
        try (left; eexists; exists text; repeat split; [eassumption | discriminate]).
      right. eexists. reflexivity.
  - right. exists e. reflexivity.
  - exfalso. exact (proj2 (inert_readFile P _ w) Hread).
Qed.



End ReadFailures.




(** ** The analysis looks at the tree only *)

Section ObservesTree.
Variable P : Platform.

Lemma observesTree_ret {A} (a : A) : observesTree (ret a).
Proof. intros w w' _. reflexivity. Qed.

Lemma observesTree_bind {A B} (m : M Fs.World A) (k : A -> M Fs.World B) :
  inert m -> observesTree m -> (forall a, observesTree (k a)) ->
  observesTree (bind m k).
Proof.
  intros Hi Hm Hk w w' Hfs. unfold bind.
  rewrite (inert_run m w Hi), (inert_run m w' Hi), (Hm w w' Hfs).
  destruct (fst (m w')); [apply Hk; assumption | reflexivity | reflexivity].
Qed.

Lemma observesTree_tryCatch {A} (m : M Fs.World A) (handler : Error -> M Fs.World A) :
  inert m -> observesTree m -> (forall e, observesTree (handler e)) ->
  observesTree (tryCatch m handler).
Proof.
  intros Hi Hm Hh w w' Hfs. unfold tryCatch.
  rewrite (inert_run m w Hi), (inert_run m w' Hi), (Hm w w' Hfs).
  destruct (fst (m w')); [reflexivity | apply Hh; assumption | reflexivity].
Qed.

Lemma observesTree_forOf {A B} (l : list A) (body : A -> B -> M Fs.World B) acc :
  (forall x b, inert (body x b)) -> (forall x b, observesTree (body x b)) ->
  observesTree (forOf l body acc).
Proof.
  intros Hi Hbody. revert acc. induction l as [| x l IH]; intros acc; simpl.
  - apply observesTree_ret.
  - apply observesTree_bind; [apply Hi | apply Hbody | intros b; apply IH].
Qed.

Lemma observesTree_stat path : observesTree (Fs.stat (cwd P) path).
Proof. intros w w'. apply stat_tree. Qed.

Lemma observesTree_runGlob pattern options : observesTree (runGlob P pattern options).
Proof.
  intros w w' Hfs. unfold runGlob, bind, gets. simpl. rewrite Hfs.
  destruct (glob P pattern options (Fs.fs w')); reflexivity.
Qed.

Lemma observesTree_getFolderSize folderPath : observesTree (getFolderSize P folderPath).
Proof.
  apply observesTree_tryCatch; [| | intros e; apply observesTree_ret].
  - apply inert_bind; [apply inert_runGlob |].
    intros files. apply inert_bind; [| intros n; apply inert_ret].
    apply inert_forOf. intros file n.
    apply inert_bind; [apply inert_stat | intros stats; apply inert_ret].
  - apply observesTree_bind;
      [apply inert_runGlob | apply observesTree_runGlob |].
    intros files. apply observesTree_bind; [| | intros n; apply observesTree_ret].
    + apply inert_forOf. intros file n.
      apply inert_bind; [apply inert_stat | intros stats; apply inert_ret].
    + apply observesTree_forOf; intros file n.
      * apply inert_bind; [apply inert_stat | intros stats; apply inert_ret].
      * apply observesTree_bind;
          [apply inert_stat | apply observesTree_stat |].
        intros stats. apply observesTree_ret.
Qed.

Variable projectPath : string.

Lemma similar_refl s : similar s s.
Proof. repeat split. Qed.

(** One iteration on similar states: the same outcome, and states that are
    similar again. *)
Lemma fileStep_similar file s1 s2 :
  similar s1 s2 ->
  fst (fileStep P projectPath file s1) = fst (fileStep P projectPath file s2)
  /\ similar (snd (fileStep P projectPath file s1))
             (snd (fileStep P projectPath file s2)).
Proof.
  destruct s1 as [w1 l1], s2 as [w2 l2]. intros Hsim.
  pose proof Hsim as (Hfs & Hu & Hf & Hi). simpl in Hfs, Hu, Hf, Hi.
  unfold fileStep. simpl fst. simpl snd.
  rewrite (readFile_tree P file w1 w2 Hfs), (stat_tree P file w1 w2 Hfs).
  destruct (fst (Fs.readFile (cwd P) file w2)) as [content | e | ];
    [| split; [reflexivity | exact Hsim] ..].
  destruct (fst (Fs.stat (cwd P) file w2)) as [fileStat | e | ];
    [| split; [reflexivity | exact Hsim] ..].
  rewrite Hu, Hf, Hi.
  destruct (parse P content) as [e | ast].
  - split; [reflexivity |]. repeat split; simpl; assumption.
  - destruct (walk P file ast _) as [[[] | e | ] l'];
      (split; [reflexivity |]); repeat split; simpl; assumption.
Qed.

Lemma analyzeFiles_similar files s1 s2 :
  similar s1 s2 ->
  fst (analyzeFiles P projectPath files s1) = fst (analyzeFiles P projectPath files s2)
  /\ similar (snd (analyzeFiles P projectPath files s1))
             (snd (analyzeFiles P projectPath files s2)).
Proof.
  revert s1 s2. induction files as [| file files IH]; intros s1 s2 Hsim.
  - split; [reflexivity | exact Hsim].
  - rewrite !analyzeFiles_cons.
    destruct (fileStep_similar file s1 s2 Hsim) as [Ho Hs].
    destruct (fileStep P projectPath file s1) as [o1 s1'],
             (fileStep P projectPath file s2) as [o2 s2'].
    simpl in Ho, Hs. subst o2.
    destruct o1 as [[] | e | ];
      [apply IH; exact Hs | split; [reflexivity | exact Hs] ..].
Qed.

Lemma checkDependencies_similar entries acc s1 s2 :
  similar s1 s2 ->
  fst (forOf entries (checkDependency P projectPath) acc s1)
  = fst (forOf entries (checkDependency P projectPath) acc s2).
Proof.
  intros Hsim. revert acc.
  assert (Hstep : forall entry acc,
             checkDependency P projectPath entry acc s1
             = (fst (checkDependency P projectPath entry acc s2), s1)).
  { intros [name version] acc. destruct s1 as [w1 l1], s2 as [w2 l2].
    destruct Hsim as (Hfs & Hu & _). simpl in Hfs, Hu.
    unfold checkDependency, bind, local, gets. simpl. rewrite Hu.
    destruct (bool_decide (name ∈ usedDependencies l2)); simpl; [reflexivity |].
    set (depPath := Path.join [ projectPath; "node_modules"; name ]).
    unfold tryCatch, inWorld. simpl.
    rewrite (inert_run _ w1 (inert_getFolderSize P depPath)),
            (inert_run _ w2 (inert_getFolderSize P depPath)),
            (observesTree_getFolderSize depPath w1 w2 Hfs).
    destruct (fst (getFolderSize P depPath w2)); reflexivity. }
  induction entries as [| entry entries IH]; intros acc; simpl; [reflexivity |].
  unfold bind. rewrite Hstep.
  destruct (checkDependency_run P projectPath entry acc s2) as (out & E & _).
  rewrite E. simpl. apply IH.
Qed.

End ObservesTree.

(** ** A file that does not parse *)

Section ParseFailure.
Variable P : Platform.
Variable projectPath : string.

(** The iteration on such a file returns, prints the warning and leaves
    the three collections as they were. *)
Lemma fileStep_parse_error file w l content e :
  readable P w file ->
  fst (Fs.readFile (cwd P) file w) = Return content ->
  parse P content = inl e ->
  fileStep P projectPath file (w, l)
  = (Return tt, (warned w (parseWarning file e), resetIsUsed l)).
Proof.
  intros (content' & fileStat & Hc & Hs) Hread Hparse.
  unfold fileStep. simpl fst. simpl snd. rewrite Hread, Hs, Hparse. reflexivity.
Qed.

Lemma unparsable_file_loop before file after w content e :
  (forall g, In g (before ++ file :: after) -> readable P w g) ->
  fst (Fs.readFile (cwd P) file w) = Return content ->
  parse P content = inl e ->
  (forall g, In g (before ++ after) ->
             Spec.reportedPath projectPath g <> Spec.reportedPath projectPath file) ->
  exists s2 s2',
    analyzeFiles P projectPath (before ++ file :: after) (w, initialLocals)
    = (Return tt, s2)
    /\ analyzeFiles P projectPath (before ++ after) (w, initialLocals)
       = (Return tt, s2')
    /\ similar s2 s2'
    /\ Fs.fs (fst s2) = Fs.fs w
    /\ In (Fs.LWarn, parseWarning file e) (Fs.console (fst s2))
    /\ ~ In (Spec.reportedPath projectPath file)
            (map UnusedFile.path (unusedFiles (snd s2))).
Proof.
  intros Hread Hcontent Hparse Hdistinct.
  set (Inv := fun s : Fs.World * AnalyzeLocals =>
                ~ In (Spec.reportedPath projectPath file)
                     (map UnusedFile.path (unusedFiles (snd s)))).
  assert (Hkeep : forall g s1 s3,
             In g (before ++ after) -> Fs.fs (fst s1) = Fs.fs w -> Inv s1 ->
             fileStep P projectPath g s1 = (Return tt, s3) -> Inv s3).
  { intros g [w1 l1] s3 Hg Hfs Hinv E. simpl in Hfs.
    assert (Hg' : In g (before ++ file :: after)).
    { apply in_app_or in Hg. apply in_or_app. destruct Hg; [left | right; right]; auto. }
    destruct (readable_tree P g w w1 (eq_sym Hfs) (Hread g Hg'))
      as (c & st & Hc & Hs).
    destruct (fileStep_pushes P projectPath g w1 l1 c st s3 Hc Hs E)
      as (extra & Hextra & Honly).
    unfold Inv. rewrite Hextra, map_app. intros Hin.
    apply in_app_or in Hin. destruct Hin as [Hin | Hin]; [exact (Hinv Hin) |].
    apply in_map_iff in Hin. destruct Hin as (x & Hpath & Hx).
    destruct (Honly x Hx) as [-> _]. simpl in Hpath.
    exact (Hdistinct g Hg Hpath). }
  (* the files before *)
  destruct (analyzeFiles_invariant P projectPath Inv before w) with (s1 := (w, initialLocals))
    as ([w1 l1] & E1 & Hfs1 & Hinv1).
  { intros g Hg. apply Hread. apply in_or_app. left. exact Hg. }
  { intros g s1 s3 Hg. apply Hkeep. apply in_or_app. left. exact Hg. }
  { reflexivity. }
  { intros []. }
  simpl in Hfs1.
  (* the file itself *)
  assert (Hfile : readable P w1 file).
  { apply (readable_tree P file w w1 (eq_sym Hfs1)), Hread, in_or_app.
    right. left. reflexivity. }
  assert (Hcontent1 : fst (Fs.readFile (cwd P) file w1) = Return content).
  { rewrite (readFile_tree P file w1 w Hfs1). exact Hcontent. }
  pose proof (fileStep_parse_error file w1 l1 content e Hfile Hcontent1 Hparse) as Estep.
  (* the files after, with and without the iteration on the file *)
  destruct (analyzeFiles_invariant P projectPath
              (fun s => Inv s /\ In (Fs.LWarn, parseWarning file e) (Fs.console (fst s)))
              after w)
    with (s1 := (warned w1 (parseWarning file e), resetIsUsed l1))
    as (s2 & E2 & Hfs2 & Hinv2 & Hwarn2).
  { intros g Hg. apply Hread. apply in_or_app. right. right. exact Hg. }
  { intros g s1 s3 Hg Hfs [Hinv Hwarn] E. split.
    - apply (Hkeep g s1 s3); auto. apply in_or_app. right. exact Hg.
    - pose proof (fileStep_console P projectPath g s1 _ Hwarn) as H.
      rewrite E in H. exact H. }
  { exact Hfs1. }
  { split; [exact Hinv1 |]. simpl. apply in_or_app. right. left. reflexivity. }
  assert (Hsim : similar (warned w1 (parseWarning file e), resetIsUsed l1) (w1, l1)).
  { repeat split. }
  destruct (analyzeFiles_similar P projectPath after _ _ Hsim) as [Ho Hs].
  rewrite E2 in Ho, Hs. simpl in Ho, Hs.
  destruct (analyzeFiles P projectPath after (w1, l1)) as [o2' s2'] eqn:E2'.
  simpl in Ho, Hs. subst o2'.
  exists s2, s2'. split; [| split; [| split; [exact Hs | auto]]].
  - rewrite analyzeFiles_app, E1, analyzeFiles_cons, Estep. exact E2.
  - rewrite analyzeFiles_app, E1. exact E2'.
Qed.

End ParseFailure.

(** C4. A candidate file whose parse fails contributes no references, does
    not abort the analysis and is in neither list. With the manifest and
    every candidate readable: the iteration on the file returns, prints the
    warning and leaves the used dependencies, the referenced files and the
    unused files as they were; the analysis returns, and its result is the
    result for the candidate list without the file; the file is not among the
    unused files. *)
Theorem unparsable_file_is_skipped :
  forall (P : Platform) (projectPath : string) (w : Fs.World) (packageJson : Json)
         (before after : list string) (file content : string) (e : Error),
    manifestReads P projectPath w packageJson ->
    candidates P projectPath w (before ++ file :: after) ->
    (forall g, In g (before ++ file :: after) -> readable P w g) ->
    fst (Fs.readFile (cwd P) file w) = Return content ->
    parse P content = inl e ->
    (forall g, In g (before ++ after) ->
               Spec.reportedPath projectPath g <> Spec.reportedPath projectPath file) ->
    (forall l,
        analyzeFile P projectPath file (w, l)
        = (Return tt,
           (warned w (parseWarning file e),
            mkAnalyzeLocals (usedDependencies l) (unusedFiles l) (fileImports l) false)))
    /\ exists result,
         fst (analyzeProject P projectPath w) = Return result
         /\ fst (analyzeCandidates P projectPath packageJson (before ++ after) w)
            = Return result
         /\ ~ In (Spec.reportedPath projectPath file)
                 (map UnusedFile.path (AnalysisResult.unusedFiles result))
         /\ In (Fs.LWarn, parseWarning file e)
               (Fs.console (snd (analyzeProject P projectPath w)))
         /\ Fs.fs (snd (analyzeProject P projectPath w)) = Fs.fs w.
Proof.
  intros P projectPath w packageJson before after file content e
         Hmanifest Hfiles Hread Hcontent Hparse Hdistinct.
  split.
  { intros l. rewrite analyzeFile_fileStep.
    apply (fileStep_parse_error P projectPath file w l content e);
      [| assumption | assumption].
    apply Hread, in_or_app. right. left. reflexivity. }
  destruct (unparsable_file_loop P projectPath before file after w content e
              Hread Hcontent Hparse Hdistinct)
    as ([w2 l2] & [w2' l2'] & E & E' & Hsim & Hfs & Hwarn & Hnot).
  destruct (analyzeProject_returns P projectPath w packageJson _ w2 l2
              Hmanifest Hfiles E) as (deps & Erun & Hnames).
  pose proof (checkDependencies_similar P projectPath (allDependenciesOf packageJson)
                [] _ _ Hsim) as Hdeps.
  destruct (checkDependencies_run P projectPath (allDependenciesOf packageJson) []
              (w2', l2')) as (out' & Eout' & _).
  destruct (checkDependencies_run P projectPath (allDependenciesOf packageJson) []
              (w2, l2)) as (out & Eout & _).
  rewrite Eout, Eout' in Hdeps. simpl in Hdeps. injection Hdeps as <-.
  assert (Hout : deps = out).
  { pose proof Erun as Erun2.
    rewrite (analyzeProject_candidates P projectPath w packageJson _ Hmanifest Hfiles)
      in Erun2.
    unfold tryCatch, analyzeCandidates, withLocals in Erun2.
    unfold bind at 1 in Erun2. fold initialLocals in Erun2. rewrite E in Erun2.
    unfold bind at 1 in Erun2. rewrite Eout in Erun2. simpl in Erun2.
    injection Erun2 as ->. reflexivity. }
  subst deps.
  exists (AnalysisResult.mk out (unusedFiles l2)).
  rewrite Erun. simpl. repeat split; try assumption.
  unfold analyzeCandidates, withLocals. unfold bind at 1.
  fold initialLocals. rewrite E'.
  unfold bind at 1. rewrite Eout'. simpl.
  destruct Hsim as (_ & _ & Hunused & _). simpl in Hunused. rewrite Hunused.
  reflexivity.
Qed.

(** ** Strings and paths *)

Section StringFacts.

Lemma append_nil (b : string) : "" +:+ b = b.
Proof. reflexivity. Qed.

Lemma append_cons (x : ascii) (a b : string) :
  String x a +:+ b = String x (a +:+ b).
Proof. reflexivity. Qed.

Lemma append_assoc (a b c : string) : (a +:+ b) +:+ c = a +:+ (b +:+ c).
Proof.
  induction a as [| x a IH]; [reflexivity |].
  rewrite !append_cons, IH. reflexivity.
Qed.





Lemma split_nonempty sep s : JsString.split sep s <> [].
Proof.
  destruct s as [| c s]; simpl; [discriminate |].
  destruct (Ascii.eqb c sep); [discriminate |].
  destruct (JsString.split sep s); discriminate.
Qed.

(** Splitting at a separator splits the list of segments. *)
Lemma split_append sep (x y : string) :
  JsString.split sep (x +:+ String sep y)
  = JsString.split sep x ++ JsString.split sep y.
Proof.
  induction x as [| c x IH]; rewrite ?append_nil, ?append_cons; simpl.
  - rewrite Ascii.eqb_refl. reflexivity.
  - destruct (Ascii.eqb c sep); rewrite IH; [reflexivity |].
    pose proof (split_nonempty sep x) as Hne.
    destruct (JsString.split sep x); [contradiction | reflexivity].
Qed.

(** A string that is its own only segment holds no separator. *)
Lemma split_single_no_separator sep s :
  JsString.split sep s = [ s ] ->
  Forall (fun c => Ascii.eqb c sep = false) (list_ascii_of_string s).
Proof.
  induction s as [| c s IH]; simpl; intros H; [constructor |].
  destruct (Ascii.eqb c sep) eqn:Hc.
  - exfalso. pose proof (split_nonempty sep s) as Hne.
    destruct (JsString.split sep s); [contradiction | discriminate].
  - constructor; [exact Hc |]. apply IH.
    pose proof (split_nonempty sep s) as Hne.
    destruct (JsString.split sep s) as [| seg rest]; [contradiction |].
    injection H as -> ->. reflexivity.
Qed.

Lemma replace_prefix (pat rest : string) :
  JsString.replace pat "" (pat +:+ rest) = rest.
Proof.
  assert (Hprefix : forall p r, String.prefix p (p +:+ r) = true).
  { induction p as [| c p IH]; intros r; rewrite ?append_nil, ?append_cons; simpl.
    - destruct r; reflexivity.
    - destruct (ascii_dec c c); [apply IH | contradiction]. }
  assert (Hdrop : forall p r, JsString.drop (String.length p) (p +:+ r) = r).
  { induction p as [| c p IH]; intros r; rewrite ?append_nil, ?append_cons; simpl;
      [reflexivity | apply IH]. }
  assert (Hunfold : forall s,
             JsString.replace pat "" s
             = if String.prefix pat s
               then "" +:+ JsString.drop (String.length pat) s
               else match s with
                    | EmptyString => EmptyString
                    | String c s' => String c (JsString.replace pat "" s')
                    end).
  { intros s. destruct s; reflexivity. }
  rewrite Hunfold, Hprefix, Hdrop. reflexivity.
Qed.

End StringFacts.

Section PathFacts.
Import Spec.

Lemma plainSegment_split seg :
  plainSegment seg -> JsString.split JsString.slash seg = [ seg ].
Proof. intros [H _]. exact H. Qed.

Lemma plainSegment_eqb seg :
  plainSegment seg ->
  String.eqb seg "" = false /\ String.eqb seg "." = false
  /\ String.eqb seg ".." = false.
Proof.
  intros (_ & H1 & H2 & H3). repeat split; apply String.eqb_neq; assumption.
Qed.

Lemma split_join segs :
  Forall plainSegment segs -> segs <> [] ->
  JsString.split JsString.slash (JsString.join "/" segs) = segs.
Proof.
  induction 1 as [| seg rest Hseg Hrest IH]; intros Hne; [contradiction |].
  destruct rest as [| seg' rest'].
  - simpl. apply plainSegment_split. exact Hseg.
  - change (JsString.join "/" (seg :: seg' :: rest'))
      with (seg +:+ String JsString.slash (JsString.join "/" (seg' :: rest'))).
    rewrite split_append, (plainSegment_split seg Hseg), IH; [reflexivity |].
    discriminate.
Qed.

Lemma join_snoc segs seg :
  JsString.join "/" (segs ++ [ seg ])
  = match segs with
    | [] => seg
    | _ :: _ => JsString.join "/" segs +:+ "/" +:+ seg
    end.
Proof.
  induction segs as [| x rest IH]; [reflexivity |].
  destruct rest as [| y rest'].
  - reflexivity.
  - change (JsString.join "/" ((x :: y :: rest') ++ [ seg ]))
      with (x +:+ "/" +:+ JsString.join "/" ((y :: rest') ++ [ seg ])).
    rewrite IH.
    change (JsString.join "/" (x :: y :: rest'))
      with (x +:+ "/" +:+ JsString.join "/" (y :: rest')).
    rewrite !append_assoc. reflexivity.
Qed.

Lemma normalizeSegments_plain allowAboveRoot segs rest res :
  Forall plainSegment segs ->
  Path.normalizeSegments allowAboveRoot (segs ++ rest) res
  = Path.normalizeSegments allowAboveRoot rest (rev segs ++ res).
Proof.
  intros Hsegs. revert res.
  induction Hsegs as [| seg segs Hseg _ IH]; intros res; [reflexivity |].
  destruct (plainSegment_eqb seg Hseg) as (E1 & E2 & E3).
  simpl. rewrite E1, E2, E3. simpl. rewrite IH, <- app_assoc. reflexivity.
Qed.




(** Two files of a directory with different names are different paths. *)
Lemma absolute_snoc_inj segs name name' :
  absolute (segs ++ [ name ]) = absolute (segs ++ [ name' ]) -> name = name'.
Proof.
  unfold absolute. rewrite !join_snoc. intros H.
  destruct segs; repeat (apply (inj (String.append _)) in H); exact H.
Qed.

(** A candidate below the project directory is reported under its path
    relative to that directory, so distinct candidates are reported under
    distinct paths. *)
Lemma reportedPath_under_project projectPath rest :
  reportedPath projectPath (projectPath +:+ "/" +:+ rest) = rest.
Proof.
  unfold reportedPath. rewrite <- append_assoc. apply replace_prefix.
Qed.


End PathFacts.

(** ** A file that nothing resolves to *)

Section Untargeted.
Variable P : Platform.
Variable projectPath : string.


End Untargeted.

(** ** The last segment of a resolved specifier *)

Section LastSegment.
Import Spec.





End LastSegment.



(** Scenario A with a file that does not parse: [broken.js] is skipped. *)
Lemma unparsable_file_is_skipped_witness :
  manifestReads Demo.platform "/p" Scenario.withSyntaxError
    (Demo.manifest [ ("lodash", "^4.17.21"); ("chalk", "^5.3.0") ])
  /\ candidates Demo.platform "/p" Scenario.withSyntaxError
       ([ "/p/a.js" ] ++ "/p/broken.js" :: [ "/p/b.js" ])
  /\ (forall g, In g ([ "/p/a.js" ] ++ "/p/broken.js" :: [ "/p/b.js" ]) ->
                readable Demo.platform Scenario.withSyntaxError g)
  /\ fst (Fs.readFile (cwd Demo.platform) "/p/broken.js" Scenario.withSyntaxError)
     = Return "const x = ("
  /\ parse Demo.platform "const x = ("
     = inl (mkError "SyntaxError" "Unexpected token (1:11)")
  /\ (forall g, In g ([ "/p/a.js" ] ++ [ "/p/b.js" ]) ->
                Spec.reportedPath "/p" g <> Spec.reportedPath "/p" "/p/broken.js")
  /\ exists result,
       fst (analyzeProject Demo.platform "/p" Scenario.withSyntaxError) = Return result
       /\ fst (analyzeCandidates Demo.platform "/p"
                 (Demo.manifest [ ("lodash", "^4.17.21"); ("chalk", "^5.3.0") ])
                 ([ "/p/a.js" ] ++ [ "/p/b.js" ]) Scenario.withSyntaxError)
          = Return result
       /\ ~ In "broken.js" (map UnusedFile.path (AnalysisResult.unusedFiles result))
       /\ In (Fs.LWarn, "Warning: Could not parse /p/broken.js: Unexpected token (1:11)")
             (Fs.console (snd (analyzeProject Demo.platform "/p" Scenario.withSyntaxError))).
Proof.
  assert (Hmanifest : manifestReads Demo.platform "/p" Scenario.withSyntaxError
                        (Demo.manifest [ ("lodash", "^4.17.21"); ("chalk", "^5.3.0") ])).
  { eexists. split; [vm_compute; reflexivity |]. split; [reflexivity | discriminate]. }
  assert (Hfiles : candidates Demo.platform "/p" Scenario.withSyntaxError
                     ([ "/p/a.js" ] ++ "/p/broken.js" :: [ "/p/b.js" ])).
  { reflexivity. }
  assert (Hread : forall g, In g ([ "/p/a.js" ] ++ "/p/broken.js" :: [ "/p/b.js" ]) ->
                            readable Demo.platform Scenario.withSyntaxError g).
  { intros g [<- | [<- | [<- | []]]]; do 2 eexists; split; vm_compute; reflexivity. }
  assert (Hcontent : fst (Fs.readFile (cwd Demo.platform) "/p/broken.js"
                            Scenario.withSyntaxError) = Return "const x = (").
  { vm_compute. reflexivity. }
  assert (Hparse : parse Demo.platform "const x = ("
                   = inl (mkError "SyntaxError" "Unexpected token (1:11)")).
  { reflexivity. }
  assert (Hdistinct : forall g, In g ([ "/p/a.js" ] ++ [ "/p/b.js" ]) ->
                        Spec.reportedPath "/p" g <> Spec.reportedPath "/p" "/p/broken.js").
  { intros g [<- | [<- | []]]; vm_compute; discriminate. }
  destruct (unparsable_file_is_skipped
              Demo.platform "/p" Scenario.withSyntaxError
              (Demo.manifest [ ("lodash", "^4.17.21"); ("chalk", "^5.3.0") ])
              [ "/p/a.js" ] [ "/p/b.js" ] "/p/broken.js" "const x = ("
              (mkError "SyntaxError" "Unexpected token (1:11)")
              Hmanifest Hfiles Hread Hcontent Hparse Hdistinct)
    as [_ (result & Hrun & Hsame & Hnot & Hwarn & _)].
  split; [exact Hmanifest |]. split; [exact Hfiles |]. split; [exact Hread |].
  split; [exact Hcontent |]. split; [exact Hparse |]. split; [exact Hdistinct |].
  exists result. split; [exact Hrun |]. split; [exact Hsame |].
  split; [exact Hnot | exact Hwarn].
Defined.

(** ** Where the classification is as the specification has it *)

Section Sound.
Variable P : Platform.
Variable projectPath : string.

(** A [require] with no argument, or with a first argument that is not a
    literal, is skipped: nothing is registered and nothing is thrown. *)
Lemma require_without_literal_is_skipped file callee arguments l :
  match arguments with
  | Ast.Literal _ :: _ => False
  | _ => True
  end ->
  visitCallExpression P file callee arguments l = (Return tt, l).
Proof.
  intros Hargs. unfold visitCallExpression.
  destruct (Ast.name callee) as [calleeName |]; [| reflexivity].
  destruct (String.eqb calleeName "require"); [| reflexivity].
  destruct arguments as [| [ | | | value | ] rest]; try reflexivity.
  destruct Hargs.
Qed.



(** Every entry of the unused files is the entry of a candidate that parses
    and holds no Internal specifier. *)
Lemma unused_file_has_no_internal_reference w packageJson files result :
  manifestReads P projectPath w packageJson ->
  candidates P projectPath w files ->
  fst (analyzeProject P projectPath w) = Return result ->
  forall x,
    In x (AnalysisResult.unusedFiles result) ->
    exists g c fileStat tree,
      In g files
      /\ x = unusedEntry P projectPath g fileStat
      /\ fst (Fs.readFile (cwd P) g w) = Return c
      /\ parse P c = inr tree
      /\ existsb Spec.isInternal (Spec.specifiers tree) = false.
Proof.
  intros Hmanifest Hfiles Hrun.
  assert (Hall : forall g, In g files -> readable P w g).
  { intros g Hg.
    assert (Hdec : readable P w g \/ ~ readable P w g).
    { unfold readable.
      destruct (fst (Fs.readFile (cwd P) g w)) as [c | e | ];
        [| right; intros (c & st & H & _); discriminate ..].
      destruct (fst (Fs.stat (cwd P) g w)) as [st | e | ];
        [left; eauto | right; intros (c' & st & _ & H); discriminate ..]. }
    destruct Hdec as [H | H]; [exact H |]. exfalso.
    destruct (analyzeFiles_aborts P projectPath files w g Hg H w initialLocals eq_refl)
      as (e & s2 & Hloop).
    rewrite (analyzeProject_throws P projectPath w packageJson files e s2
               Hmanifest Hfiles Hloop) in Hrun.
    discriminate. }
  set (Inv := fun s : Fs.World * AnalyzeLocals =>
                forall x, In x (unusedFiles (snd s)) ->
                  exists g c fileStat tree,
                    In g files
                    /\ x = unusedEntry P projectPath g fileStat
                    /\ fst (Fs.readFile (cwd P) g w) = Return c
                    /\ parse P c = inr tree
                    /\ existsb Spec.isInternal (Spec.specifiers tree) = false).
  destruct (analyzeFiles_invariant P projectPath Inv files w Hall)
    with (s1 := (w, initialLocals)) as ([w2 l2] & E & _ & Hinv).
  { intros g [w1 l1] s3 Hg Hfs Hi Estep. simpl in Hfs.
    destruct (readable_tree P g w w1 (eq_sym Hfs) (Hall g Hg)) as (c & st & Hc & Hs).
    destruct (fileStep_readable P projectPath g w1 l1 c st Hc Hs)
      as (w' & pre & extra & E' & _ & Hfail & Hok).
    simpl in E'. rewrite E' in Estep. injection Estep as <-.
    intros x Hx. simpl in Hx. rewrite register_unusedFiles in Hx. simpl in Hx.
    apply in_app_or in Hx. destruct Hx as [Hx | Hx]; [exact (Hi x Hx) |].
    destruct (parse P c) as [e | tree] eqn:Hp.
    - destruct (Hfail e eq_refl) as (_ & -> & _). destruct Hx.
    - destruct (Hok tree eq_refl) as (suf & Hspecs & Hfalse & Htrue).
      destruct (Spec.hasRequireOfNonString tree).
      + rewrite (Htrue eq_refl) in Hx. destruct Hx.
      + destruct (Hfalse eq_refl) as [-> Hextra].
        rewrite app_nil_r in Hspecs. subst pre.
        rewrite register_isUsed in Hextra. simpl isUsed in Hextra.
        destruct (existsb Spec.isInternal (Spec.specifiers tree)) eqn:Hint.
        * simpl in Hextra. subst extra. destruct Hx.
        * simpl in Hextra.
          destruct (negb _) in Hextra; subst extra; [| destruct Hx].
          destruct Hx as [<- | []].
          exists g, c, st, tree. repeat split; auto.
          rewrite <- (readFile_tree P g w1 w Hfs). exact Hc. }
  { reflexivity. }
  { intros x []. }
  destruct (analyzeProject_returns P projectPath w packageJson files w2 l2
              Hmanifest Hfiles E) as (deps & Erun & _).
  rewrite Erun in Hrun. injection Hrun as <-. exact Hinv.
Qed.

End Sound.

(** ** Where cleanup is best-effort *)

Section BestEffort.
Variable P : Platform.
Variable projectPath : string.

Lemma fuelFree_ret {S A} (a : A) : fuelFree (@ret S A a).
Proof. intros s. discriminate. Qed.

Lemma fuelFree_bind {S A B} (m : M S A) (k : A -> M S B) :
  fuelFree m -> (forall a, fuelFree (k a)) -> fuelFree (bind m k).
Proof.
  intros Hm Hk s. unfold bind. specialize (Hm s).
  destruct (m s) as [[a | e | ] s']; simpl in *;
    [apply Hk | discriminate | contradiction].
Qed.

Lemma fuelFree_inert {S A} (m : M S A) : inert m -> fuelFree m.
Proof. intros Hm s. exact (proj2 (Hm s)). Qed.

Lemma fuelFree_inWorld {L A} (m : M Fs.World A) :
  fuelFree m -> fuelFree (@inWorld L A m).
Proof.
  intros Hm s. unfold inWorld. specialize (Hm (fst s)).
  destruct (m (fst s)) as [o w]. exact Hm.
Qed.

Lemma fuelFree_mutate syscall path f : fuelFree (Fs.mutate (cwd P) syscall path f).
Proof.
  intros w. unfold Fs.mutate.
  destruct (Fs.modifyParent _ _ _); discriminate.
Qed.

Lemma fuelFree_assign {L} (f : L -> L) : fuelFree (assign f).
Proof. intros s. discriminate. Qed.

Lemma alwaysReturns_ret {S A} (a : A) : alwaysReturns (@ret S A a).
Proof. intros s. exists a. reflexivity. Qed.

Lemma alwaysReturns_bind {S A B} (m : M S A) (k : A -> M S B) :
  alwaysReturns m -> (forall a, alwaysReturns (k a)) -> alwaysReturns (bind m k).
Proof.
  intros Hm Hk s. unfold bind. destruct (Hm s) as (a & Ha).
  destruct (m s) as [o s']. simpl in Ha. subst o. apply Hk.
Qed.

Lemma alwaysReturns_tryCatch {S A} (m : M S A) (handler : Error -> M S A) :
  fuelFree m -> (forall e, alwaysReturns (handler e)) ->
  alwaysReturns (tryCatch m handler).
Proof.
  intros Hm Hh s. unfold tryCatch. specialize (Hm s).
  destruct (m s) as [[a | e | ] s']; simpl in *;
    [exists a; reflexivity | apply Hh | contradiction].
Qed.

Lemma alwaysReturns_forOf {S A} (l : list A) (body : A -> unit -> M S unit) :
  (forall x, alwaysReturns (body x tt)) -> alwaysReturns (forOf l body tt).
Proof.
  intros Hbody. induction l as [| x l IH]; simpl.
  - apply alwaysReturns_ret.
  - apply alwaysReturns_bind; [apply Hbody | intros []; exact IH].
Qed.

Lemma alwaysReturns_consoleWrite {L} level line :
  alwaysReturns (@inWorld L unit (Fs.consoleWrite level line)).
Proof. intros s. exists tt. reflexivity. Qed.

Lemma alwaysReturns_run {S A} (m : M S A) (s : S) :
  alwaysReturns m -> exists a s', m s = (Return a, s').
Proof.
  intros Hm. destruct (Hm s) as (a & Ha).
  destruct (m s) as [o s']. simpl in Ha. subst o. eauto.
Qed.

Lemma fuelFree_statOrFalse {L} path :
  fuelFree (@inWorld L bool (statOrFalse P path)).
Proof.
  apply fuelFree_inWorld. intros w. unfold statOrFalse, tryCatch, bind.
  pose proof (proj2 (inert_stat P path w)) as Hfuel.
  destruct (Fs.stat (cwd P) path w) as [[st | e | ] w']; simpl in *;
    [discriminate | discriminate | contradiction].
Qed.

(** Removing one dependency from the manifest returns whatever fails inside
    it. *)
Lemma removeDependency_returns dep : alwaysReturns (removeDependency P projectPath dep).
Proof.
  apply alwaysReturns_tryCatch; [| intros e; apply alwaysReturns_consoleWrite].
  apply fuelFree_bind;
    [apply fuelFree_inWorld, fuelFree_inert, inert_readFile |].
  intros text. apply fuelFree_bind; [apply fuelFree_inert, inert_liftResult |].
  intros packageJson.
  apply fuelFree_bind; [apply fuelFree_inert, inert_getProp |].
  intros dependencies.
  apply fuelFree_bind; [apply fuelFree_inert, inert_getProp |].
  intros devDependencies.
  apply fuelFree_bind; [| intros _; apply fuelFree_assign].
  apply fuelFree_inWorld. unfold Fs.writeFile.
  apply fuelFree_bind; [apply fuelFree_inert, inert_gets |].
  intros now. apply fuelFree_mutate.
Qed.

(** Deleting one file returns whatever fails inside it. *)
Lemma removeFile_returns file : alwaysReturns (removeFile P projectPath file).
Proof.
  apply alwaysReturns_tryCatch; [| intros e; apply alwaysReturns_consoleWrite].
  apply fuelFree_bind; [apply fuelFree_statOrFalse |].
  intros [|]; [| apply fuelFree_ret].
  apply fuelFree_bind; [apply fuelFree_inWorld, fuelFree_inert, inert_stat |].
  intros fileStat. apply fuelFree_bind; [apply fuelFree_assign |].
  intros _. apply fuelFree_bind; [| intros _; apply fuelFree_assign].
  apply fuelFree_inWorld, fuelFree_mutate.
Qed.

(** [cleanProject] returns its result exactly if the pruning of empty
    directories returns; an error thrown there is the only one that leaves
    [cleanProject]. *)
Lemma cleanProject_fails_only_in_pruning analysis w :
  exists fuel w1,
    match fst (removeEmptyDirectories P fuel projectPath w1) with
    | Return _ => exists result,
        fst (cleanProject P projectPath analysis w) = Return result
    | Throw e => fst (cleanProject P projectPath analysis w) = Throw e
    | OutOfFuel => fst (cleanProject P projectPath analysis w) = OutOfFuel
    end.
Proof.
  unfold cleanProject, withLocals.
  remember (removeEmptyDirectories P) as prune eqn:Hprune.
  set (s0 := (w, mkCleanLocals [] [] [] 0%Z)).
  destruct (alwaysReturns_run
              (forOf (AnalysisResult.unusedDependencies analysis)
                     (fun dep _ => removeDependency P projectPath dep) tt) s0)
    as ([] & s1 & E1).
  { apply alwaysReturns_forOf. intros dep. apply removeDependency_returns. }
  destruct (alwaysReturns_run
              (forOf (AnalysisResult.unusedFiles analysis)
                     (fun file _ => removeFile P projectPath file) tt) s1)
    as ([] & s2 & E2).
  { apply alwaysReturns_forOf. intros file. apply removeFile_returns. }
  destruct s2 as [w2 l2].
  exists (S (Fs.depth (Fs.fs w2))), w2.
  destruct (prune (S (Fs.depth (Fs.fs w2))) projectPath w2)
    as [[removed | e | ] w3] eqn:Eprune; cbn [fst];
    unfold bind at 1; rewrite E1; unfold bind at 1; rewrite E2;
    unfold bind at 1; unfold inWorld at 1, gets; cbn [fst snd];
    unfold bind at 1; unfold inWorld at 1; cbn [fst snd]; rewrite Eprune;
    [| reflexivity | reflexivity].
  set (s3 := (w3, l2)).
  match goal with
  | |- exists result, fst (let (o, s) := bind ?m1 ?k s3 in _) = _ =>
      destruct (alwaysReturns_run m1 s3) as ([] & s4 & E4)
  end.
  { apply alwaysReturns_tryCatch; [| intros e; apply alwaysReturns_consoleWrite].
    apply fuelFree_bind; [apply fuelFree_statOrFalse |].
    intros [|]; [| apply fuelFree_ret].
    apply fuelFree_bind; [apply fuelFree_inWorld, fuelFree_mutate |].
    intros _. apply fuelFree_bind; [apply fuelFree_assign |].
    intros _. apply fuelFree_inWorld. intros w'. discriminate. }
  unfold bind at 1. rewrite E4.
  match goal with
  | |- exists result, fst (let (o, s) := bind ?m1 ?k s4 in _) = _ =>
      destruct (alwaysReturns_run m1 s4) as ([] & s5 & E5)
  end.
  { apply alwaysReturns_tryCatch; [| intros e; apply alwaysReturns_consoleWrite].
    apply fuelFree_inWorld. intros w'. unfold runExecSync.
    destruct (execSync P "npm install" projectPath (Fs.fs w')) as [[e |] tree];
      discriminate. }
  unfold bind at 1. rewrite E5. eexists. reflexivity.
Qed.

End BestEffort.

(** ** Relating the state left to the state found *)

Section Stable.
Context {S : Type} (R : S -> S -> Prop).
Hypothesis R_refl : forall s, R s s.
Hypothesis R_trans : forall s1 s2 s3, R s1 s2 -> R s2 s3 -> R s1 s3.

Lemma stable_ret {A} (a : A) : stable R (ret a).
Proof. intros s. apply R_refl. Qed.

Lemma stable_throw {A} (e : Error) : stable R (@throw S A e).
Proof. intros s. apply R_refl. Qed.

Lemma stable_gets {A} (f : S -> A) : stable R (gets f).
Proof. intros s. apply R_refl. Qed.

Lemma stable_liftResult {A} (r : Error + A) : stable R (liftResult r).
Proof. destruct r; intros s; apply R_refl. Qed.

Lemma stable_bind {A B} (m : M S A) (k : A -> M S B) :
  stable R m -> (forall a, stable R (k a)) -> stable R (bind m k).
Proof.
  intros Hm Hk s. unfold bind. specialize (Hm s).
  destruct (m s) as [[a | e | ] s']; simpl in *; try assumption.
  exact (R_trans _ _ _ Hm (Hk a s')).
Qed.

Lemma stable_tryCatch {A} (m : M S A) (handler : Error -> M S A) :
  stable R m -> (forall e, stable R (handler e)) -> stable R (tryCatch m handler).
Proof.
  intros Hm Hh s. unfold tryCatch. specialize (Hm s).
  destruct (m s) as [[a | e | ] s']; simpl in *; try assumption.
  exact (R_trans _ _ _ Hm (Hh e s')).
Qed.

Lemma stable_forOf {A B} (l : list A) (body : A -> B -> M S B) (acc : B) :
  (forall x b, stable R (body x b)) -> stable R (forOf l body acc).
Proof.
  intros Hbody. revert acc.
  induction l as [| x l IH]; intros acc; simpl.
  - apply stable_ret.
  - apply stable_bind; [apply Hbody | intros b; apply IH].
Qed.

End Stable.

Lemma stable_weaken {S A} (R R' : S -> S -> Prop) (m : M S A) :
  (forall s s', R s s' -> R' s s') -> stable R m -> stable R' m.
Proof. intros Himpl Hm s. apply Himpl, Hm. Qed.

Section Keeps.
Context {S X : Type} (view : S -> X).

Lemma keeps_ret {A} (a : A) : keeps view (ret a).
Proof. apply stable_ret. reflexivity. Qed.

Lemma keeps_throw {A} (e : Error) : keeps view (@throw S A e).
Proof. apply stable_throw. reflexivity. Qed.

Lemma keeps_bind {A B} (m : M S A) (k : A -> M S B) :
  keeps view m -> (forall a, keeps view (k a)) -> keeps view (bind m k).
Proof. apply stable_bind. intros s1 s2 s3 H1 H2. congruence. Qed.

Lemma keeps_tryCatch {A} (m : M S A) (handler : Error -> M S A) :
  keeps view m -> (forall e, keeps view (handler e)) ->
  keeps view (tryCatch m handler).
Proof. apply stable_tryCatch. intros s1 s2 s3 H1 H2. congruence. Qed.

Lemma keeps_forOf {A B} (l : list A) (body : A -> B -> M S B) (acc : B) :
  (forall x b, keeps view (body x b)) -> keeps view (forOf l body acc).
Proof.
  apply stable_forOf; [reflexivity | intros s1 s2 s3 H1 H2; congruence].
Qed.

End Keeps.

(** What happens in the world alone leaves the variables of the function,
    and an assignment leaves the world. *)
Lemma keeps_inWorld {L A X Y} (viewW : Fs.World -> X) (viewL : L -> Y)
    (m : M Fs.World A) :
  keeps viewW m ->
  keeps (fun s : Fs.World * L => (viewW (fst s), viewL (snd s))) (inWorld m).
Proof.
  intros Hm s. unfold inWorld. specialize (Hm (fst s)).
  destruct (m (fst s)) as [o w]. simpl in *. rewrite Hm. reflexivity.
Qed.

Lemma keeps_assign {L X Y} (viewW : Fs.World -> X) (viewL : L -> Y) (f : L -> L) :
  (forall l, viewL (f l) = viewL l) ->
  keeps (fun s : Fs.World * L => (viewW (fst s), viewL (snd s))) (assign f).
Proof. intros Hf s. simpl. rewrite Hf. reflexivity. Qed.

Lemma alwaysReturns_assign {L} (f : L -> L) : alwaysReturns (assign f).
Proof. intros s. exists tt. reflexivity. Qed.

Lemma alwaysReturns_if {S A} (b : bool) (m1 m2 : M S A) :
  alwaysReturns m1 -> alwaysReturns m2 -> alwaysReturns (if b then m1 else m2).
Proof. destruct b; auto. Qed.

Lemma keeps_if {S A X} (view : S -> X) (b : bool) (m1 m2 : M S A) :
  keeps view m1 -> keeps view m2 -> keeps view (if b then m1 else m2).
Proof. destruct b; auto. Qed.

(** A step that returns whatever the state, followed by the rest. *)
Lemma bind_alwaysReturns {S B} (m : M S unit) (k : unit -> M S B) (s : S) :
  alwaysReturns m -> bind m k s = k tt (snd (m s)).
Proof.
  intros Hm. unfold bind. destruct (Hm s) as ([] & E).
  destruct (m s) as [o s']. simpl in *. subst o. reflexivity.
Qed.

(** ** The analysis needs no fuel *)

Section FuelOfAnalysis.
Variable P : Platform.


Lemma fuelFree_tryCatch {S A} (m : M S A) (handler : Error -> M S A) :
  fuelFree m -> (forall e, fuelFree (handler e)) -> fuelFree (tryCatch m handler).
Proof.
  intros Hm Hh s. unfold tryCatch. specialize (Hm s).
  destruct (m s) as [[a | e | ] s']; simpl in *;
    [discriminate | apply Hh | contradiction].
Qed.

Lemma fuelFree_forOf {S A B} (l : list A) (body : A -> B -> M S B) (acc : B) :
  (forall x b, fuelFree (body x b)) -> fuelFree (forOf l body acc).
Proof.
  intros Hbody. revert acc. induction l as [| x l IH]; intros acc; simpl.
  - apply fuelFree_ret.
  - apply fuelFree_bind; [apply Hbody | intros b; apply IH].
Qed.

Lemma fuelFree_inLocals {L A} (m : M L A) :
  fuelFree m -> fuelFree (@inLocals L A m).
Proof.
  intros Hm s. unfold inLocals. specialize (Hm (snd s)).
  destruct (m (snd s)) as [o l]. exact Hm.
Qed.


Lemma fuelFree_analyzeFile projectPath file :
  fuelFree (analyzeFile P projectPath file).
Proof.
  apply fuelFree_bind; [apply fuelFree_inWorld, fuelFree_inert, inert_readFile |].
  intros content.
  apply fuelFree_bind; [apply fuelFree_inWorld, fuelFree_inert, inert_stat |].
  intros fileStat.
  apply fuelFree_bind; [apply fuelFree_inLocals; intros l; discriminate |].
  intros _. apply fuelFree_tryCatch.
  - apply fuelFree_bind; [apply fuelFree_inert, inert_liftResult |].
    intros ast. apply fuelFree_bind.
    { apply fuelFree_inLocals. intros l. apply walk_no_fuel. }
    intros _. apply fuelFree_bind; [apply fuelFree_inert, inert_gets |].
    intros used. apply fuelFree_bind; [apply fuelFree_inert, inert_gets |].
    intros imports.
    destruct (negb used && negb (bool_decide (is_Some (imports !! file))));
      [apply fuelFree_inLocals; intros l; discriminate | apply fuelFree_ret].
  - intros e. apply fuelFree_inWorld. intros w. discriminate.
Qed.



End FuelOfAnalysis.

(** ** The two commands *)

Section Views.
Variable T : Terminal.
Context {X Y : Type} (viewW : Fs.World -> X) (viewL : CliLocals -> Y).
Hypothesis viewW_console :
  forall w level line,
    viewW (Fs.mkWorld (Fs.fs w) (Fs.console w ++ [ (level, line) ]) (Fs.clock w))
    = viewW w.
Hypothesis viewL_spinner :
  forall l event, viewL (mkCliLocals (spinner l ++ [ event ]) (questions l)) = viewL l.

Local Abbreviation view :=
  (fun s : Fs.World * CliLocals => (viewW (fst s), viewL (snd s))).

Lemma view_consoleWrite level line :
  keeps view (inWorld (Fs.consoleWrite level line)).
Proof. intros s. simpl. rewrite viewW_console. reflexivity. Qed.

Lemma view_console_log line : keeps view (console_log line).
Proof. apply view_consoleWrite. Qed.

Lemma view_spinner_push event : keeps view (spinner_push event).
Proof. intros s. simpl. rewrite viewL_spinner. reflexivity. Qed.

Lemma view_logEach {A} heading (items : list A) lines :
  (forall item, keeps view (lines item)) ->
  keeps view (logEach T heading items lines).
Proof.
  intros Hlines. unfold logEach. apply keeps_if; [| apply keeps_ret].
  apply keeps_bind; [apply view_console_log |].
  intros _. apply keeps_forOf. intros item _. apply Hlines.
Qed.

Lemma view_logRemoved heading items : keeps view (logRemoved T heading items).
Proof.
  unfold logRemoved. apply keeps_bind; [apply view_console_log |].
  intros _. apply keeps_if; [| apply view_console_log].
  apply keeps_forOf. intros item _. apply view_console_log.
Qed.

Lemma view_failWith text e : keeps view (failWith T text e).
Proof.
  unfold failWith. apply keeps_bind; [apply view_spinner_push |].
  intros _. apply keeps_bind; [apply view_consoleWrite |].
  intros _. apply keeps_ret.
Qed.

Variable P : Platform.
Hypothesis viewW_analysis : keeps viewW (analyzeProject P (cwd P)).

Lemma view_analysis : keeps view (inWorld (analyzeProject P (cwd P))).
Proof. exact (keeps_inWorld viewW viewL _ viewW_analysis). Qed.

Lemma view_command work failure :
  (forall analysis, keeps view (work analysis)) ->
  keeps view (command P T work failure).
Proof.
  intros Hwork. unfold command. apply keeps_bind; [apply view_spinner_push |].
  intros _. apply keeps_tryCatch; [| intros e; apply view_failWith].
  apply keeps_bind; [apply view_analysis | exact Hwork].
Qed.


Lemma view_listItems analysis : keeps view (listItems T analysis).
Proof.
  unfold listItems. apply keeps_bind; [apply view_console_log |].
  intros _. apply keeps_bind.
  { apply view_logEach. intros dep. apply view_console_log. }
  intros _. apply view_logEach. intros file. apply view_console_log.
Qed.

(** [clean] keeps what the end of it keeps. *)
Lemma view_removeUnused options answer analysis :
  keeps view (proceed P T options answer analysis) ->
  keeps view (removeUnused P T options answer analysis).
Proof.
  intros Hproceed.
  unfold removeUnused. apply keeps_bind; [apply view_spinner_push |].
  intros _. apply keeps_if.
  { apply keeps_bind; [apply view_console_log | intros _; apply keeps_ret]. }
  apply keeps_bind; [apply view_listItems | intros _; apply Hproceed].
Qed.

Lemma view_reportCleanup result : keeps view (reportCleanup T result).
Proof.
  unfold reportCleanup. apply keeps_bind; [apply view_spinner_push |].
  intros _. apply keeps_bind; [apply view_console_log |].
  intros _. apply keeps_bind; [apply view_logRemoved |].
  intros _. apply keeps_bind; [apply view_logRemoved |].
  intros _. apply keeps_bind; [apply view_logRemoved |].
  intros _. apply keeps_bind; [apply view_console_log |].
  intros _. apply keeps_bind; [apply view_console_log |].
  intros _. apply keeps_ret.
Qed.

(** With [--yes] no question is asked: the end of [clean] keeps what the
    cleanup keeps. *)
Lemma view_proceed_yes d answer analysis :
  keeps viewW (cleanProject P (cwd P) analysis) ->
  keeps view (proceed P T (mkOptions d true) answer analysis).
Proof.
  intros Hclean. unfold proceed. cbn [yes dryRun negb andb].
  apply keeps_bind; [apply keeps_ret |].
  intros confirm. apply keeps_if.
  { apply keeps_bind; [apply view_console_log | intros _; apply keeps_ret]. }
  apply keeps_if.
  { apply keeps_bind; [apply view_console_log | intros _; apply keeps_ret]. }
  apply keeps_bind; [apply view_spinner_push |].
  intros _. apply keeps_bind; [exact (keeps_inWorld viewW viewL _ Hclean) |].
  intros result. apply view_reportCleanup.
Qed.

End Views.

Section Yields.
Context {S : Type}.

Lemma yields_ret {A} (a : A) : yields a (@ret S A a).
Proof. intros s. reflexivity. Qed.

Lemma yields_bind {A B} (b : B) (m : M S A) (k : A -> M S B) :
  alwaysReturns m -> (forall a, yields b (k a)) -> yields b (bind m k).
Proof.
  intros Hm Hk s. unfold bind. destruct (Hm s) as (a & E).
  destruct (m s) as [o s']. simpl in E. subst o. apply Hk.
Qed.



Lemma bind_bind {A B C} (m : M S A) (k : A -> M S B) (h : B -> M S C) (s : S) :
  bind (bind m k) h s = bind m (fun a => bind (k a) h) s.
Proof. unfold bind. destruct (m s) as [[a | e | ] s']; reflexivity. Qed.

End Yields.

Section Logging.
Variable T : Terminal.

Lemma alwaysReturns_console_log line : alwaysReturns (console_log line).
Proof. apply alwaysReturns_consoleWrite. Qed.

Lemma alwaysReturns_spinner_push event : alwaysReturns (spinner_push event).
Proof. apply alwaysReturns_assign. Qed.

Lemma alwaysReturns_logEach {A} heading (items : list A) lines :
  (forall item, alwaysReturns (lines item)) ->
  alwaysReturns (logEach T heading items lines).
Proof.
  intros Hlines. unfold logEach. apply alwaysReturns_if; [| apply alwaysReturns_ret].
  apply alwaysReturns_bind; [apply alwaysReturns_console_log |].
  intros _. apply alwaysReturns_forOf. intros item. apply Hlines.
Qed.

Lemma alwaysReturns_logRemoved heading items :
  alwaysReturns (logRemoved T heading items).
Proof.
  unfold logRemoved. apply alwaysReturns_bind; [apply alwaysReturns_console_log |].
  intros _. apply alwaysReturns_if; [| apply alwaysReturns_console_log].
  apply alwaysReturns_forOf. intros item. apply alwaysReturns_console_log.
Qed.


Lemma yields_reportCleanup result : yields Finished (reportCleanup T result).
Proof.
  apply yields_bind; [apply alwaysReturns_spinner_push |].
  intros _. apply yields_bind; [apply alwaysReturns_console_log |].
  intros _. apply yields_bind; [apply alwaysReturns_logRemoved |].
  intros _. apply yields_bind; [apply alwaysReturns_logRemoved |].
  intros _. apply yields_bind; [apply alwaysReturns_logRemoved |].
  intros _. apply yields_bind; [apply alwaysReturns_console_log |].
  intros _. apply yields_bind; [apply alwaysReturns_console_log |].
  intros _. apply yields_ret.
Qed.

Lemma alwaysReturns_listItems analysis : alwaysReturns (listItems T analysis).
Proof.
  apply alwaysReturns_bind; [apply alwaysReturns_console_log |].
  intros _. apply alwaysReturns_bind.
  { apply alwaysReturns_logEach. intros dep. apply alwaysReturns_console_log. }
  intros _. apply alwaysReturns_logEach. intros file. apply alwaysReturns_console_log.
Qed.

End Logging.

Section Commands.
Variable P : Platform.
Variable T : Terminal.

(** The variables of a command once the spinner is started. *)
Local Abbreviation started l :=
  (mkCliLocals (spinner l ++ [ SpinnerStart "Analyzing project..." ]) (questions l)).

Lemma command_run work failure s :
  command P T work failure s
  = match analyzeProject P (cwd P) (fst s) with
    | (Return analysis, w1) =>
        tryCatch (work analysis) (failWith T failure) (w1, started (snd s))
    | (Throw e, w1) => failWith T failure e (w1, started (snd s))
    | (OutOfFuel, w1) => (OutOfFuel, (w1, started (snd s)))
    end.
Proof.
  unfold command, bind, tryCatch, inWorld, spinner_push, assign, modify. simpl.
  destruct (analyzeProject P (cwd P) (fst s)) as [[analysis | e | ] w1]; reflexivity.
Qed.

Lemma failWith_run failure e (s : Fs.World * CliLocals) :
  failWith T failure e s
  = (Return (Exited 1),
     (Fs.mkWorld (Fs.fs (fst s)) (Fs.console (fst s) ++ [ errorLine T e ])
                 (Fs.clock (fst s)),
      mkCliLocals (spinner (snd s) ++ [ SpinnerFail failure ]) (questions (snd s)))).
Proof. reflexivity. Qed.

(** Only the exact answers [y] and [Y] confirm. *)
Lemma confirms_iff answer : confirms answer = true <-> answer = "y" \/ answer = "Y".
Proof.
  unfold confirms. split.
  - destruct answer as [| c rest]; [discriminate |].
    destruct rest as [| c' rest].
    + destruct c as [[] [] [] [] [] [] [] []]; vm_compute; intros H;
        first [discriminate H | left; reflexivity | right; reflexivity].
    + simpl. destruct (Ascii.eqb (Cli.lowerAscii c) "y"); discriminate.
  - intros [-> | ->]; reflexivity.
Qed.

Lemma proceed_dry_run y answer analysis :
  keeps untouched (proceed P T (mkOptions true y) answer analysis).
Proof. intros s. destruct y; reflexivity. Qed.

Lemma proceed_declined options answer analysis :
  yes options = false -> confirms answer = false ->
  keeps (fun s : Fs.World * CliLocals => (Fs.fs (fst s), tt))
        (proceed P T options answer analysis).
Proof.
  destruct options as [d y]. simpl. intros -> Hanswer s.
  unfold proceed. simpl. rewrite Hanswer. destruct d; reflexivity.
Qed.

End Commands.

(** X1. [refiner clean --dry-run] changes nothing and asks nothing: whatever
    the project, the other flag and the state of the terminal, the directory
    tree after the command is the tree before it and no question has been
    put to the user. *)
Theorem clean_dry_run_changes_nothing :
  forall (P : Platform) (T : Terminal) (options : Options) (answer : string)
         (s : Fs.World * CliLocals),
    dryRun options = true ->
    Fs.fs (fst (snd (cleanAction P T options answer s))) = Fs.fs (fst s)
    /\ questions (snd (snd (cleanAction P T options answer s))) = questions (snd s).
Proof.
  intros P T [d y] answer s Hdry. simpl in Hdry. subst d.
  assert (H : keeps untouched (cleanAction P T (mkOptions true y) answer)).
  { apply (view_command T Fs.fs questions);
      [reflexivity | reflexivity | apply preservesTree_analyzeProject |].
    intros analysis.
    apply (view_removeUnused T Fs.fs questions); [reflexivity | reflexivity |].
    apply proceed_dry_run. }
  specialize (H s). unfold untouched in H. injection H as H1 H2.
  split; assumption.
Qed.

Lemma clean_dry_run_changes_nothing_witness :
  dryRun (mkOptions true false) = true
  /\ Fs.fs (fst (snd (Session.clean (mkOptions true false) "y" Scenario.extensionless)))
     = Fs.fs Scenario.extensionless
  /\ questions (snd (snd (Session.clean (mkOptions true false) "y"
                            Scenario.extensionless)))
     = [].
Proof.
  split; [reflexivity |].
  exact (clean_dry_run_changes_nothing Session.platform Session.terminal
           (mkOptions true false) "y" (Session.start Scenario.extensionless) eq_refl).
Defined.

(** X2. Without [--yes], any answer to the prompt other than exactly [y] or
    [Y] (so also [yes], or a [y] with a space) leaves the directory tree as it
    was. *)
Theorem clean_declined_changes_nothing :
  forall (P : Platform) (T : Terminal) (options : Options) (answer : string)
         (s : Fs.World * CliLocals),
    yes options = false -> answer <> "y" -> answer <> "Y" ->
    Fs.fs (fst (snd (cleanAction P T options answer s))) = Fs.fs (fst s).
Proof.
  intros P T options answer s Hyes Hy HY.
  assert (Hanswer : confirms answer = false).
  { destruct (confirms answer) eqn:E; [| reflexivity].
    apply confirms_iff in E. destruct E; contradiction. }
  assert (H : keeps (fun s : Fs.World * CliLocals => (Fs.fs (fst s), tt))
                    (cleanAction P T options answer)).
  { apply (view_command T Fs.fs (fun _ => tt));
      [reflexivity | reflexivity | apply preservesTree_analyzeProject |].
    intros analysis.
    apply (view_removeUnused T Fs.fs (fun _ => tt)); [reflexivity | reflexivity |].
    apply proceed_declined; assumption. }
  specialize (H s). simpl in H. injection H as H. exact H.
Qed.

Lemma clean_declined_changes_nothing_witness :
  yes (mkOptions false false) = false /\ "yes" <> "y" /\ "yes" <> "Y"
  /\ Fs.fs (fst (snd (Session.clean (mkOptions false false) "yes"
                        Scenario.extensionless)))
     = Fs.fs Scenario.extensionless.
Proof.
  split; [reflexivity |]. split; [discriminate |]. split; [discriminate |].
  apply (clean_declined_changes_nothing Session.platform Session.terminal
           (mkOptions false false) "yes" (Session.start Scenario.extensionless));
    [reflexivity | discriminate | discriminate].
Defined.

(** X3. With [--yes] the user is never asked anything, whatever the analysis
    finds and however the cleanup ends. *)
Theorem clean_yes_asks_nothing :
  forall (P : Platform) (T : Terminal) (options : Options) (answer : string)
         (s : Fs.World * CliLocals),
    yes options = true ->
    questions (snd (snd (cleanAction P T options answer s))) = questions (snd s).
Proof.
  intros P T [d y] answer s Hyes. simpl in Hyes. subst y.
  assert (H : keeps (fun s : Fs.World * CliLocals => (tt, questions (snd s)))
                    (cleanAction P T (mkOptions d true) answer)).
  { apply (view_command T (fun _ => tt) questions);
      [reflexivity | reflexivity | intros w; reflexivity |].
    intros analysis.
    apply (view_removeUnused T (fun _ => tt) questions); [reflexivity | reflexivity |].
    apply (view_proceed_yes T (fun _ => tt) questions);
      [reflexivity | reflexivity | intros w; reflexivity]. }
  specialize (H s). simpl in H. injection H as H. exact H.
Qed.

Lemma clean_yes_asks_nothing_witness :
  yes (mkOptions false true) = true
  /\ questions (snd (snd (Session.clean (mkOptions false true) "" Scenario.extensionless)))
     = [].
Proof.
  split; [reflexivity |].
  exact (clean_yes_asks_nothing Session.platform Session.terminal
           (mkOptions false true) "" (Session.start Scenario.extensionless) eq_refl).
Defined.


(** X5. When the analysis throws, [refiner clean] removes nothing and asks
    nothing, whatever the flags: the spinner fails with [Cleanup failed], the
    last line printed is the message of the error on [console.error], and
    the process exits with code 1. *)
Theorem clean_command_reports_failed_analysis :
  forall (P : Platform) (T : Terminal) (options : Options) (answer : string)
         (s : Fs.World * CliLocals) (e : Error),
    fst (analyzeProject P (cwd P) (fst s)) = Throw e ->
    exists s',
      cleanAction P T options answer s = (Return (Exited 1), s')
      /\ Fs.fs (fst s') = Fs.fs (fst s)
      /\ Fs.console (fst s')
         = Fs.console (snd (analyzeProject P (cwd P) (fst s))) ++ [ errorLine T e ]
      /\ spinner (snd s')
         = spinner (snd s) ++ [ SpinnerStart "Analyzing project...";
                                SpinnerFail "Cleanup failed" ]
      /\ questions (snd s') = questions (snd s).
Proof.
  intros P T options answer s e Hthrow.
  unfold cleanAction. rewrite command_run.
  pose proof (preservesTree_analyzeProject P (cwd P) (fst s)) as Htree.
  destruct (analyzeProject P (cwd P) (fst s)) as [o w1].
  simpl in Hthrow, Htree. subst o. rewrite failWith_run.
  eexists. split; [reflexivity |]. simpl.
  rewrite <- app_assoc. repeat split. exact Htree.
Qed.

Lemma clean_command_reports_failed_analysis_witness :
  exists e,
    fst (analyzeProject Session.platform "/p" Scenario.withUnreadableFile) = Throw e
    /\ fst (Session.clean (mkOptions false true) "" Scenario.withUnreadableFile)
       = Return (Exited 1).
Proof.
  eexists. split; [vm_compute; reflexivity |].
  destruct (clean_command_reports_failed_analysis Session.platform Session.terminal
              (mkOptions false true) "" (Session.start Scenario.withUnreadableFile)
              _ ltac:(vm_compute; reflexivity)) as (s' & E & _).
  unfold Session.clean. rewrite E. reflexivity.
Defined.

(** X6. When the analysis finds nothing unused, [refiner clean] stops after
    saying so, also with [--yes]: nothing is removed, nothing is asked, and
    the action returns. *)
Theorem clean_command_on_clean_project :
  forall (P : Platform) (T : Terminal) (options : Options) (answer : string)
         (s : Fs.World * CliLocals) (analysis : AnalysisResult.t),
    fst (analyzeProject P (cwd P) (fst s)) = Return analysis ->
    AnalysisResult.unusedDependencies analysis = [] ->
    AnalysisResult.unusedFiles analysis = [] ->
    exists s',
      cleanAction P T options answer s = (Return Finished, s')
      /\ Fs.fs (fst s') = Fs.fs (fst s)
      /\ questions (snd s') = questions (snd s)
      /\ Fs.console (fst s')
         = Fs.console (snd (analyzeProject P (cwd P) (fst s)))
           ++ [ (Fs.LLog,
                 chalk T green (Cli.newline +:+ "✨ Your project is already clean!")) ].
Proof.
  intros P T options answer s analysis Hrun Hdeps Hfiles.
  unfold cleanAction. rewrite command_run.
  pose proof (preservesTree_analyzeProject P (cwd P) (fst s)) as Htree.
  destruct (analyzeProject P (cwd P) (fst s)) as [o w1].
  simpl in Hrun, Htree. subst o.
  unfold removeUnused. rewrite Hdeps, Hfiles.
  eexists. split; [reflexivity |]. simpl. repeat split. exact Htree.
Qed.

Lemma clean_command_on_clean_project_witness :
  fst (Session.clean (mkOptions false true) "" Session.tidy) = Return Finished
  /\ Fs.fs (fst (snd (Session.clean (mkOptions false true) "" Session.tidy)))
     = Fs.fs Session.tidy.
Proof.
  destruct (clean_command_on_clean_project Session.platform Session.terminal
              (mkOptions false true) "" (Session.start Session.tidy)
              (AnalysisResult.mk [] [])
              ltac:(vm_compute; reflexivity) eq_refl eq_refl) as (s' & E & Htree & _).
  unfold Session.clean. rewrite E. split; [reflexivity | exact Htree].
Defined.

Section Confirmed.
Variable P : Platform.
Variable T : Terminal.

Lemma isEmpty_false {A} (l1 : list A) {B} (l2 : list B) :
  l1 <> [] \/ l2 <> [] -> Cli.isEmpty l1 && Cli.isEmpty l2 = false.
Proof.
  intros [H | H]; [destruct l1 | destruct l2]; try contradiction;
    [reflexivity | apply andb_false_r].
Qed.

Lemma tryCatch_bind_alwaysReturns {S B} (m : M S unit) (k : unit -> M S B)
    (handler : Error -> M S B) (s : S) :
  alwaysReturns m -> tryCatch (bind m k) handler s = tryCatch (k tt) handler (snd (m s)).
Proof.
  intros Hm. unfold tryCatch. rewrite (bind_alwaysReturns m k s Hm). reflexivity.
Qed.

(** Once confirmed, and not a dry run, the end of [clean] is the cleanup of
    the world it finds, then the report. *)
Lemma proceed_confirmed_run options answer analysis (s : Fs.World * CliLocals) :
  dryRun options = false -> yes options = true \/ confirms answer = true ->
  exists l',
    proceed P T options answer analysis s
    = bind (inWorld (cleanProject P (cwd P) analysis)) (reportCleanup T) (fst s, l').
Proof.
  destruct options as [d y]. simpl. intros -> Hconfirmed.
  destruct y.
  - eexists. reflexivity.
  - destruct Hconfirmed as [H | H]; [discriminate |].
    unfold proceed. cbn [yes dryRun negb andb].
    rewrite bind_bind. unfold bind at 1, ask, assign, modify. cbn [fst snd].
    unfold bind at 1, ret at 1. rewrite H. cbn [negb].
    eexists. reflexivity.
Qed.

Lemma proceed_confirmed options answer analysis (s : Fs.World * CliLocals) :
  dryRun options = false -> yes options = true \/ confirms answer = true ->
  Fs.fs (fst (snd (proceed P T options answer analysis s)))
  = Fs.fs (snd (cleanProject P (cwd P) analysis (fst s)))
  /\ fst (proceed P T options answer analysis s)
     = match fst (cleanProject P (cwd P) analysis (fst s)) with
       | Return _ => Return Finished
       | Throw e => Throw e
       | OutOfFuel => OutOfFuel
       end.
Proof.
  intros Hdry Hconfirmed.
  destruct (proceed_confirmed_run options answer analysis s Hdry Hconfirmed)
    as (l' & ->).
  unfold bind, inWorld. cbn [fst snd].
  destruct (cleanProject P (cwd P) analysis (fst s)) as [[result | e | ] w2];
    cbn [fst snd]; [| split; reflexivity ..].
  split.
  - pose proof (view_reportCleanup T Fs.fs (fun _ : CliLocals => tt)
                  (fun _ _ _ => eq_refl) (fun _ _ => eq_refl) result (w2, l')) as H.
    simpl in H. injection H as H. exact H.
  - apply yields_reportCleanup.
Qed.

End Confirmed.

(** X7. Confirmed and not a dry run, [refiner clean] cleans what it
    analysed: when the analysis reports something and either [--yes] is given
    or the answer is [y] or [Y], [cleanProject] runs on the analysis just
    made and on the tree the command found; the tree the command leaves is
    the tree the cleanup leaves, the action returns when the cleanup returns
    and exits with code 1 when the cleanup throws. *)
Theorem clean_command_cleans_what_was_analysed :
  forall (P : Platform) (T : Terminal) (options : Options) (answer : string)
         (s : Fs.World * CliLocals) (analysis : AnalysisResult.t),
    fst (analyzeProject P (cwd P) (fst s)) = Return analysis ->
    AnalysisResult.unusedDependencies analysis <> []
    \/ AnalysisResult.unusedFiles analysis <> [] ->
    dryRun options = false ->
    yes options = true \/ answer = "y" \/ answer = "Y" ->
    exists w1 : Fs.World,
      Fs.fs w1 = Fs.fs (fst s)
      /\ Fs.fs (fst (snd (cleanAction P T options answer s)))
         = Fs.fs (snd (cleanProject P (cwd P) analysis w1))
      /\ fst (cleanAction P T options answer s)
         = match fst (cleanProject P (cwd P) analysis w1) with
           | Return _ => Return Finished
           | Throw _ => Return (Exited 1)
           | OutOfFuel => OutOfFuel
           end.
Proof.
  intros P T options answer s analysis Hrun Hsome Hdry Hconfirmed.
  assert (Hc : yes options = true \/ confirms answer = true).
  { destruct Hconfirmed as [H | H]; [left; exact H | right].
    apply confirms_iff. exact H. }
  unfold cleanAction. rewrite command_run.
  pose proof (preservesTree_analyzeProject P (cwd P) (fst s)) as Htree.
  destruct (analyzeProject P (cwd P) (fst s)) as [o w0].
  simpl in Hrun, Htree. subst o.
  unfold removeUnused.
  rewrite tryCatch_bind_alwaysReturns by apply alwaysReturns_spinner_push.
  rewrite (isEmpty_false _ _ Hsome).
  rewrite tryCatch_bind_alwaysReturns by apply alwaysReturns_listItems.
  match goal with
  | |- context [tryCatch _ _ ?st] => set (s2 := st)
  end.
  exists (fst s2). split.
  { pose proof (view_listItems T Fs.fs (fun _ : CliLocals => tt)
                  (fun _ _ _ => eq_refl) analysis) as Hlist.
    match type of Hlist with
    | keeps _ ?m => specialize (Hlist (snd (spinner_push (SpinnerSucceed "Analysis complete")
                                              (w0, mkCliLocals
                                                  (spinner (snd s)
                                                   ++ [ SpinnerStart "Analyzing project..." ])
                                                  (questions (snd s))))))
    end.
    simpl in Hlist. injection Hlist as Hlist. subst s2. simpl.
    rewrite Hlist. exact Htree. }
  destruct (proceed_confirmed P T options answer analysis s2 Hdry Hc) as [Ht Ho].
  unfold tryCatch.
  destruct (proceed P T options answer analysis s2) as [o s3].
  simpl in Ht, Ho. rewrite <- Ht.
  destruct (fst (cleanProject P (cwd P) analysis (fst s2))) as [result | e | ];
    subst o; [split; reflexivity | | split; reflexivity].
  rewrite failWith_run. split; reflexivity.
Qed.

Lemma clean_command_cleans_what_was_analysed_witness :
  exists w1 : Fs.World,
    Fs.fs w1 = Fs.fs Scenario.extensionless
    /\ Fs.fs (fst (snd (Session.clean (mkOptions false false) "Y"
                          Scenario.extensionless)))
       = Fs.fs (snd (cleanProject Session.platform "/p"
                       (AnalysisResult.mk
                          [] [ UnusedFile.mk "b.js" "2023-11-14T22:13:20.000Z" 0 ])
                       w1))
    /\ fst (Session.clean (mkOptions false false) "Y" Scenario.extensionless)
       = match fst (cleanProject Session.platform "/p"
                      (AnalysisResult.mk
                         [] [ UnusedFile.mk "b.js" "2023-11-14T22:13:20.000Z" 0 ])
                      w1) with
         | Return _ => Return Finished
         | Throw _ => Return (Exited 1)
         | OutOfFuel => OutOfFuel
         end.
Proof.
  apply (clean_command_cleans_what_was_analysed Session.platform Session.terminal
           (mkOptions false false) "Y" (Session.start Scenario.extensionless)
           (AnalysisResult.mk [] [ UnusedFile.mk "b.js" "2023-11-14T22:13:20.000Z" 0 ])).
  - vm_compute. reflexivity.
  - right. discriminate.
  - reflexivity.
  - right. right. reflexivity.
Defined.

(** ** The size of a folder *)

Section FolderSize.
Variable P : Platform.

(** The loop of [getFolderSize]: the sum when every path can be examined,
    the error of the first that cannot otherwise. *)
Lemma getFolderSize_loop files (acc : Z) (w : Fs.World) :
  (forallb (statable P w) files = true ->
   forOf files (fun file totalSize =>
                  stats <- Fs.stat (cwd P) file ;;
                  ret (totalSize + Fs.size stats)%Z) acc w
   = (Return (acc + sumZ (map (sizeAt P w) files))%Z, w))
  /\ (forallb (statable P w) files = false ->
      exists e,
        forOf files (fun file totalSize =>
                       stats <- Fs.stat (cwd P) file ;;
                       ret (totalSize + Fs.size stats)%Z) acc w
        = (Throw e, w)).
Proof.
  revert acc. induction files as [| file files IH]; intros acc.
  - split; [| discriminate]. intros _. simpl. unfold ret.
    rewrite Z.add_0_r. reflexivity.
  - simpl forallb. simpl map. simpl sumZ. simpl forOf.
    unfold bind at 1 4. unfold bind at 1 3.
    unfold statable at 1 3, sizeAt at 1.
    rewrite (inert_run _ w (inert_stat P file)).
    pose proof (proj2 (inert_stat P file w)) as Hfuel.
    destruct (fst (Fs.stat (cwd P) file w)) as [stats | e | ];
      [| split; [discriminate | intros _; exists e; reflexivity] | contradiction].
    unfold ret at 1 3. simpl andb.
    destruct (IH (acc + Fs.size stats)%Z) as [IHok IHfail].
    split.
    + intros Hall. rewrite (IHok Hall), Z.add_assoc. reflexivity.
    + exact IHfail.
Qed.

End FolderSize.

(** X8. [getFolderSize] never throws and changes nothing. It returns the sum
    of the sizes of the paths [glob] lists below the folder when every one of
    them can be examined, and 0 as soon as [glob] fails or one listed path
    cannot be examined: a partial sum is never returned. *)
Theorem getFolderSize_is_the_sum_or_zero :
  forall (P : Platform) (folderPath : string) (w : Fs.World),
    getFolderSize P folderPath w
    = (Return
         match glob P "**/*" (mkGlobOptions [] folderPath true true) (Fs.fs w) with
         | inr files =>
             if forallb (statable P w) files then sumZ (map (sizeAt P w) files)
             else 0%Z
         | inl _ => 0%Z
         end, w).
Proof.
  intros P folderPath w.
  unfold getFolderSize, tryCatch. unfold bind at 1. unfold runGlob, bind at 1, gets.
  destruct (glob P "**/*" (mkGlobOptions [] folderPath true true) (Fs.fs w))
    as [e | files]; [reflexivity |].
  simpl liftResult. unfold ret at 1. unfold bind at 1.
  destruct (getFolderSize_loop P files 0%Z w) as [Hok Hfail].
  destruct (forallb (statable P w) files).
  - rewrite (Hok eq_refl). reflexivity.
  - destruct (Hfail eq_refl) as (e & ->). reflexivity.
Qed.

(** ** What a change of the tree leaves alone *)

Section FsFrame.

Lemma assoc_removeEntry_ne other name entries :
  other <> name ->
  Fs.assoc other (Fs.removeEntry name entries) = Fs.assoc other entries.
Proof.
  intros Hne. induction entries as [| [n i] rest IH]; simpl; [reflexivity |].
  destruct (String.eqb_spec name n) as [-> | Hn].
  - destruct (String.eqb_spec other n); [contradiction | reflexivity].
  - simpl. rewrite IH. reflexivity.
Qed.

Lemma assoc_setEntry_ne other name node entries :
  other <> name ->
  Fs.assoc other (Fs.setEntry name node entries) = Fs.assoc other entries.
Proof.
  intros Hne. induction entries as [| [n i] rest IH]; simpl.
  - destruct (String.eqb_spec other name); [contradiction | reflexivity].
  - destruct (String.eqb_spec name n) as [-> | Hn]; simpl.
    + destruct (String.eqb_spec other n); [contradiction | reflexivity].
    + rewrite IH. reflexivity.
Qed.

Lemma assoc_setEntry_eq name node entries :
  Fs.assoc name (Fs.setEntry name node entries) = Some node.
Proof.
  induction entries as [| [n i] rest IH]; simpl.
  - rewrite String.eqb_refl. reflexivity.
  - destruct (String.eqb_spec name n) as [-> | Hn]; simpl.
    + rewrite String.eqb_refl. reflexivity.
    + destruct (String.eqb_spec name n); [contradiction | exact IH].
Qed.

Lemma lookup_app front back n :
  Fs.lookup (front ++ back) n
  = match Fs.lookup front n with
    | Some below => Fs.lookup back below
    | None => None
    end.
Proof.
  revert n. induction front as [| s front IH]; intros n; [reflexivity |].
  simpl. destruct n as [content m | entries m]; [reflexivity |].
  destruct (Fs.assoc s entries); [apply IH | reflexivity].
Qed.

Lemma keepsFileAt_refl segs n : keepsFileAt segs n n.
Proof. intros content meta H. exact H. Qed.

Lemma keepsFileAt_trans segs n1 n2 n3 :
  keepsFileAt segs n1 n2 -> keepsFileAt segs n2 n3 -> keepsFileAt segs n1 n3.
Proof. intros H12 H23 content meta H. apply H23, H12, H. Qed.

Lemma modifyParent_below s s2 rest f entries m :
  Fs.modifyParent (s :: s2 :: rest) f (Fs.IDir entries m)
  = match Fs.assoc s entries with
    | None => inl Fs.ENOENT
    | Some child =>
        match Fs.modifyParent (s2 :: rest) f child with
        | inl e => inl e
        | inr child' => inr (Fs.IDir (Fs.setEntry s child' entries) m)
        end
    end.
Proof. reflexivity. Qed.

(** A change made at [segs] keeps every regular file that is not at or
    below [segs]. *)
Lemma modifyParent_frame f segs :
  changesOneName f ->
  forall n n',
    Fs.modifyParent segs f n = inr n' ->
    forall path, ~ segs `prefix_of` path -> keepsFileAt path n n'.
Proof.
  intros Hf. induction segs as [| s rest IH]; intros n n' Hmod path Hpath content meta Hlook.
  - discriminate Hmod.
  - destruct n as [c0 m0 | entries dm]; [discriminate Hmod |].
    destruct path as [| q path']; [discriminate Hlook |].
    destruct rest as [| s2 rest'].
    + simpl in Hmod. destruct (f s entries dm) as [e | entries'] eqn:Ef;
        [discriminate Hmod |].
      injection Hmod as <-.
      assert (Hq : q <> s).
      { intros ->. apply Hpath. exists path'. reflexivity. }
      simpl in Hlook |- *. rewrite (Hf _ _ _ _ Ef q Hq). exact Hlook.
    + rewrite modifyParent_below in Hmod.
      destruct (Fs.assoc s entries) as [child |] eqn:Ea; [| discriminate Hmod].
      destruct (Fs.modifyParent (s2 :: rest') f child) as [e | child'] eqn:Em;
        [discriminate Hmod |].
      injection Hmod as <-.
      simpl in Hlook |- *.
      destruct (String.eqb_spec q s) as [-> | Hq].
      * rewrite assoc_setEntry_eq. rewrite Ea in Hlook.
        apply (IH child child' Em path'); [| exact Hlook].
        intros [k Hk]. apply Hpath. exists k. simpl. f_equal. exact Hk.
      * rewrite (assoc_setEntry_ne q s child' entries Hq). exact Hlook.
Qed.

(** What a change made at [segs] found there. *)
Lemma modifyParent_target f segs (found : Fs.Inode -> Prop) :
  (forall name entries meta entries',
      f name entries meta = inr entries' ->
      exists node, Fs.assoc name entries = Some node /\ found node) ->
  forall n n',
    Fs.modifyParent segs f n = inr n' ->
    exists node, Fs.lookup segs n = Some node /\ found node.
Proof.
  intros Hf. induction segs as [| s rest IH]; intros n n' Hmod.
  - discriminate Hmod.
  - destruct n as [c0 m0 | entries dm]; [discriminate Hmod |].
    destruct rest as [| s2 rest'].
    + simpl in Hmod. destruct (f s entries dm) as [e | entries'] eqn:Ef;
        [discriminate Hmod |].
      destruct (Hf _ _ _ _ Ef) as (node & Ha & Hfound).
      exists node. simpl. rewrite Ha. split; [reflexivity | exact Hfound].
    + rewrite modifyParent_below in Hmod.
      destruct (Fs.assoc s entries) as [child |] eqn:Ea; [| discriminate Hmod].
      destruct (Fs.modifyParent (s2 :: rest') f child) as [e | child'] eqn:Em;
        [discriminate Hmod |].
      destruct (IH child child' Em) as (node & Hl & Hfound).
      exists node. split; [| exact Hfound].
      change (Fs.lookup (s :: s2 :: rest') (Fs.IDir entries dm))
        with (match Fs.assoc s entries with
              | Some c => Fs.lookup (s2 :: rest') c
              | None => None
              end).
      rewrite Ea. exact Hl.
Qed.

Variable cwd : string.

Lemma mutate_frame syscall path f (w : Fs.World) :
  changesOneName f ->
  forall segs,
    ~ Fs.segments cwd path `prefix_of` segs ->
    keepsFileAt segs (Fs.fs w) (Fs.fs (snd (Fs.mutate cwd syscall path f w))).
Proof.
  intros Hf segs Hsegs. unfold Fs.mutate.
  destruct (Fs.modifyParent (Fs.segments cwd path) f (Fs.fs w)) as [e | root'] eqn:Em.
  - apply keepsFileAt_refl.
  - exact (modifyParent_frame f _ Hf _ _ Em segs Hsegs).
Qed.

Lemma mutate_console syscall path f (w : Fs.World) :
  Fs.console (snd (Fs.mutate cwd syscall path f w)) = Fs.console w.
Proof.
  unfold Fs.mutate. destruct (Fs.modifyParent _ _ _); reflexivity.
Qed.

Lemma changesOneName_unlink :
  changesOneName (fun name entries m =>
    match Fs.assoc name entries with
    | None => inl Fs.ENOENT
    | Some (Fs.IDir _ _) => inl Fs.EISDIR
    | Some (Fs.IFile _ _) =>
        if Fs.writable m then inr (Fs.removeEntry name entries) else inl Fs.EACCES
    end).
Proof.
  intros name entries m entries' H other Hne.
  destruct (Fs.assoc name entries) as [[c fm | es dm] |]; try discriminate H.
  destruct (Fs.writable m); [| discriminate H].
  injection H as <-. apply assoc_removeEntry_ne. exact Hne.
Qed.

Lemma changesOneName_rmdir :
  changesOneName (fun name entries m =>
    match Fs.assoc name entries with
    | None => inl Fs.ENOENT
    | Some (Fs.IFile _ _) => inl Fs.ENOTDIR
    | Some (Fs.IDir (_ :: _) _) => inl Fs.ENOTEMPTY
    | Some (Fs.IDir [] _) =>
        if Fs.writable m then inr (Fs.removeEntry name entries) else inl Fs.EACCES
    end).
Proof.
  intros name entries m entries' H other Hne.
  destruct (Fs.assoc name entries) as [[c fm | [| e es] dm] |]; try discriminate H.
  destruct (Fs.writable m); [| discriminate H].
  injection H as <-. apply assoc_removeEntry_ne. exact Hne.
Qed.

Lemma changesOneName_rm :
  changesOneName (fun name entries m =>
    match Fs.assoc name entries with
    | None => inl Fs.ENOENT
    | Some node =>
        if Fs.writable m && Fs.removable node then inr (Fs.removeEntry name entries)
        else inl Fs.EACCES
    end).
Proof.
  intros name entries m entries' H other Hne.
  destruct (Fs.assoc name entries) as [node |]; [| discriminate H].
  destruct (Fs.writable m && Fs.removable node); [| discriminate H].
  injection H as <-. apply assoc_removeEntry_ne. exact Hne.
Qed.

Lemma changesOneName_write data now :
  changesOneName (fun name entries m =>
    match Fs.assoc name entries with
    | Some (Fs.IDir _ _) => inl Fs.EISDIR
    | Some (Fs.IFile _ fm) =>
        if Fs.writable fm
        then inr (Fs.setEntry name
                    (Fs.IFile data (Fs.mkMeta now (Fs.readable fm) true)) entries)
        else inl Fs.EACCES
    | None =>
        if Fs.writable m
        then inr (Fs.setEntry name (Fs.IFile data (Fs.mkMeta now true true)) entries)
        else inl Fs.EACCES
    end).
Proof.
  intros name entries m entries' H other Hne.
  destruct (Fs.assoc name entries) as [[c fm | es dm] |]; try discriminate H.
  - destruct (Fs.writable fm); [| discriminate H].
    injection H as <-. apply assoc_setEntry_ne. exact Hne.
  - destruct (Fs.writable m); [| discriminate H].
    injection H as <-. apply assoc_setEntry_ne. exact Hne.
Qed.

(** [rmdir] removes an empty directory or nothing: every regular file
    stays. *)
Lemma rmdir_keeps_files path (w : Fs.World) segs :
  keepsFileAt segs (Fs.fs w) (Fs.fs (snd (Fs.rmdir cwd path w))).
Proof.
  unfold Fs.rmdir, Fs.mutate.
  match goal with
  | |- context [Fs.modifyParent ?sg ?f ?n] =>
      destruct (Fs.modifyParent sg f n) as [e | root'] eqn:Em
  end; [apply keepsFileAt_refl |].
  simpl. intros content meta Hlook.
  assert (Hdec : Fs.segments cwd path `prefix_of` segs
                 \/ ~ Fs.segments cwd path `prefix_of` segs).
  { destruct (decide (Fs.segments cwd path `prefix_of` segs)); [left | right];
      assumption. }
  destruct Hdec as [[k ->] | Hout].
  - exfalso.
    match type of Em with
    | Fs.modifyParent _ ?f _ = _ =>
        assert (Htarget : forall name entries m entries',
                   f name entries m = inr entries' ->
                   exists node,
                     Fs.assoc name entries = Some node
                     /\ exists dm, node = Fs.IDir [] dm)
    end.
    { intros name entries m entries' H. cbv beta in H.
      destruct (Fs.assoc name entries) as [[c fm | [| e es] dm] |];
        try discriminate H.
      eexists. split; [reflexivity | eexists; reflexivity]. }
    destruct (modifyParent_target _ _ _ Htarget _ _ Em) as (node & Hnode & dm & ->).
    rewrite lookup_app, Hnode in Hlook.
    destruct k; discriminate Hlook.
  - exact (modifyParent_frame _ _ changesOneName_rmdir _ _ Em segs Hout
             content meta Hlook).
Qed.

End FsFrame.

(** ** Pruning removes directories only *)

Lemma stable_inert {S A} (R : S -> S -> Prop) (m : M S A) :
  (forall s, R s s) -> inert m -> stable R m.
Proof. intros Hrefl Hm s. rewrite (proj1 (Hm s)). apply Hrefl. Qed.

Section Pruning.
Variable P : Platform.

Lemma spares_refl w : spares w w.
Proof. split; [intros segs; apply keepsFileAt_refl | reflexivity]. Qed.

Lemma spares_trans w1 w2 w3 : spares w1 w2 -> spares w2 w3 -> spares w1 w3.
Proof.
  intros [H12 C12] [H23 C23]. split; [| congruence].
  intros segs. exact (keepsFileAt_trans segs _ _ _ (H12 segs) (H23 segs)).
Qed.

Lemma inert_readdir path : inert (Fs.readdir (cwd P) path).
Proof.
  apply inert_bind; [apply inert_gets |].
  intros [[content m | entries m] |]; try apply inert_throw.
  destruct (Fs.readable m); [apply inert_ret | apply inert_throw].
Qed.

Lemma spares_rmdir path : stable spares (Fs.rmdir (cwd P) path).
Proof.
  intros w. split.
  - intros segs. apply rmdir_keeps_files.
  - apply mutate_console.
Qed.

Lemma spares_removeEmptyDirectories fuel directory :
  stable spares (removeEmptyDirectories P fuel directory).
Proof.
  revert directory. induction fuel as [| fuel IH]; intros directory.
  - intros w. apply spares_refl.
  - simpl.
    apply (stable_bind spares spares_trans);
      [apply (stable_inert spares _ spares_refl), inert_readdir |].
    intros files. destruct (Nat.eqb (List.length files) 0).
    + apply (stable_bind spares spares_trans); [apply spares_rmdir |].
      intros _. apply (stable_ret spares spares_refl).
    + apply (stable_bind spares spares_trans).
      * apply (stable_forOf spares spares_refl spares_trans). intros file isEmpty.
        apply (stable_bind spares spares_trans);
          [apply (stable_inert spares _ spares_refl), inert_stat |].
        intros stats. destruct (Fs.isDirectory stats);
          [| apply (stable_ret spares spares_refl)].
        apply (stable_bind spares spares_trans); [apply IH |].
        intros removed. destruct (negb removed);
          apply (stable_ret spares spares_refl).
      * intros isEmpty. destruct isEmpty; [| apply (stable_ret spares spares_refl)].
        apply (stable_bind spares spares_trans); [apply spares_rmdir |].
        intros _. apply (stable_ret spares spares_refl).
Qed.

End Pruning.

(** X9. [removeEmptyDirectories] removes directories only: whatever the
    directory it is started on, and whether it returns or throws half way, a
    regular file that was in the tree is still there afterwards, at the same
    place, with the same content and metadata. *)
Theorem removeEmptyDirectories_keeps_every_file :
  forall (P : Platform) (fuel : nat) (directory : string) (w : Fs.World)
         (segs : list string) (content : string) (meta : Fs.Meta),
    Fs.lookup segs (Fs.fs w) = Some (Fs.IFile content meta) ->
    Fs.lookup segs (Fs.fs (snd (removeEmptyDirectories P fuel directory w)))
    = Some (Fs.IFile content meta).
Proof.
  intros P fuel directory w segs content meta Hfile.
  exact (proj1 (spares_removeEmptyDirectories P fuel directory w) segs content meta
           Hfile).
Qed.

Lemma removeEmptyDirectories_keeps_every_file_witness :
  Fs.lookup [ "p"; "src"; "a.js" ] (Fs.fs Session.withEmptyDirectories)
  = Some (Fs.IFile "" (Fs.mkMeta 1700000000000 true true))
  /\ Fs.lookup [ "p"; "src"; "a.js" ]
       (Fs.fs (snd (removeEmptyDirectories Session.platform 4 "/p"
                      Session.withEmptyDirectories)))
     = Some (Fs.IFile "" (Fs.mkMeta 1700000000000 true true)).
Proof.
  split; [reflexivity |].
  apply (removeEmptyDirectories_keeps_every_file Session.platform 4 "/p"
           Session.withEmptyDirectories).
  reflexivity.
Defined.

(** On that project the pruning does remove the directory that holds only an
    empty directory. *)
Example removeEmptyDirectories_prunes :
  Fs.lookup [ "p"; "empty" ]
    (Fs.fs (snd (removeEmptyDirectories Session.platform 4 "/p"
                   Session.withEmptyDirectories)))
  = None
  /\ fst (removeEmptyDirectories Session.platform 4 "/p" Session.withEmptyDirectories)
     = Return false.
Proof. vm_compute. split; reflexivity. Qed.

(** ** Composing what two steps leave *)

Section Sequencing.
Context {S : Type} (R1 R2 R3 : S -> S -> Prop).
Hypothesis R_first : forall s1 s2, R1 s1 s2 -> R3 s1 s2.
Hypothesis R_both : forall s1 s2 s3, R1 s1 s2 -> R2 s2 s3 -> R3 s1 s3.

Lemma stable_seq {A B} (m : M S A) (k : A -> M S B) :
  stable R1 m -> (forall a, stable R2 (k a)) -> stable R3 (bind m k).
Proof.
  intros Hm Hk s. unfold bind. specialize (Hm s).
  destruct (m s) as [[a | e | ] s']; simpl in *; [| apply R_first, Hm ..].
  exact (R_both _ _ _ Hm (Hk a s')).
Qed.

(** The same, the second step knowing that its argument was returned by the
    first. *)
Lemma stable_seq_returned {A B} (m : M S A) (k : A -> M S B) :
  stable R1 m ->
  (forall s a, fst (m s) = Return a -> stable R2 (k a)) ->
  stable R3 (bind m k).
Proof.
  intros Hm Hk s. unfold bind. specialize (Hm s). specialize (Hk s).
  destruct (m s) as [[a | e | ] s']; simpl in *; [| apply R_first, Hm ..].
  exact (R_both _ _ _ Hm (Hk a eq_refl s')).
Qed.

Lemma stable_try {A} (m : M S A) (handler : Error -> M S A) :
  stable R1 m -> (forall e, stable R2 (handler e)) -> stable R3 (tryCatch m handler).
Proof.
  intros Hm Hh s. unfold tryCatch. specialize (Hm s).
  destruct (m s) as [[a | e | ] s']; simpl in *; [apply R_first, Hm | | apply R_first, Hm].
  exact (R_both _ _ _ Hm (Hh e s')).
Qed.

End Sequencing.

Lemma stable_forOf_In {S A B} (R : S -> S -> Prop) (l : list A)
    (body : A -> B -> M S B) (acc : B) :
  (forall s, R s s) -> (forall s1 s2 s3, R s1 s2 -> R s2 s3 -> R s1 s3) ->
  (forall x b, In x l -> stable R (body x b)) -> stable R (forOf l body acc).
Proof.
  intros Hrefl Htrans. revert acc.
  induction l as [| x l IH]; intros acc Hbody; simpl.
  - apply (stable_ret R Hrefl).
  - apply (stable_bind R Htrans); [apply Hbody; left; reflexivity |].
    intros b. apply IH. intros y b' Hy. apply Hbody. right. exact Hy.
Qed.

Section OnWorld.
Context {L : Type} (R : Fs.World -> Fs.World -> Prop).
Hypothesis R_refl : forall w, R w w.

Lemma onWorld_refl (s : Fs.World * L) : onWorld R s s.
Proof. apply R_refl. Qed.

Lemma onWorld_inWorld {A} (m : M Fs.World A) :
  stable R m -> stable (@onWorld L R) (inWorld m).
Proof.
  intros Hm s. unfold onWorld, inWorld. specialize (Hm (fst s)).
  destruct (m (fst s)) as [o w]. exact Hm.
Qed.

Lemma onWorld_assign (f : L -> L) : stable (@onWorld L R) (assign f).
Proof. intros s. apply R_refl. Qed.

Lemma onWorld_withLocals {A} (init : L) (m : M (Fs.World * L) A) :
  stable (@onWorld L R) m -> stable R (withLocals init m).
Proof.
  intros Hm w. unfold withLocals. specialize (Hm (w, init)).
  destruct (m (w, init)) as [o s]. exact Hm.
Qed.

End OnWorld.

Section OnLocals.
Context {L : Type} (R : L -> L -> Prop).
Hypothesis R_refl : forall l, R l l.

Lemma onLocals_inWorld {A} (m : M Fs.World A) : stable (onLocals R) (@inWorld L A m).
Proof.
  intros s. unfold onLocals, inWorld. destruct (m (fst s)) as [o w]. apply R_refl.
Qed.

Lemma onLocals_inert {A} (m : M (Fs.World * L) A) : inert m -> stable (onLocals R) m.
Proof. intros Hm s. unfold onLocals. rewrite (proj1 (Hm s)). apply R_refl. Qed.

End OnLocals.

Section ReturnsLocals.
Context {L B : Type} (f : L -> B).

Lemma returnsLocals_bind {A} (m : M (Fs.World * L) A) (k : A -> M (Fs.World * L) B) :
  (forall a, returnsLocals f (k a)) -> returnsLocals f (bind m k).
Proof.
  intros Hk s b. unfold bind. destruct (m s) as [[a | e | ] s'];
    [apply Hk | discriminate | discriminate].
Qed.

Lemma returnsLocals_local :
  returnsLocals f (bind (local id) (fun l => ret (f l))).
Proof. intros s b H. injection H as <-. reflexivity. Qed.

End ReturnsLocals.

(** ** What the cleanup leaves alone *)

Lemma inert_inWorld {L A} (m : M Fs.World A) : inert m -> inert (@inWorld L A m).
Proof.
  intros Hm [w l]. unfold inWorld. simpl.
  destruct (Hm w) as [Hs Hf]. destruct (m w) as [o w']. simpl in *. subst w'.
  split; [reflexivity | exact Hf].
Qed.

Lemma inert_statOrFalse (P : Platform) path : inert (statOrFalse P path).
Proof.
  apply inert_tryCatch; [| intros e; apply inert_ret].
  apply inert_bind; [apply inert_stat | intros stats; apply inert_ret].
Qed.

Section CleanFrame.
Variable P : Platform.
Variable projectPath : string.
Variable segs : list string.

Local Abbreviation kept := (@onWorld CleanLocals (keepsFile segs)).

Lemma keepsFile_refl w : keepsFile segs w w.
Proof. apply keepsFileAt_refl. Qed.

Lemma keepsFile_trans w1 w2 w3 :
  keepsFile segs w1 w2 -> keepsFile segs w2 w3 -> keepsFile segs w1 w3.
Proof. apply keepsFileAt_trans. Qed.

Lemma kept_refl s : kept s s.
Proof. apply keepsFile_refl. Qed.

Lemma kept_trans s1 s2 s3 : kept s1 s2 -> kept s2 s3 -> kept s1 s3.
Proof. apply keepsFile_trans. Qed.

Lemma kept_inert {A} (m : M (Fs.World * CleanLocals) A) : inert m -> stable kept m.
Proof. apply stable_inert. exact kept_refl. Qed.

Lemma kept_mutate syscall path f :
  changesOneName f ->
  ~ Fs.segments (cwd P) path `prefix_of` segs ->
  stable kept (inWorld (Fs.mutate (cwd P) syscall path f)).
Proof.
  intros Hf Hout. apply onWorld_inWorld. intros w.
  apply mutate_frame; assumption.
Qed.

Lemma kept_console level line : stable kept (inWorld (Fs.consoleWrite level line)).
Proof. intros s. unfold onWorld, keepsFile. simpl. apply keepsFileAt_refl. Qed.

Lemma kept_removeDependency dep :
  ~ Fs.segments (cwd P) (Path.join [ projectPath; "package.json" ]) `prefix_of` segs ->
  stable kept (removeDependency P projectPath dep).
Proof.
  intros Hout. unfold removeDependency.
  apply (stable_tryCatch kept kept_trans); [| intros e; apply kept_console].
  apply (stable_bind kept kept_trans);
    [apply kept_inert, inert_inWorld, inert_readFile |].
  intros text. apply (stable_bind kept kept_trans);
                 [apply kept_inert, inert_liftResult |].
  intros packageJson. apply (stable_bind kept kept_trans);
                        [apply kept_inert, inert_getProp |].
  intros dependencies. apply (stable_bind kept kept_trans);
                         [apply kept_inert, inert_getProp |].
  intros devDependencies. apply (stable_bind kept kept_trans);
                            [| intros _; apply (onWorld_assign _ keepsFile_refl)].
  apply onWorld_inWorld. unfold Fs.writeFile.
  apply (stable_bind _ keepsFile_trans);
    [apply (stable_gets _ keepsFile_refl) |].
  intros now w. apply mutate_frame; [apply changesOneName_write | exact Hout].
Qed.

Lemma kept_removeFile file :
  ~ Fs.segments (cwd P) (Path.resolve (cwd P) [ projectPath; UnusedFile.path file ])
    `prefix_of` segs ->
  stable kept (removeFile P projectPath file).
Proof.
  intros Hout. unfold removeFile.
  apply (stable_tryCatch kept kept_trans); [| intros e; apply kept_console].
  apply (stable_bind kept kept_trans);
    [apply kept_inert, inert_inWorld, inert_statOrFalse |].
  intros [|]; [| apply (stable_ret kept kept_refl)].
  apply (stable_bind kept kept_trans);
    [apply kept_inert, inert_inWorld, inert_stat |].
  intros fileStat. apply (stable_bind kept kept_trans);
                     [apply (onWorld_assign _ keepsFile_refl) |].
  intros _. apply (stable_bind kept kept_trans);
              [| intros _; apply (onWorld_assign _ keepsFile_refl)].
  apply kept_mutate; [apply changesOneName_unlink | exact Hout].
Qed.

Lemma kept_cleanProject analysis :
  ~ Fs.segments (cwd P) (Path.join [ projectPath; "package.json" ]) `prefix_of` segs ->
  ~ Fs.segments (cwd P) (Path.join [ projectPath; "node_modules" ]) `prefix_of` segs ->
  (forall file,
      In file (AnalysisResult.unusedFiles analysis) ->
      ~ Fs.segments (cwd P) (Path.resolve (cwd P) [ projectPath; UnusedFile.path file ])
        `prefix_of` segs) ->
  (forall tree, keepsFileAt segs tree (snd (execSync P "npm install" projectPath tree))) ->
  stable (keepsFile segs) (cleanProject P projectPath analysis).
Proof.
  intros Hmanifest Hmodules Hfiles Hnpm. unfold cleanProject.
  apply (onWorld_withLocals _).
  apply (stable_bind kept kept_trans).
  { apply (stable_forOf kept kept_refl kept_trans). intros dep _.
    apply kept_removeDependency. exact Hmanifest. }
  intros _. apply (stable_bind kept kept_trans).
  { apply (stable_forOf_In kept _ _ _ kept_refl kept_trans). intros file _ Hin.
    apply kept_removeFile. apply Hfiles. exact Hin. }
  intros _. apply (stable_bind kept kept_trans);
              [apply kept_inert, inert_inWorld, inert_gets |].
  intros tree. apply (stable_bind kept kept_trans).
  { apply onWorld_inWorld. intros w.
    exact (proj1 (spares_removeEmptyDirectories P _ projectPath w) segs). }
  intros _. apply (stable_bind kept kept_trans).
  { apply (stable_tryCatch kept kept_trans); [| intros e; apply kept_console].
    apply (stable_bind kept kept_trans);
      [apply kept_inert, inert_inWorld, inert_statOrFalse |].
    intros [|]; [| apply (stable_ret kept kept_refl)].
    apply (stable_bind kept kept_trans).
    { apply kept_mutate; [apply changesOneName_rm | exact Hmodules]. }
    intros _. apply (stable_bind kept kept_trans);
                [apply (onWorld_assign _ keepsFile_refl) | intros _; apply kept_console]. }
  intros _. apply (stable_bind kept kept_trans).
  { apply (stable_tryCatch kept kept_trans); [| intros e; apply kept_console].
    apply onWorld_inWorld. intros w. unfold runExecSync, keepsFile.
    pose proof (Hnpm (Fs.fs w)) as Hw.
    destruct (execSync P "npm install" projectPath (Fs.fs w)) as [[e |] tree'];
      exact Hw. }
  intros _. apply (stable_bind kept kept_trans);
              [apply kept_inert, inert_gets |].
  intros l. apply (stable_ret kept kept_refl).
Qed.

End CleanFrame.

(** X10. [cleanProject] touches regular files only where it says: a regular
    file that is not the manifest, not a file of the analysis (as
    [resolve(projectPath, file.path)] names it), not below [node_modules],
    and that [npm install] leaves alone, is in the tree afterwards as it was
    before, whatever fails on the way and whether [cleanProject] returns or
    throws. *)
Theorem cleanProject_keeps_files_it_does_not_list :
  forall (P : Platform) (projectPath : string) (analysis : AnalysisResult.t)
         (w : Fs.World) (segs : list string) (content : string) (meta : Fs.Meta),
    Fs.lookup segs (Fs.fs w) = Some (Fs.IFile content meta) ->
    ~ Fs.segments (cwd P) (Path.join [ projectPath; "package.json" ]) `prefix_of` segs ->
    ~ Fs.segments (cwd P) (Path.join [ projectPath; "node_modules" ]) `prefix_of` segs ->
    (forall file,
        In file (AnalysisResult.unusedFiles analysis) ->
        ~ Fs.segments (cwd P)
            (Path.resolve (cwd P) [ projectPath; UnusedFile.path file ])
          `prefix_of` segs) ->
    (forall tree,
        keepsFileAt segs tree (snd (execSync P "npm install" projectPath tree))) ->
    Fs.lookup segs (Fs.fs (snd (cleanProject P projectPath analysis w)))
    = Some (Fs.IFile content meta).
Proof.
  intros P projectPath analysis w segs content meta Hfile Hmanifest Hmodules Hfiles Hnpm.
  exact (kept_cleanProject P projectPath segs analysis Hmanifest Hmodules Hfiles Hnpm
           w content meta Hfile).
Qed.

Lemma cleanProject_keeps_files_it_does_not_list_witness :
  Fs.lookup [ "p"; "a.js" ] (Fs.fs Scenario.extensionless)
  = Some (Fs.IFile "import b from './b'" (Fs.mkMeta 1700000000000 true true))
  /\ Fs.lookup [ "p"; "a.js" ]
       (Fs.fs (snd (cleanProject Session.platform "/p"
                      (AnalysisResult.mk [] [ UnusedFile.mk "b.js" "" 0 ])
                      Scenario.extensionless)))
     = Some (Fs.IFile "import b from './b'" (Fs.mkMeta 1700000000000 true true)).
Proof.
  split; [reflexivity |].
  apply (cleanProject_keeps_files_it_does_not_list Session.platform "/p"
           (AnalysisResult.mk [] [ UnusedFile.mk "b.js" "" 0 ])
           Scenario.extensionless).
  - reflexivity.
  - intros [k Hk]. vm_compute in Hk. discriminate Hk.
  - intros [k Hk]. vm_compute in Hk. discriminate Hk.
  - intros file [<- | []] [k Hk]. vm_compute in Hk. discriminate Hk.
  - intros tree content meta H. exact H.
Defined.

(** ** What the cleanup reports *)

Section CleanReport.
Variable P : Platform.
Variable projectPath : string.

Local Abbreviation more names paths dirs :=
  (@onLocals CleanLocals (reportedMore names paths dirs)).

Lemma reportedMore_refl l : reportedMore [] [] [] l l.
Proof.
  exists [], [], [], 0%Z.
  repeat split;
    [apply sublist_nil_l | apply sublist_nil_l | apply sublist_nil_l | lia |].
  destruct l. simpl. rewrite !app_nil_r, Z.add_0_r. reflexivity.
Qed.

Lemma reportedMore_weaken names paths dirs names' paths' dirs' l l' :
  names `sublist_of` names' -> paths `sublist_of` paths' -> dirs `sublist_of` dirs' ->
  reportedMore names paths dirs l l' -> reportedMore names' paths' dirs' l l'.
Proof.
  intros Hn Hp Hd (sn & sp & sd & freed & H1 & H2 & H3 & H4 & H5 & ->).
  exists sn, sp, sd, freed.
  split; [etrans; eassumption |]. split; [etrans; eassumption |].
  split; [etrans; eassumption |]. split; [exact H4 |]. split; [| reflexivity].
  intros ->. apply H5. apply sublist_nil_r. exact Hp.
Qed.

Lemma reportedMore_trans names1 paths1 dirs1 names2 paths2 dirs2 l1 l2 l3 :
  reportedMore names1 paths1 dirs1 l1 l2 ->
  reportedMore names2 paths2 dirs2 l2 l3 ->
  reportedMore (names1 ++ names2) (paths1 ++ paths2) (dirs1 ++ dirs2) l1 l3.
Proof.
  intros (sn & sp & sd & freed & H1 & H2 & H3 & H4 & H5 & ->)
         (sn' & sp' & sd' & freed' & H1' & H2' & H3' & H4' & H5' & ->).
  exists (sn ++ sn'), (sp ++ sp'), (sd ++ sd'), (freed + freed')%Z.
  split; [apply sublist_app; assumption |]. split; [apply sublist_app; assumption |].
  split; [apply sublist_app; assumption |]. split; [lia |]. split.
  - intros Hnil. apply app_eq_nil in Hnil. destruct Hnil as [Ha Hb].
    rewrite (H5 Ha), (H5' Hb). reflexivity.
  - simpl. rewrite !app_assoc, Z.add_assoc. reflexivity.
Qed.

(** A step that adds, after one that leaves the variables, and before
    one. *)
Lemma more_after {A B} names paths dirs
    (m : M (Fs.World * CleanLocals) A) (k : A -> M (Fs.World * CleanLocals) B) :
  stable (more [] [] []) m -> (forall a, stable (more names paths dirs) (k a)) ->
  stable (more names paths dirs) (bind m k).
Proof.
  apply stable_seq.
  - intros s1 s2. apply reportedMore_weaken; apply sublist_nil_l.
  - intros s1 s2 s3 H12 H23. exact (reportedMore_trans _ _ _ _ _ _ _ _ _ H12 H23).
Qed.

Lemma more_before {A B} names paths dirs
    (m : M (Fs.World * CleanLocals) A) (k : A -> M (Fs.World * CleanLocals) B) :
  stable (more names paths dirs) m -> (forall a, stable (more [] [] []) (k a)) ->
  stable (more names paths dirs) (bind m k).
Proof.
  apply stable_seq.
  - intros s1 s2 H. exact H.
  - intros s1 s2 s3 H12 H23.
    pose proof (reportedMore_trans _ _ _ _ _ _ _ _ _ H12 H23) as H.
    rewrite !app_nil_r in H. exact H.
Qed.

Lemma more_both {A B} names1 paths1 dirs1 names2 paths2 dirs2
    (m : M (Fs.World * CleanLocals) A) (k : A -> M (Fs.World * CleanLocals) B) :
  stable (more names1 paths1 dirs1) m ->
  (forall a, stable (more names2 paths2 dirs2) (k a)) ->
  stable (more (names1 ++ names2) (paths1 ++ paths2) (dirs1 ++ dirs2)) (bind m k).
Proof.
  apply stable_seq.
  - intros s1 s2. apply reportedMore_weaken; apply sublist_inserts_r; reflexivity.
  - intros s1 s2 s3 H12 H23. exact (reportedMore_trans _ _ _ _ _ _ _ _ _ H12 H23).
Qed.

Lemma more_seq {A B} names1 paths1 dirs1 names2 paths2 dirs2 names paths dirs
    (m : M (Fs.World * CleanLocals) A) (k : A -> M (Fs.World * CleanLocals) B) :
  names1 ++ names2 = names -> paths1 ++ paths2 = paths -> dirs1 ++ dirs2 = dirs ->
  stable (more names1 paths1 dirs1) m ->
  (forall a, stable (more names2 paths2 dirs2) (k a)) ->
  stable (more names paths dirs) (bind m k).
Proof. intros <- <- <-. apply more_both. Qed.

Lemma more_try {A} names paths dirs
    (m : M (Fs.World * CleanLocals) A) (handler : Error -> M (Fs.World * CleanLocals) A) :
  stable (more names paths dirs) m -> (forall e, stable (more [] [] []) (handler e)) ->
  stable (more names paths dirs) (tryCatch m handler).
Proof.
  apply stable_try.
  - intros s1 s2 H. exact H.
  - intros s1 s2 s3 H12 H23.
    pose proof (reportedMore_trans _ _ _ _ _ _ _ _ _ H12 H23) as H.
    rewrite !app_nil_r in H. exact H.
Qed.

Lemma more_inWorld {A} (m : M Fs.World A) : stable (more [] [] []) (inWorld m).
Proof. apply onLocals_inWorld. exact reportedMore_refl. Qed.

Lemma more_inert {A} (m : M (Fs.World * CleanLocals) A) :
  inert m -> stable (more [] [] []) m.
Proof. apply onLocals_inert. exact reportedMore_refl. Qed.

Lemma more_ret {A} (a : A) : stable (more [] [] []) (ret a).
Proof. intros s. apply reportedMore_refl. Qed.

Lemma more_removeDependency dep :
  stable (more [ UnusedDependency.name dep ] [] []) (removeDependency P projectPath dep).
Proof.
  unfold removeDependency.
  apply more_try; [| intros e; apply more_inWorld].
  apply more_after; [apply more_inWorld |].
  intros text. apply more_after; [apply more_inert, inert_liftResult |].
  intros packageJson. apply more_after; [apply more_inert, inert_getProp |].
  intros dependencies. apply more_after; [apply more_inert, inert_getProp |].
  intros devDependencies. apply more_after; [apply more_inWorld |].
  intros _ [w l]. exists [ UnusedDependency.name dep ], [], [], 0%Z.
  repeat split; [reflexivity | apply sublist_nil_l | apply sublist_nil_l | lia |].
  simpl. rewrite !app_nil_r, Z.add_0_r. reflexivity.
Qed.

Lemma stat_size_nonnegative path (w : Fs.World) stats :
  fst (Fs.stat (cwd P) path w) = Return stats -> (0 <= Fs.size stats)%Z.
Proof.
  unfold Fs.stat, bind, Fs.find, gets. simpl.
  destruct (Fs.lookup _ _) as [[content m | entries m] |]; simpl;
    intros H; try discriminate H; injection H as <-; simpl; lia.
Qed.

Lemma more_removeFile file :
  stable (more [] [ UnusedFile.path file ] []) (removeFile P projectPath file).
Proof.
  unfold removeFile.
  apply more_try; [| intros e; apply more_inWorld].
  apply more_after; [apply more_inWorld |].
  intros [|];
    [| intros s; apply (reportedMore_weaken [] [] []);
       [apply sublist_nil_l .. | apply reportedMore_refl]].
  apply (stable_seq_returned (more [] [] []) (more [] [ UnusedFile.path file ] [])
                             (more [] [ UnusedFile.path file ] [])).
  { intros s1 s2. apply reportedMore_weaken; apply sublist_nil_l. }
  { intros s1 s2 s3 H12 H23. exact (reportedMore_trans _ _ _ _ _ _ _ _ _ H12 H23). }
  { apply more_inWorld. }
  intros s fileStat Hstat.
  assert (Hsize : (0 <= Fs.size fileStat)%Z).
  { unfold inWorld in Hstat.
    destruct (Fs.stat (cwd P) _ (fst s)) as [o w'] eqn:E. simpl in Hstat. subst o.
    eapply (stat_size_nonnegative _ (fst s)). rewrite E. reflexivity. }
  intros [w l]. unfold bind, freedSpace_add, removedFiles_push, assign, modify, inWorld.
  cbn [fst snd].
  destruct (Fs.unlink (cwd P) _ w) as [[[] | e | ] w'];
    [exists [], [ UnusedFile.path file ], [], (Fs.size fileStat)
    | exists [], [], [], (Fs.size fileStat) ..];
    (split; [apply sublist_nil_l |];
     split; [first [reflexivity | apply sublist_nil_l] |];
     split; [apply sublist_nil_l |];
     split; [exact Hsize |];
     split; [discriminate | simpl; rewrite ?app_nil_r; reflexivity]).
Qed.

Lemma more_forOf_names (deps : list UnusedDependency.t) :
  stable (more (map UnusedDependency.name deps) [] [])
         (forOf deps (fun dep _ => removeDependency P projectPath dep) tt).
Proof.
  induction deps as [| dep deps IH]; simpl; [apply more_ret |].
  apply (more_both [ UnusedDependency.name dep ] [] []
                   (map UnusedDependency.name deps) [] []);
    [apply more_removeDependency | intros []; exact IH].
Qed.

Lemma more_forOf_paths (files : list UnusedFile.t) :
  stable (more [] (map UnusedFile.path files) [])
         (forOf files (fun file _ => removeFile P projectPath file) tt).
Proof.
  induction files as [| file files IH]; simpl; [apply more_ret |].
  apply (more_both [] [ UnusedFile.path file ] []
                   [] (map UnusedFile.path files) []);
    [apply more_removeFile | intros []; exact IH].
Qed.

(** What [cleanProject] returns was collected from the lists of the
    analysis. *)
Lemma cleanProject_reports analysis (w : Fs.World) result :
  fst (cleanProject P projectPath analysis w) = Return result ->
  reportedMore (map UnusedDependency.name (AnalysisResult.unusedDependencies analysis))
               (map UnusedFile.path (AnalysisResult.unusedFiles analysis))
               [ "node_modules" ]
               (mkCleanLocals [] [] [] 0%Z)
               (mkCleanLocals (CleanResult.removedDependencies result)
                              (CleanResult.removedFiles result)
                              (CleanResult.removedDirs result)
                              (CleanResult.freedSpace result)).
Proof.
  unfold cleanProject, withLocals.
  match goal with
  | |- fst (let (o, s) := ?body ?s0 in _) = _ -> _ =>
      assert (Hmore : stable (more (map UnusedDependency.name
                                      (AnalysisResult.unusedDependencies analysis))
                                   (map UnusedFile.path
                                      (AnalysisResult.unusedFiles analysis))
                                   [ "node_modules" ]) body);
      [| assert (Hret : returnsLocals
                          (fun l => CleanResult.mk (removedDependencies l)
                                      (removedFiles l) (removedDirs l) (freedSpace l))
                          body);
         [| specialize (Hmore s0); specialize (Hret s0);
            destruct (body s0) as [o s1] ]]
  end.
  - apply (more_seq (map UnusedDependency.name
                       (AnalysisResult.unusedDependencies analysis)) [] []
                    [] (map UnusedFile.path (AnalysisResult.unusedFiles analysis))
                    [ "node_modules" ]);
      [apply app_nil_r | reflexivity | reflexivity | apply more_forOf_names |].
    intros _.
    apply (more_seq [] (map UnusedFile.path (AnalysisResult.unusedFiles analysis)) []
                    [] [] [ "node_modules" ]);
      [reflexivity | apply app_nil_r | reflexivity | apply more_forOf_paths |].
    intros _. apply more_after; [apply more_inWorld |].
    intros tree. apply more_after; [apply more_inWorld |].
    intros _. apply more_before.
    + apply more_try; [| intros e; apply more_inWorld].
      apply more_after; [apply more_inWorld |].
      intros [|];
        [| intros s; apply (reportedMore_weaken [] [] []);
           [apply sublist_nil_l .. | apply reportedMore_refl]].
      apply more_after; [apply more_inWorld |].
      intros _. apply more_before; [| intros _; apply more_inWorld].
      intros [w' l]. exists [], [], [ "node_modules" ], 0%Z.
      repeat split; [apply sublist_nil_l | apply sublist_nil_l | reflexivity | lia |].
      simpl. rewrite !app_nil_r, Z.add_0_r. reflexivity.
    + intros _. apply more_after.
      { apply (more_try [] [] []); [apply more_inWorld | intros e; apply more_inWorld]. }
      intros _. apply more_after; [apply more_inert, inert_gets |].
      intros l. apply more_ret.
  - do 6 (apply returnsLocals_bind; intros ?).
    apply returnsLocals_local.
  - simpl. intros Ho. specialize (Hret result Ho). subst result.
    unfold onLocals in Hmore. simpl in Hmore |- *. destruct s1 as [w1 [a b c d]].
    exact Hmore.
Qed.

End CleanReport.

(** X11. [cleanProject] reports only what the analysis listed, in the order of
    the analysis: the names it returns as removed dependencies are a
    subsequence of the names of the unused dependencies, the paths it returns
    as removed files a subsequence of the paths of the unused files, and the
    space it returns as freed is not negative. *)
Theorem cleanProject_reports_only_what_was_listed :
  forall (P : Platform) (projectPath : string) (analysis : AnalysisResult.t)
         (w : Fs.World) (result : CleanResult.t),
    fst (cleanProject P projectPath analysis w) = Return result ->
    CleanResult.removedDependencies result
      `sublist_of` map UnusedDependency.name (AnalysisResult.unusedDependencies analysis)
    /\ CleanResult.removedFiles result
         `sublist_of` map UnusedFile.path (AnalysisResult.unusedFiles analysis)
    /\ (0 <= CleanResult.freedSpace result)%Z.
Proof.
  intros P projectPath analysis w result Hrun.
  destruct (cleanProject_reports P projectPath analysis w result Hrun)
    as (sn & sp & sd & freed & Hn & Hp & Hd & Hf & _ & E).
  injection E as E1 E2 E3 E4. rewrite E1, E2, E4. simpl.
  split; [exact Hn |]. split; [exact Hp | lia].
Qed.

(** X12. The only directory [cleanProject] ever reports as removed is
    [node_modules]: the directories it prunes as empty are removed without
    being reported. *)
Theorem cleanProject_reports_no_pruned_directory :
  forall (P : Platform) (projectPath : string) (analysis : AnalysisResult.t)
         (w : Fs.World) (result : CleanResult.t),
    fst (cleanProject P projectPath analysis w) = Return result ->
    CleanResult.removedDirs result = []
    \/ CleanResult.removedDirs result = [ "node_modules" ].
Proof.
  intros P projectPath analysis w result Hrun.
  destruct (cleanProject_reports P projectPath analysis w result Hrun)
    as (sn & sp & sd & freed & Hn & Hp & Hd & Hf & _ & E).
  injection E as E1 E2 E3 E4. rewrite E3. simpl.
  apply sublist_cons_r in Hd. destruct Hd as [Hd | (sd' & -> & Hd)];
    apply sublist_nil_r in Hd; subst; [left | right]; reflexivity.
Qed.

Lemma cleanProject_reports_only_what_was_listed_witness :
  exists result,
    fst (cleanProject Session.platform "/p"
           (AnalysisResult.mk [] [ UnusedFile.mk "b.js" "" 0 ]) Scenario.extensionless)
    = Return result
    /\ CleanResult.removedDependencies result `sublist_of` []
    /\ CleanResult.removedFiles result `sublist_of` [ "b.js" ]
    /\ (0 <= CleanResult.freedSpace result)%Z.
Proof.
  eexists. split; [vm_compute; reflexivity |].
  apply (cleanProject_reports_only_what_was_listed Session.platform "/p"
           (AnalysisResult.mk [] [ UnusedFile.mk "b.js" "" 0 ]) Scenario.extensionless).
  vm_compute. reflexivity.
Defined.

Lemma cleanProject_reports_no_pruned_directory_witness :
  exists result,
    fst (cleanProject Session.platform "/p" Session.unusedLodash Session.withModules)
    = Return result
    /\ (CleanResult.removedDirs result = []
        \/ CleanResult.removedDirs result = [ "node_modules" ]).
Proof.
  eexists. split; [vm_compute; reflexivity |].
  apply (cleanProject_reports_no_pruned_directory Session.platform "/p"
           Session.unusedLodash Session.withModules).
  vm_compute. reflexivity.
Defined.

(** X13. The space [cleanProject] reports as freed comes from the unused
    files alone: when the analysis lists no file it is 0, also when
    dependencies were removed from the manifest and the whole of
    [node_modules] was deleted. *)
Theorem cleanProject_frees_nothing_without_files :
  forall (P : Platform) (projectPath : string) (analysis : AnalysisResult.t)
         (w : Fs.World) (result : CleanResult.t),
    AnalysisResult.unusedFiles analysis = [] ->
    fst (cleanProject P projectPath analysis w) = Return result ->
    CleanResult.freedSpace result = 0%Z.
Proof.
  intros P projectPath analysis w result Hnone Hrun.
  destruct (cleanProject_reports P projectPath analysis w result Hrun)
    as (sn & sp & sd & freed & Hn & Hp & Hd & Hf & Hzero & E).
  injection E as E1 E2 E3 E4. rewrite E4, Hzero; [reflexivity |].
  rewrite Hnone. reflexivity.
Qed.

Lemma cleanProject_frees_nothing_without_files_witness :
  exists result,
    fst (cleanProject Session.platform "/p" Session.unusedLodash Session.withModules)
    = Return result
    /\ CleanResult.removedDirs result = [ "node_modules" ]
    /\ CleanResult.freedSpace result = 0%Z.
Proof.
  eexists. split; [vm_compute; reflexivity |]. split; [reflexivity |].
  apply (cleanProject_frees_nothing_without_files Session.platform "/p"
           Session.unusedLodash Session.withModules);
    [reflexivity | vm_compute; reflexivity].
Defined.

(** ** What the analysis prints *)

Section AnalysisOutput.
Variable P : Platform.

Local Abbreviation quiet := (@onWorld AnalyzeLocals warnsOnly).

Lemma warnsOnly_refl w : warnsOnly w w.
Proof. exists []. rewrite app_nil_r. split; [reflexivity | constructor]. Qed.

Lemma warnsOnly_trans w1 w2 w3 : warnsOnly w1 w2 -> warnsOnly w2 w3 -> warnsOnly w1 w3.
Proof.
  intros (l1 & E1 & H1) (l2 & E2 & H2). exists (l1 ++ l2).
  rewrite E2, E1, app_assoc. split; [reflexivity |].
  apply Forall_app. split; assumption.
Qed.

Lemma quiet_refl s : quiet s s.
Proof. apply warnsOnly_refl. Qed.

Lemma quiet_trans s1 s2 s3 : quiet s1 s2 -> quiet s2 s3 -> quiet s1 s3.
Proof. apply warnsOnly_trans. Qed.

Lemma quiet_inert {A} (m : M (Fs.World * AnalyzeLocals) A) : inert m -> stable quiet m.
Proof. apply stable_inert. exact quiet_refl. Qed.

Lemma quiet_inLocals {A} (m : M AnalyzeLocals A) : stable quiet (inLocals m).
Proof.
  intros s. unfold onWorld, inLocals. destruct (m (snd s)) as [o l].
  apply warnsOnly_refl.
Qed.

Lemma quiet_analyzeFile projectPath file : stable quiet (analyzeFile P projectPath file).
Proof.
  unfold analyzeFile.
  apply (stable_bind quiet quiet_trans);
    [apply quiet_inert, inert_inWorld, inert_readFile |].
  intros content. apply (stable_bind quiet quiet_trans);
                    [apply quiet_inert, inert_inWorld, inert_stat |].
  intros fileStat. apply (stable_bind quiet quiet_trans); [apply quiet_inLocals |].
  intros _. apply (stable_tryCatch quiet quiet_trans).
  - apply (stable_bind quiet quiet_trans); [apply quiet_inert, inert_liftResult |].
    intros ast. apply (stable_bind quiet quiet_trans); [apply quiet_inLocals |].
    intros _. apply (stable_bind quiet quiet_trans); [apply quiet_inert, inert_gets |].
    intros used. apply (stable_bind quiet quiet_trans);
                   [apply quiet_inert, inert_gets |].
    intros imports.
    destruct (negb used && negb (bool_decide (is_Some (imports !! file))));
      [apply quiet_inLocals | apply (stable_ret quiet quiet_refl)].
  - intros e s. exists [ (Fs.LWarn, parseWarning file e) ].
    split; [reflexivity |]. constructor; [| constructor]. exists file, e. reflexivity.
Qed.

Lemma quiet_analyzeProject projectPath :
  stable warnsOnly (analyzeProject P projectPath).
Proof.
  unfold analyzeProject.
  apply (stable_tryCatch warnsOnly warnsOnly_trans);
    [| intros e; apply (stable_throw warnsOnly warnsOnly_refl)].
  apply (stable_bind warnsOnly warnsOnly_trans);
    [apply (stable_inert warnsOnly _ warnsOnly_refl), inert_readFile |].
  intros text. apply (stable_bind warnsOnly warnsOnly_trans);
                 [apply (stable_liftResult warnsOnly warnsOnly_refl) |].
  intros packageJson. apply (stable_bind warnsOnly warnsOnly_trans);
                        [apply (stable_inert warnsOnly _ warnsOnly_refl), inert_getProp |].
  intros dependencies. apply (stable_bind warnsOnly warnsOnly_trans);
                         [apply (stable_inert warnsOnly _ warnsOnly_refl), inert_getProp |].
  intros devDependencies. apply (stable_bind warnsOnly warnsOnly_trans);
                            [apply (stable_inert warnsOnly _ warnsOnly_refl),
                              inert_runGlob |].
  intros files. apply (onWorld_withLocals warnsOnly).
  apply (stable_bind quiet quiet_trans).
  { apply (stable_forOf quiet quiet_refl quiet_trans). intros file _.
    apply quiet_analyzeFile. }
  intros _. apply (stable_bind quiet quiet_trans).
  { apply (stable_forOf quiet quiet_refl quiet_trans). intros entry acc s.
    destruct (checkDependency_run P projectPath entry acc s) as (out & E & _).
    rewrite E. apply quiet_refl. }
  intros unusedDependencies. apply (stable_bind quiet quiet_trans);
                               [apply quiet_inert, inert_gets |].
  intros unused. apply (stable_ret quiet quiet_refl).
Qed.

End AnalysisOutput.

(** X14. All [analyzeProject] ever prints are warnings about files that
    could not be parsed: the console afterwards is the console before,
    followed by lines of the form [Warning: Could not parse <file>: <message>]
    on [console.warn], whether the analysis returns or throws. *)
Theorem analyzeProject_prints_only_parse_warnings :
  forall (P : Platform) (projectPath : string) (w : Fs.World),
    exists lines,
      Fs.console (snd (analyzeProject P projectPath w)) = Fs.console w ++ lines
      /\ Forall (fun line =>
                   exists file e,
                     line = (Fs.LWarn,
                             "Warning: Could not parse " +:+ file +:+ ": "
                             +:+ message e))
                lines.
Proof. intros P projectPath w. exact (quiet_analyzeProject P projectPath w). Qed.

(** ** Running the analysis again *)

Lemma bind_fst_eq {S A B} (m : M S A) (k : A -> M S B) (s1 s2 : S) :
  fst (m s1) = fst (m s2) ->
  (forall a, fst (m s1) = Return a -> fst (k a (snd (m s1))) = fst (k a (snd (m s2)))) ->
  fst (bind m k s1) = fst (bind m k s2).
Proof.
  unfold bind. destruct (m s1) as [o1 t1], (m s2) as [o2 t2]. simpl.
  intros <- Hk. destruct o1; [apply Hk; reflexivity | reflexivity | reflexivity].
Qed.

Section Repeatable.
Variable P : Platform.
Variable projectPath : string.

Lemma agree_bind {A B} (m : M Fs.World A) (k : A -> M Fs.World B) (w w' : Fs.World) :
  inert m -> fst (m w) = fst (m w') -> (forall a, fst (k a w) = fst (k a w')) ->
  fst (bind m k w) = fst (bind m k w').
Proof.
  intros Hi Hm Hk. apply bind_fst_eq; [exact Hm |].
  intros a _. rewrite (proj1 (Hi w)), (proj1 (Hi w')). apply Hk.
Qed.

Lemma checkDependencies_state entries acc (s : Fs.World * AnalyzeLocals) :
  snd (forOf entries (checkDependency P projectPath) acc s) = s.
Proof.
  destruct (checkDependencies_run P projectPath entries acc s) as (out & E & _).
  rewrite E. reflexivity.
Qed.

(** What the analysis returns or throws depends on the tree alone, not on
    what was printed before. *)
Lemma analyzeProject_observes_tree (w w' : Fs.World) :
  Fs.fs w = Fs.fs w' ->
  fst (analyzeProject P projectPath w) = fst (analyzeProject P projectPath w').
Proof.
  intros Hfs. unfold analyzeProject.
  assert (Htry : forall m : M Fs.World AnalysisResult.t,
             fst (m w) = fst (m w') ->
             fst (tryCatch m (fun error =>
                    throw (mkError "Error"
                             ("Failed to analyze project: " +:+ message error))) w)
             = fst (tryCatch m (fun error =>
                      throw (mkError "Error"
                               ("Failed to analyze project: " +:+ message error))) w')).
  { intros m H. unfold tryCatch.
    destruct (m w) as [o1 s1], (m w') as [o2 s2]. simpl in H. subst o2.
    destruct o1; reflexivity. }
  apply Htry.
  apply agree_bind; [apply inert_readFile | apply readFile_tree; exact Hfs |].
  intros text. apply agree_bind;
                 [apply inert_liftResult | destruct (JSON_parse P text); reflexivity |].
  intros packageJson. apply agree_bind;
                        [apply inert_getProp | destruct packageJson; reflexivity |].
  intros dependencies. apply agree_bind;
                         [apply inert_getProp | destruct packageJson; reflexivity |].
  intros devDependencies. apply agree_bind;
                            [apply inert_runGlob
                            | apply observesTree_runGlob; exact Hfs |].
  intros files.
  match goal with
  | |- fst (withLocals ?init ?body w) = fst (withLocals ?init ?body w') =>
      assert (Hbody : fst (body (w, init)) = fst (body (w', init)));
      [| unfold withLocals; destruct (body (w, init)), (body (w', init)); exact Hbody]
  end.
  assert (Hsim : similar (w, mkAnalyzeLocals ∅ [] ∅ false)
                         (w', mkAnalyzeLocals ∅ [] ∅ false)).
  { repeat split. exact Hfs. }
  destruct (analyzeFiles_similar P projectPath files _ _ Hsim) as [Ho Hs].
  apply bind_fst_eq; [exact Ho |].
  intros [] _. apply bind_fst_eq; [apply checkDependencies_similar; exact Hs |].
  intros unusedDependencies _. rewrite !checkDependencies_state.
  destruct Hs as (_ & _ & Hunused & _).
  unfold bind, local, gets, ret. simpl. rewrite Hunused. reflexivity.
Qed.

End Repeatable.

(** X15. The analysis is repeatable: run again on the world an analysis
    left (the same tree, a console that may hold its warnings), it returns
    the same result or throws the same error as the first time. *)
Theorem analyzeProject_is_repeatable :
  forall (P : Platform) (projectPath : string) (w : Fs.World),
    fst (analyzeProject P projectPath (snd (analyzeProject P projectPath w)))
    = fst (analyzeProject P projectPath w).
Proof.
  intros P projectPath w. apply analyzeProject_observes_tree.
  apply preservesTree_analyzeProject.
Qed.

(** ** The shape of the result of the analysis *)

Section ResultShape.
Variable P : Platform.
Variable projectPath : string.

Lemma readable_or_not w file : readable P w file \/ ~ readable P w file.
Proof.
  unfold readable.
  destruct (fst (Fs.readFile (cwd P) file w)) as [c | e | ];
    [| right; intros (c & st & H & _); discriminate ..].
  destruct (fst (Fs.stat (cwd P) file w)) as [st | e | ];
    [left; eauto | right; intros (c' & st & _ & H); discriminate ..].
Qed.

(** One iteration pushes at most the path of its file. *)
Lemma fileStep_paths file s :
  exists sub,
    sub `sublist_of` [ Spec.reportedPath projectPath file ]
    /\ map UnusedFile.path (unusedFiles (snd (snd (fileStep P projectPath file s))))
       = map UnusedFile.path (unusedFiles (snd s)) ++ sub.
Proof.
  destruct s as [w l].
  destruct (readable_or_not w file) as [(content & fileStat & Hc & Hs) | Hno].
  - destruct (fileStep_readable P projectPath file w l content fileStat Hc Hs)
      as (w' & pre & extra & E & _ & Hfail & Hok).
    simpl in E. rewrite E. simpl. rewrite register_unusedFiles. simpl.
    rewrite map_app. exists (map UnusedFile.path extra). split; [| reflexivity].
    destruct (parse P content) as [e | ast] eqn:Hp.
    + destruct (Hfail e eq_refl) as (_ & -> & _). apply sublist_nil_l.
    + destruct (Hok ast eq_refl) as (suf & _ & Hf & Ht).
      destruct (Spec.hasRequireOfNonString ast).
      * rewrite (Ht eq_refl). apply sublist_nil_l.
      * destruct (Hf eq_refl) as [_ ->].
        destruct (negb _ && negb _); [reflexivity | apply sublist_nil_l].
  - destruct (fileStep_unreadable P projectPath file w l Hno) as (e & E).
    rewrite E. exists []. simpl. rewrite app_nil_r.
    split; [apply sublist_nil_l | reflexivity].
Qed.

(** The loop pushes paths of candidates, in the order of the candidates. *)
Lemma analyzeFiles_paths files s :
  exists sub,
    sub `sublist_of` map (Spec.reportedPath projectPath) files
    /\ map UnusedFile.path (unusedFiles (snd (snd (analyzeFiles P projectPath files s))))
       = map UnusedFile.path (unusedFiles (snd s)) ++ sub.
Proof.
  revert s. induction files as [| file files IH]; intros s.
  - exists []. simpl. rewrite app_nil_r. split; [reflexivity | reflexivity].
  - rewrite analyzeFiles_cons.
    destruct (fileStep_paths file s) as (sub1 & Hsub1 & E1).
    destruct (fileStep P projectPath file s) as [[[] | e | ] s1]; simpl in E1.
    + destruct (IH s1) as (sub2 & Hsub2 & E2).
      exists (sub1 ++ sub2). rewrite E2, E1, app_assoc. split; [| reflexivity].
      exact (sublist_app _ _ _ _ Hsub1 Hsub2).
    + exists sub1. split; [| exact E1].
      apply (sublist_inserts_r (map (Spec.reportedPath projectPath) files)) in Hsub1.
      exact Hsub1.
    + exists sub1. split; [| exact E1].
      apply (sublist_inserts_r (map (Spec.reportedPath projectPath) files)) in Hsub1.
      exact Hsub1.
Qed.

(** When the analysis returns, the manifest was read, [glob] listed the
    candidates and the loop over them returned; the result holds the unused
    files the loop collected and the declared names that no file used. *)
Lemma analyzeProject_result w result :
  fst (analyzeProject P projectPath w) = Return result ->
  exists packageJson files w' l',
    manifestReads P projectPath w packageJson
    /\ candidates P projectPath w files
    /\ analyzeFiles P projectPath files (w, initialLocals) = (Return tt, (w', l'))
    /\ AnalysisResult.unusedFiles result = unusedFiles l'
    /\ map UnusedDependency.name (AnalysisResult.unusedDependencies result)
       = List.filter (fun name => negb (bool_decide (name ∈ usedDependencies l')))
                     (declaredNames packageJson).
Proof.
  intros Hrun.
  destruct (manifest_read_or_thrown P projectPath w) as [(packageJson & Hm) | (e & E)];
    [| rewrite E in Hrun; discriminate Hrun].
  exists packageJson.
  destruct (glob P "**/*.{js,jsx,ts,tsx}"
              (mkGlobOptions
                 [ "**/node_modules/**"; "**/dist/**"; "**/build/**"; "**/.git/**" ]
                 projectPath true false)
              (Fs.fs w)) as [e | files] eqn:Hglob.
  - exfalso. destruct Hm as (text & Hread & Hparse & Hnull).
    revert Hrun. unfold analyzeProject, tryCatch. unfold bind at 1.
    rewrite (inert_run _ w (inert_readFile P _)), Hread.
    unfold bind at 1. rewrite Hparse. simpl liftResult. unfold ret at 1.
    destruct packageJson; try contradiction;
      simpl; unfold bind at 1; unfold runGlob, bind, gets; simpl;
      rewrite Hglob; simpl; discriminate.
  - exists files.
    destruct (analyzeFiles P projectPath files (w, initialLocals))
      as [[[] | e | ] [w' l']] eqn:Hloop.
    + exists w', l'.
      destruct (analyzeProject_returns P projectPath w packageJson files w' l'
                  Hm Hglob Hloop) as (deps & Erun & Hnames).
      rewrite Erun in Hrun. injection Hrun as <-.
      split; [exact Hm |]. split; [exact Hglob |]. split; [reflexivity |].
      split; [reflexivity | exact Hnames].
    + rewrite (analyzeProject_throws P projectPath w packageJson files e (w', l')
                 Hm Hglob Hloop) in Hrun.
      discriminate Hrun.
    + exfalso.
      pose proof (fuelFree_forOf files (fun file _ => analyzeFile P projectPath file) tt
                    (fun file b => fuelFree_analyzeFile P projectPath file)
                    (w, initialLocals)) as Hfuel.
      unfold analyzeFiles in Hloop. rewrite Hloop in Hfuel. apply Hfuel. reflexivity.
Qed.

End ResultShape.

(** X16. The unused files are reported in the order in which [glob] listed
    the candidates, each candidate at most once: when [analyzeProject]
    returns, the paths of its unused files are a subsequence of the
    candidates' paths with the project prefix removed. *)
Theorem unused_files_are_reported_in_glob_order :
  forall (P : Platform) (projectPath : string) (w : Fs.World)
         (result : AnalysisResult.t),
    fst (analyzeProject P projectPath w) = Return result ->
    exists files,
      glob P "**/*.{js,jsx,ts,tsx}"
           (mkGlobOptions
              [ "**/node_modules/**"; "**/dist/**"; "**/build/**"; "**/.git/**" ]
              projectPath true false)
           (Fs.fs w) = inr files
      /\ map UnusedFile.path (AnalysisResult.unusedFiles result)
           `sublist_of` map (fun file => JsString.replace (projectPath +:+ "/") "" file)
                            files.
Proof.
  intros P projectPath w result Hrun.
  destruct (analyzeProject_result P projectPath w result Hrun)
    as (packageJson & files & w' & l' & _ & Hfiles & Hloop & Hunused & _).
  exists files. split; [exact Hfiles |].
  destruct (analyzeFiles_paths P projectPath files (w, initialLocals))
    as (sub & Hsub & E).
  rewrite Hloop in E. simpl in E. rewrite Hunused, E. exact Hsub.
Qed.

Lemma unused_files_are_reported_in_glob_order_witness :
  fst (analyzeProject Session.platform "/p" Scenario.extensionless)
  = Return (AnalysisResult.mk [] [ UnusedFile.mk "b.js" "2023-11-14T22:13:20.000Z" 0 ])
  /\ exists files,
       glob Session.platform "**/*.{js,jsx,ts,tsx}"
         (mkGlobOptions
            [ "**/node_modules/**"; "**/dist/**"; "**/build/**"; "**/.git/**" ]
            "/p" true false)
         (Fs.fs Scenario.extensionless) = inr files
       /\ map UnusedFile.path
             (AnalysisResult.unusedFiles
                (AnalysisResult.mk
                   [] [ UnusedFile.mk "b.js" "2023-11-14T22:13:20.000Z" 0 ]))
           `sublist_of` map (fun file => JsString.replace ("/p" +:+ "/") "" file) files.
Proof.
  split; [vm_compute; reflexivity |].
  apply (unused_files_are_reported_in_glob_order Session.platform "/p"
           Scenario.extensionless).
  vm_compute. reflexivity.
Defined.

(** ** The merged table of dependencies *)

Section MergedTable.














End MergedTable.

Section ReportedDependencies.
Variable P : Platform.
Variable projectPath : string.

Local Abbreviation declaration :=
  (fun d : UnusedDependency.t => (UnusedDependency.name d, UnusedDependency.version d)).




End ReportedDependencies.



(** ** Specifiers with a path below the package *)

Lemma startsWith_append (name rest p : string) :
  name <> "" -> String.length p = 1 ->
  JsString.startsWith (name +:+ rest) p = JsString.startsWith name p.
Proof.
  intros Hname Hp. destruct name as [| c name]; [contradiction |].
  destruct p as [| a [| b p]]; try discriminate Hp.
  rewrite append_cons. unfold JsString.startsWith. simpl.
  destruct (ascii_dec a c); [| reflexivity].
  destruct (name +:+ rest), name; reflexivity.
Qed.

(** X18. A specifier that names a path below a package counts for the
    package: for a name that is not empty, holds no separator and does not
    start with a dot, [import ... from 'name/rest'] and
    [require('name/rest')] add exactly [name] to the used dependencies, and
    change nothing else. *)
Theorem subpath_specifier_registers_the_package :
  forall (P : Platform) (file name rest : string) (l : AnalyzeLocals),
    name <> "" ->
    Spec.isInternal name = false ->
    JsString.split JsString.slash name = [ name ] ->
    visitImportDeclaration P file (name +:+ "/" +:+ rest) l
    = (Return tt,
       mkAnalyzeLocals ({[ name ]} ∪ usedDependencies l) (unusedFiles l)
                       (fileImports l) (isUsed l))
    /\ visitCallExpression P file (Ast.Identifier "require")
         [ Ast.Literal (Ast.VString (name +:+ "/" +:+ rest)) ] l
       = (Return tt,
          mkAnalyzeLocals ({[ name ]} ∪ usedDependencies l) (unusedFiles l)
                          (fileImports l) (isUsed l)).
Proof.
  intros P file name rest l Hname Hexternal Hsplit.
  unfold Spec.isInternal in Hexternal. apply orb_false_elim in Hexternal.
  destruct Hexternal as [Hdot Hslash].
  assert (Hfirst : JsString.first (JsString.split JsString.slash (name +:+ "/" +:+ rest))
                   = name).
  { change (name +:+ "/" +:+ rest) with (name +:+ String JsString.slash rest).
    rewrite split_append, Hsplit. reflexivity. }
  unfold visitImportDeclaration, visitCallExpression. simpl.
  rewrite !(startsWith_append name ("/" +:+ rest)) by (assumption || reflexivity).
  rewrite Hdot, Hslash, Hfirst. simpl. split; reflexivity.
Qed.

Lemma subpath_specifier_registers_the_package_witness :
  fst (visitImportDeclaration Demo.platform "/p/a.js" ("lodash" +:+ "/" +:+ "fp")
         initialLocals)
  = Return tt
  /\ "lodash" ∈ usedDependencies
                  (snd (visitImportDeclaration Demo.platform "/p/a.js"
                          ("lodash" +:+ "/" +:+ "fp") initialLocals)).
Proof.
  destruct (subpath_specifier_registers_the_package Demo.platform "/p/a.js"
              "lodash" "fp" initialLocals
              ltac:(discriminate) eq_refl eq_refl) as [E _].
  rewrite E. split; [reflexivity |]. simpl. set_solver.
Defined.

(** ** From the analysis to the cleanup: the path of a file *)

Section RoundTrip.
Import Spec.

Lemma join_app segs rest :
  segs <> [] -> rest <> [] ->
  JsString.join "/" (segs ++ rest)
  = JsString.join "/" segs +:+ "/" +:+ JsString.join "/" rest.
Proof.
  intros Hsegs Hrest. induction segs as [| x segs IH]; [contradiction |].
  destruct segs as [| y segs'].
  - destruct rest as [| r rest']; [contradiction | reflexivity].
  - change (JsString.join "/" ((x :: y :: segs') ++ rest))
      with (x +:+ "/" +:+ JsString.join "/" ((y :: segs') ++ rest)).
    rewrite IH by discriminate.
    change (JsString.join "/" (x :: y :: segs'))
      with (x +:+ "/" +:+ JsString.join "/" (y :: segs')).
    rewrite !append_assoc. reflexivity.
Qed.

Lemma plainSegment_head seg :
  plainSegment seg ->
  exists c tail, seg = String c tail /\ c <> JsString.slash.
Proof.
  intros Hseg. pose proof (split_single_no_separator _ _ (plainSegment_split seg Hseg)) as H.
  destruct Hseg as (_ & Hne & _). destruct seg as [| c tail]; [contradiction |].
  exists c, tail. split; [reflexivity |].
  simpl in H. inversion H as [| x xs Hc _]. subst.
  intros ->. rewrite Ascii.eqb_refl in Hc. discriminate Hc.
Qed.

Lemma join_head seg rest :
  plainSegment seg ->
  exists c tail, JsString.join "/" (seg :: rest) = String c tail /\ c <> JsString.slash.
Proof.
  intros Hseg. destruct (plainSegment_head seg Hseg) as (c & tail & -> & Hc).
  destruct rest as [| r rest'].
  - exists c, tail. split; [reflexivity | exact Hc].
  - exists c, (tail +:+ "/" +:+ JsString.join "/" (r :: rest')).
    split; [| exact Hc].
    change (JsString.join "/" (String c tail :: r :: rest'))
      with (String c tail +:+ "/" +:+ JsString.join "/" (r :: rest')).
    rewrite append_cons. reflexivity.
Qed.

Lemma startsWith_no_slash c tail :
  c <> JsString.slash -> JsString.startsWith (String c tail) "/" = false.
Proof.
  intros Hc. unfold JsString.startsWith. cbn [String.prefix].
  destruct (ascii_dec "/" c) as [E | _]; [| reflexivity].
  exfalso. apply Hc. symmetry. exact E.
Qed.

Lemma startsWith_slash tail : JsString.startsWith (String "/" tail) "/" = true.
Proof.
  unfold JsString.startsWith. cbn [String.prefix].
  destruct (ascii_dec "/" "/") as [_ | Hne]; [destruct tail; reflexivity |].
  contradiction.
Qed.

Lemma resolveLoop_cons path rest acc :
  Path.resolveLoop (path :: rest) acc
  = if String.eqb path "" then Path.resolveLoop rest acc
    else if JsString.startsWith path "/" then (path +:+ "/" +:+ acc, true)
         else Path.resolveLoop rest (path +:+ "/" +:+ acc).
Proof. reflexivity. Qed.

(** A relative path of plain names resolves below the directory. *)
Lemma resolve_relative_path cwd segs rest :
  Forall plainSegment segs -> Forall plainSegment rest -> rest <> [] ->
  Path.resolve cwd [ absolute segs; JsString.join "/" rest ] = absolute (segs ++ rest).
Proof.
  intros Hsegs Hrest Hne. unfold Path.resolve, absolute.
  set (dir := JsString.join "/" segs).
  set (rel := JsString.join "/" rest).
  assert (Hloop : Path.resolveLoop (rev [ "/" +:+ dir; rel ] ++ [ cwd ]) ""
                  = (String JsString.slash
                       (dir +:+ String JsString.slash (rel +:+ String JsString.slash "")),
                     true)).
  { destruct rest as [| r rest']; [contradiction |].
    inversion Hrest as [| x xs Hr _]. subst.
    destruct (join_head r rest' Hr) as (c & tail & E & Hc).
    unfold rel. rewrite E. cbn [rev app].
    rewrite resolveLoop_cons. change (String.eqb (String c tail) "") with false.
    cbv iota. rewrite (startsWith_no_slash c tail Hc), resolveLoop_cons.
    change ("/" +:+ dir) with (String JsString.slash dir).
    change (String.eqb (String JsString.slash dir) "") with false.
    cbv iota. rewrite startsWith_slash.
    rewrite !append_cons, !append_nil. reflexivity. }
  rewrite Hloop. unfold Path.normalizeString. simpl negb.
  assert (Hsplit : JsString.split JsString.slash
                     (String JsString.slash
                        (dir +:+ String JsString.slash (rel +:+ String JsString.slash "")))
                   = "" :: JsString.split JsString.slash dir ++ rest ++ [ "" ]).
  { change (JsString.split JsString.slash (String JsString.slash ?x))
      with ("" :: JsString.split JsString.slash x).
    rewrite !split_append. unfold rel. rewrite (split_join rest Hrest Hne).
    reflexivity. }
  rewrite Hsplit.
  change (Path.normalizeSegments false ("" :: ?l) [])
    with (Path.normalizeSegments false l []).
  unfold dir. destruct segs as [| seg segs'].
  - simpl JsString.join. simpl JsString.split.
    change (Path.normalizeSegments false ([ "" ] ++ ?l) [])
      with (Path.normalizeSegments false l []).
    rewrite (normalizeSegments_plain false rest _ [] Hrest).
    change (Path.normalizeSegments false [ "" ] ?r) with (rev r).
    rewrite app_nil_r, rev_involutive. reflexivity.
  - rewrite (split_join (seg :: segs') Hsegs) by discriminate.
    rewrite app_assoc.
    rewrite (normalizeSegments_plain false ((seg :: segs') ++ rest) _ []).
    + change (Path.normalizeSegments false [ "" ] ?r) with (rev r).
      rewrite app_nil_r, rev_involutive. reflexivity.
    + apply Forall_app. split; assumption.
Qed.

End RoundTrip.

(** X19. The path under which the analysis reports a file leads the cleanup
    back to that file: for a project directory and a candidate below it, both
    given by plain names, [resolve(projectPath, path)] of the reported
    [path = file.replace(projectPath + '/', '')] is the candidate itself. *)
Theorem reported_path_resolves_to_the_file :
  forall (cwd : string) (segs rest : list string),
    Forall Spec.plainSegment segs -> Forall Spec.plainSegment rest ->
    segs <> [] -> rest <> [] ->
    Path.resolve cwd
      [ Spec.absolute segs;
        JsString.replace (Spec.absolute segs +:+ "/") ""
                         (Spec.absolute (segs ++ rest)) ]
    = Spec.absolute (segs ++ rest).
Proof.
  intros cwd segs rest Hsegs Hrest Hs Hr.
  assert (E : Spec.absolute (segs ++ rest)
              = Spec.absolute segs +:+ "/" +:+ JsString.join "/" rest).
  { unfold Spec.absolute. rewrite (join_app segs rest Hs Hr), !append_assoc.
    reflexivity. }
  rewrite E at 1.
  change (JsString.replace (Spec.absolute segs +:+ "/") ""
            (Spec.absolute segs +:+ "/" +:+ JsString.join "/" rest))
    with (Spec.reportedPath (Spec.absolute segs)
            (Spec.absolute segs +:+ "/" +:+ JsString.join "/" rest)).
  rewrite reportedPath_under_project.
  apply resolve_relative_path; assumption.
Qed.

Lemma reported_path_resolves_to_the_file_witness :
  Path.resolve "/"
    [ Spec.absolute [ "p" ];
      JsString.replace (Spec.absolute [ "p" ] +:+ "/") ""
                       (Spec.absolute ([ "p" ] ++ [ "src"; "a.js" ])) ]
  = Spec.absolute ([ "p" ] ++ [ "src"; "a.js" ]).
Proof.
  apply (reported_path_resolves_to_the_file "/" [ "p" ] [ "src"; "a.js" ]);
    repeat constructor; discriminate.
Defined.

(** ** Rewriting the manifest *)

Section WriteThenRead.


Variable cwd : string.


End WriteThenRead.

Section ManifestRewrite.
Variable P : Platform.
Variable projectPath : string.

Local Abbreviation manifestPath := (Path.join [ projectPath; "package.json" ]).




End ManifestRewrite.



Section DeletedName.




End DeletedName.




(** ** What else holds of the classification *)

(** X23. Whatever [cleanProject] throws was thrown by the pruning of empty
    directories: errors of rewriting the manifest, of deleting a file, of
    removing [node_modules] and of [npm install] are printed and swallowed,
    and never leave [cleanProject]. *)
Theorem cleanProject_throws_only_what_pruning_throws :
  forall (P : Platform) (projectPath : string) (analysis : AnalysisResult.t)
         (w : Fs.World) (e : Error),
    fst (cleanProject P projectPath analysis w) = Throw e ->
    exists fuel w1, fst (removeEmptyDirectories P fuel projectPath w1) = Throw e.
Proof.
  intros P projectPath analysis w e Hthrow.
  destruct (cleanProject_fails_only_in_pruning P projectPath analysis w)
    as (fuel & w1 & H).
  exists fuel, w1.
  destruct (fst (removeEmptyDirectories P fuel projectPath w1)) as [b | e' | ].
  - destruct H as (result & H). rewrite H in Hthrow. discriminate Hthrow.
  - rewrite H in Hthrow. injection Hthrow as ->. reflexivity.
  - rewrite H in Hthrow. discriminate Hthrow.
Qed.

Lemma cleanProject_throws_only_what_pruning_throws_witness :
  fst (cleanProject Demo.platform "/p"
         (AnalysisResult.mk [] [ UnusedFile.mk "a.js" "" 0 ])
         Scenario.withUnreadableDirectory)
  = Throw (Fs.EACCES "scandir" "/p/secret")
  /\ exists fuel w1,
       fst (removeEmptyDirectories Demo.platform fuel "/p" w1)
       = Throw (Fs.EACCES "scandir" "/p/secret").
Proof.
  split; [vm_compute; reflexivity |].
  apply (cleanProject_throws_only_what_pruning_throws Demo.platform "/p"
           (AnalysisResult.mk [] [ UnusedFile.mk "a.js" "" 0 ])
           Scenario.withUnreadableDirectory).
  vm_compute. reflexivity.
Defined.

(** X24. A call registers nothing and throws nothing unless it is a call of
    the identifier [require] whose first argument is a literal: a call of a
    member such as [loader.require('x')], [require()] and [require(name)]
    leave the variables of the analysis as they are. *)
Theorem call_that_is_no_literal_require_is_skipped :
  forall (P : Platform) (file : string) (callee : Ast.Node)
         (arguments : list Ast.Node) (l : AnalyzeLocals),
    Ast.name callee <> Some "require"
    \/ match arguments with
       | Ast.Literal _ :: _ => False
       | _ => True
       end ->
    visitCallExpression P file callee arguments l = (Return tt, l).
Proof.
  intros P file callee arguments l [Hcallee | Hargs].
  - unfold visitCallExpression.
    destruct (Ast.name callee) as [calleeName |]; [| reflexivity].
    destruct (String.eqb_spec calleeName "require") as [-> | _]; [| reflexivity].
    contradiction Hcallee. reflexivity.
  - apply require_without_literal_is_skipped. exact Hargs.
Qed.

Lemma call_that_is_no_literal_require_is_skipped_witness :
  visitCallExpression Demo.platform "/p/a.js" (Ast.Identifier "require")
    [ Ast.Identifier "name" ] initialLocals
  = (Return tt, initialLocals)
  /\ visitCallExpression Demo.platform "/p/a.js"
       (Ast.Other "MemberExpression" [ Ast.Identifier "loader"; Ast.Identifier "require" ])
       [ Ast.Literal (Ast.VString "x") ] initialLocals
     = (Return tt, initialLocals).
Proof.
  split.
  - apply (call_that_is_no_literal_require_is_skipped Demo.platform "/p/a.js"
             (Ast.Identifier "require") [ Ast.Identifier "name" ] initialLocals).
    right. exact I.
  - reflexivity.
Defined.

Section UnusedEntries.
Variable P : Platform.
Variable projectPath : string.

(** Every entry of the unused files is the entry of a candidate that was
    read, examined and parsed, and that holds no Internal specifier. *)
Lemma unused_file_entry w result x :
  fst (analyzeProject P projectPath w) = Return result ->
  In x (AnalysisResult.unusedFiles result) ->
  exists files file content stats tree,
    candidates P projectPath w files
    /\ In file files
    /\ fst (Fs.readFile (cwd P) file w) = Return content
    /\ fst (Fs.stat (cwd P) file w) = Return stats
    /\ parse P content = inr tree
    /\ existsb Spec.isInternal (Spec.specifiers tree) = false
    /\ x = unusedEntry P projectPath file stats.
Proof.
  intros Hrun Hx.
  destruct (analyzeProject_result P projectPath w result Hrun)
    as (packageJson & files & w' & l' & Hm & Hfiles & Hloop & Hunused & _).
  exists files.
  assert (Hall : forall g, In g files -> readable P w g).
  { intros g Hg.
    destruct (readable_or_not P w g) as [H | H]; [exact H |]. exfalso.
    destruct (analyzeFiles_aborts P projectPath files w g Hg H w initialLocals eq_refl)
      as (e & s2 & Hthrow).
    rewrite Hthrow in Hloop. discriminate Hloop. }
  set (Inv := fun s : Fs.World * AnalyzeLocals =>
                forall x, In x (unusedFiles (snd s)) ->
                  exists file content stats tree,
                    In file files
                    /\ fst (Fs.readFile (cwd P) file w) = Return content
                    /\ fst (Fs.stat (cwd P) file w) = Return stats
                    /\ parse P content = inr tree
                    /\ existsb Spec.isInternal (Spec.specifiers tree) = false
                    /\ x = unusedEntry P projectPath file stats).
  destruct (analyzeFiles_invariant P projectPath Inv files w Hall)
    with (s1 := (w, initialLocals)) as ([w2 l2] & E & _ & Hinv).
  { intros g [w1 l1] s3 Hg Hfs Hi Estep. simpl in Hfs.
    destruct (readable_tree P g w w1 (eq_sym Hfs) (Hall g Hg)) as (c & st & Hc & Hs).
    destruct (fileStep_readable P projectPath g w1 l1 c st Hc Hs)
      as (w3 & pre & extra & E' & _ & Hfail & Hok).
    simpl in E'. rewrite E' in Estep. injection Estep as <-.
    intros y Hy. simpl in Hy. rewrite register_unusedFiles in Hy. simpl in Hy.
    apply in_app_or in Hy. destruct Hy as [Hy | Hy]; [exact (Hi y Hy) |].
    destruct (parse P c) as [e | tree] eqn:Hp.
    - destruct (Hfail e eq_refl) as (_ & -> & _). destruct Hy.
    - destruct (Hok tree eq_refl) as (suf & Hspecs & Hfalse & Htrue).
      destruct (Spec.hasRequireOfNonString tree).
      + rewrite (Htrue eq_refl) in Hy. destruct Hy.
      + destruct (Hfalse eq_refl) as [-> Hextra].
        rewrite app_nil_r in Hspecs. subst pre.
        rewrite register_isUsed in Hextra. simpl isUsed in Hextra.
        destruct (existsb Spec.isInternal (Spec.specifiers tree)) eqn:Hint.
        * simpl in Hextra. subst extra. destruct Hy.
        * simpl in Hextra.
          destruct (negb _) in Hextra; subst extra; [| destruct Hy].
          destruct Hy as [<- | []].
          exists g, c, st, tree.
          split; [exact Hg |].
          split; [rewrite <- (readFile_tree P g w1 w Hfs); exact Hc |].
          split; [rewrite <- (stat_tree P g w1 w Hfs); exact Hs |].
          split; [exact Hp |]. split; [exact Hint | reflexivity]. }
  { reflexivity. }
  { intros y []. }
  rewrite E in Hloop. injection Hloop as <- <-.
  rewrite Hunused in Hx.
  destruct (Hinv x Hx) as (file & content & stats & tree & H).
  exists file, content, stats, tree. split; [exact Hfiles | exact H].
Qed.

End UnusedEntries.

(** X25. Every file reported as unused is a candidate [glob] listed that
    could be read, examined and parsed, and that holds no [import] and no
    [require] of a string literal starting with [.] or [/]; its entry carries
    the path without the project prefix, the modification time and the size
    [stat] gave. *)
Theorem unused_file_was_parsed_and_refers_to_no_file :
  forall (P : Platform) (projectPath : string) (w : Fs.World)
         (result : AnalysisResult.t) (x : UnusedFile.t),
    fst (analyzeProject P projectPath w) = Return result ->
    In x (AnalysisResult.unusedFiles result) ->
    exists files file content stats tree,
      glob P "**/*.{js,jsx,ts,tsx}"
           (mkGlobOptions
              [ "**/node_modules/**"; "**/dist/**"; "**/build/**"; "**/.git/**" ]
              projectPath true false)
           (Fs.fs w) = inr files
      /\ In file files
      /\ fst (Fs.readFile (cwd P) file w) = Return content
      /\ fst (Fs.stat (cwd P) file w) = Return stats
      /\ parse P content = inr tree
      /\ existsb Spec.isInternal (Spec.specifiers tree) = false
      /\ x = UnusedFile.mk (JsString.replace (projectPath +:+ "/") "" file)
                           (toISOString P (Fs.stat_mtime stats))
                           (Fs.size stats).
Proof.
  intros P projectPath w result x Hrun Hx.
  exact (unused_file_entry P projectPath w result x Hrun Hx).
Qed.

Lemma unused_file_was_parsed_and_refers_to_no_file_witness :
  exists files file content stats tree,
    glob Session.platform "**/*.{js,jsx,ts,tsx}"
         (mkGlobOptions
            [ "**/node_modules/**"; "**/dist/**"; "**/build/**"; "**/.git/**" ]
            "/p" true false)
         (Fs.fs Scenario.extensionless) = inr files
    /\ In file files
    /\ fst (Fs.readFile "/p" file Scenario.extensionless) = Return content
    /\ fst (Fs.stat "/p" file Scenario.extensionless) = Return stats
    /\ Demo.parse content = inr tree
    /\ existsb Spec.isInternal (Spec.specifiers tree) = false
    /\ UnusedFile.mk "b.js" "2023-11-14T22:13:20.000Z" 0
       = UnusedFile.mk (JsString.replace ("/p" +:+ "/") "" file)
                       (Demo.toISOString (Fs.stat_mtime stats))
                       (Fs.size stats).
Proof.
  apply (unused_file_was_parsed_and_refers_to_no_file Session.platform "/p"
           Scenario.extensionless
           (AnalysisResult.mk [] [ UnusedFile.mk "b.js" "2023-11-14T22:13:20.000Z" 0 ])
           (UnusedFile.mk "b.js" "2023-11-14T22:13:20.000Z" 0)).
  - vm_compute. reflexivity.
  - left. reflexivity.
Defined.



Section ReportedSizes.
Variable P : Platform.
Variable projectPath : string.

Lemma getFolderSize_returns folderPath (w : Fs.World) :
  exists n, getFolderSize P folderPath w = (Return n, w).
Proof.
  unfold getFolderSize. apply inert_tryCatch_returns.
  apply inert_bind; [apply inert_runGlob |].
  intros files. apply inert_bind; [| intros n; apply inert_ret].
  apply inert_forOf. intros file n.
  apply inert_bind; [apply inert_stat | intros stats; apply inert_ret].
Qed.

(** The size pushed for a dependency is the size of its folder. *)
Lemma checkDependency_size entry acc (s : Fs.World * AnalyzeLocals) :
  exists out,
    checkDependency P projectPath entry acc s = (Return out, s)
    /\ forall d,
         In d out ->
         In d acc
         \/ fst (getFolderSize P
                   (Path.join [ projectPath; "node_modules"; UnusedDependency.name d ])
                   (fst s))
            = Return (UnusedDependency.size d).
Proof.
  destruct entry as [name version], s as [w l].
  unfold checkDependency, bind, local, gets. simpl.
  destruct (bool_decide (name ∈ usedDependencies l)); simpl.
  - exists acc. split; [reflexivity |]. intros d Hd. left. exact Hd.
  - set (depPath := Path.join [ projectPath; "node_modules"; name ]).
    destruct (getFolderSize_returns depPath w) as (n & E).
    unfold tryCatch, inWorld. simpl. rewrite E. simpl.
    eexists. split; [reflexivity |].
    intros d Hd. apply in_app_or in Hd. destruct Hd as [Hd | [<- | []]].
    + left. exact Hd.
    + right. simpl. fold depPath. rewrite E. reflexivity.
Qed.

Lemma checkDependencies_sizes entries acc (s : Fs.World * AnalyzeLocals) :
  exists out,
    forOf entries (checkDependency P projectPath) acc s = (Return out, s)
    /\ forall d,
         In d out ->
         In d acc
         \/ fst (getFolderSize P
                   (Path.join [ projectPath; "node_modules"; UnusedDependency.name d ])
                   (fst s))
            = Return (UnusedDependency.size d).
Proof.
  revert acc. induction entries as [| entry entries IH]; intros acc; simpl.
  - exists acc. split; [reflexivity |]. intros d Hd. left. exact Hd.
  - unfold bind.
    destruct (checkDependency_size entry acc s) as (out1 & E1 & H1).
    rewrite E1.
    destruct (IH out1) as (out & E & H). exists out. split; [exact E |].
    intros d Hd. destruct (H d Hd) as [Hin | Hsize]; [exact (H1 d Hin) |].
    right. exact Hsize.
Qed.

Lemma analyzeProject_sizes w result d :
  fst (analyzeProject P projectPath w) = Return result ->
  In d (AnalysisResult.unusedDependencies result) ->
  fst (getFolderSize P
         (Path.join [ projectPath; "node_modules"; UnusedDependency.name d ]) w)
  = Return (UnusedDependency.size d).
Proof.
  intros Hrun Hd.
  destruct (analyzeProject_result P projectPath w result Hrun)
    as (packageJson & files & w' & l' & Hm & Hfiles & Hloop & _ & _).
  assert (Htree : Fs.fs w' = Fs.fs w).
  { pose proof (preservesTree_forOf (fun s : Fs.World * AnalyzeLocals => Fs.fs (fst s))
                  files (fun file _ => analyzeFile P projectPath file) tt
                  (fun file b => preservesTree_analyzeFile P projectPath file)
                  (w, initialLocals)) as H.
    unfold analyzeFiles in Hloop. rewrite Hloop in H. exact H. }
  revert Hrun.
  rewrite (analyzeProject_candidates P projectPath w packageJson files Hm Hfiles).
  unfold tryCatch, analyzeCandidates, withLocals. unfold bind at 1.
  fold initialLocals. rewrite Hloop.
  destruct (checkDependencies_sizes (allDependenciesOf packageJson) [] (w', l'))
    as (out & E & Hout).
  unfold bind at 1. rewrite E. simpl. intros H. injection H as <-. simpl in Hd.
  destruct (Hout d Hd) as [[] | Hsize].
  rewrite <- (observesTree_getFolderSize P _ w' w Htree). exact Hsize.
Qed.

End ReportedSizes.

(** X27. The size reported for an unused dependency is what [getFolderSize]
    gives for [node_modules/<name>] below the project in the tree that was
    analysed: the sum of the sizes of the files there, and 0 for a dependency
    that is not installed. *)
Theorem unused_dependency_size_is_its_folder_size :
  forall (P : Platform) (projectPath : string) (w : Fs.World)
         (result : AnalysisResult.t) (d : UnusedDependency.t),
    fst (analyzeProject P projectPath w) = Return result ->
    In d (AnalysisResult.unusedDependencies result) ->
    fst (getFolderSize P
           (Path.join [ projectPath; "node_modules"; UnusedDependency.name d ]) w)
    = Return (UnusedDependency.size d).
Proof.
  intros P projectPath w result d Hrun Hd.
  exact (analyzeProject_sizes P projectPath w result d Hrun Hd).
Qed.

Lemma unused_dependency_size_is_its_folder_size_witness :
  fst (getFolderSize Session.platform (Path.join [ "/p"; "node_modules"; "lodash" ])
         Session.withModules)
  = Return 16%Z.
Proof.
  apply (unused_dependency_size_is_its_folder_size Session.platform "/p"
           Session.withModules Session.unusedLodash
           (UnusedDependency.mk "lodash" (JStr "^4.17.21") 16)).
  - vm_compute. reflexivity.
  - left. reflexivity.
Defined.

(** ** Deleting one file *)

Section Unlink.

(** A change at a name of a directory that is in the tree is the change of
    that directory's entries. *)
Lemma modifyParent_at f parent name n entries meta entries' :
  Fs.lookup parent n = Some (Fs.IDir entries meta) ->
  f name entries meta = inr entries' ->
  exists n',
    Fs.modifyParent (parent ++ [ name ]) f n = inr n'
    /\ Fs.lookup parent n' = Some (Fs.IDir entries' meta).
Proof.
  intros Hlook Hf. revert n Hlook.
  induction parent as [| s rest IH]; intros n Hlook.
  - simpl in Hlook. injection Hlook as ->.
    exists (Fs.IDir entries' meta). simpl. rewrite Hf. split; reflexivity.
  - destruct n as [c0 m0 | es dm]; [discriminate Hlook |].
    simpl in Hlook. destruct (Fs.assoc s es) as [child |] eqn:Ea; [| discriminate Hlook].
    destruct (IH child Hlook) as (child' & Em & Hl).
    exists (Fs.IDir (Fs.setEntry s child' es) dm). split.
    + change ((s :: rest) ++ [ name ]) with (s :: (rest ++ [ name ])).
      destruct (rest ++ [ name ]) as [| s2 tail] eqn:Etail;
        [destruct rest; discriminate Etail |].
      rewrite modifyParent_below, Ea, Em. reflexivity.
    + simpl. rewrite assoc_setEntry_eq. exact Hl.
Qed.

Lemma assoc_absent name entries :
  ~ In name (map fst entries) -> Fs.assoc name entries = None.
Proof.
  induction entries as [| [n i] rest IH]; simpl; intros Hnotin; [reflexivity |].
  destruct (String.eqb_spec name n) as [-> | Hne].
  - exfalso. apply Hnotin. left. reflexivity.
  - apply IH. intros Hin. apply Hnotin. right. exact Hin.
Qed.

Lemma assoc_removeEntry_eq name entries :
  List.NoDup (map fst entries) -> Fs.assoc name (Fs.removeEntry name entries) = None.
Proof.
  induction entries as [| [n i] rest IH]; simpl; intros Hnd; [reflexivity |].
  inversion Hnd as [| x xs Hnotin Hnd']. subst.
  destruct (String.eqb_spec name n) as [-> | Hne].
  - apply assoc_absent. exact Hnotin.
  - simpl. destruct (String.eqb_spec name n); [contradiction |]. exact (IH Hnd').
Qed.

End Unlink.

(** X28. Deleting a listed file works where nothing stands in the way: when
    the path [resolve(projectPath, file.path)] names a regular file in a
    directory that can be written (and whose names are distinct), then after
    the iteration of [cleanProject] for it the file is gone, its path is
    pushed to the removed files, its size is added to the freed space, and
    nothing is printed. *)
Theorem removeFile_deletes_the_file :
  forall (P : Platform) (projectPath : string) (file : UnusedFile.t)
         (s : Fs.World * CleanLocals) (parent : list string) (name : string)
         (entries : list (string * Fs.Inode)) (meta : Fs.Meta)
         (content : string) (fileMeta : Fs.Meta),
    Fs.segments (cwd P) (Path.resolve (cwd P) [ projectPath; UnusedFile.path file ])
    = parent ++ [ name ] ->
    Fs.lookup parent (Fs.fs (fst s)) = Some (Fs.IDir entries meta) ->
    List.NoDup (map fst entries) ->
    Fs.assoc name entries = Some (Fs.IFile content fileMeta) ->
    Fs.writable meta = true ->
    Fs.lookup (parent ++ [ name ]) (Fs.fs (fst (snd (removeFile P projectPath file s))))
    = None
    /\ removedFiles (snd (snd (removeFile P projectPath file s)))
       = removedFiles (snd s) ++ [ UnusedFile.path file ]
    /\ freedSpace (snd (snd (removeFile P projectPath file s)))
       = (freedSpace (snd s) + Z.of_nat (String.length content))%Z
    /\ Fs.console (fst (snd (removeFile P projectPath file s))) = Fs.console (fst s).
Proof.
  intros P projectPath file [w l] parent name entries meta content fileMeta
         Hsegs Hparent Hnames Hfile Hwritable.
  simpl in Hparent |- *.
  set (fullPath := Path.resolve (cwd P) [ projectPath; UnusedFile.path file ]) in *.
  assert (Hlook : Fs.lookup (Fs.segments (cwd P) fullPath) (Fs.fs w)
                  = Some (Fs.IFile content fileMeta)).
  { rewrite Hsegs, lookup_app, Hparent. simpl. rewrite Hfile. reflexivity. }
  assert (Hstat : Fs.stat (cwd P) fullPath w
                  = (Return (Fs.mkStats (Z.of_nat (String.length content))
                                        (Fs.mtime fileMeta) false), w)).
  { unfold Fs.stat, bind, Fs.find, gets. simpl. rewrite Hlook. reflexivity. }
  set (unlinked := fun (name : string) (entries : list (string * Fs.Inode))
                       (m : Fs.Meta) =>
                     match Fs.assoc name entries with
                     | None => inl Fs.ENOENT
                     | Some (Fs.IDir _ _) => inl Fs.EISDIR
                     | Some (Fs.IFile _ _) =>
                         if Fs.writable m then inr (Fs.removeEntry name entries)
                         else inl Fs.EACCES
                     end).
  assert (Hf : unlinked name entries meta = inr (Fs.removeEntry name entries)).
  { unfold unlinked. rewrite Hfile, Hwritable. reflexivity. }
  destruct (modifyParent_at unlinked parent name (Fs.fs w) entries meta _ Hparent Hf)
    as (tree' & Hmod & Hparent').
  assert (Hunlink : Fs.unlink (cwd P) fullPath w
                    = (Return tt, Fs.mkWorld tree' (Fs.console w) (Fs.clock w))).
  { unfold Fs.unlink, Fs.mutate. fold unlinked. rewrite Hsegs, Hmod. reflexivity. }
  assert (Hrun : removeFile P projectPath file (w, l)
                 = (Return tt,
                    (Fs.mkWorld tree' (Fs.console w) (Fs.clock w),
                     mkCleanLocals (removedDependencies l)
                       (removedFiles l ++ [ UnusedFile.path file ])
                       (removedDirs l)
                       (freedSpace l + Z.of_nat (String.length content))))).
  { unfold removeFile, tryCatch. fold fullPath.
    unfold bind at 1. unfold inWorld at 1, statOrFalse, tryCatch. cbn [fst snd].
    unfold bind at 1. rewrite Hstat. unfold ret at 1. cbn [fst snd].
    unfold bind at 1. unfold inWorld at 1. cbn [fst snd]. rewrite Hstat.
    unfold bind at 1. unfold freedSpace_add, assign, modify. cbn [fst snd].
    unfold bind at 1. unfold inWorld at 1. cbn [fst snd]. rewrite Hunlink.
    reflexivity. }
  rewrite Hrun. cbn [fst snd Fs.fs Fs.console removedFiles freedSpace].
  rewrite lookup_app, Hparent'. simpl.
  rewrite (assoc_removeEntry_eq name entries Hnames).
  repeat split.
Qed.

Lemma removeFile_deletes_the_file_witness :
  Fs.lookup ([ "p" ] ++ [ "b.js" ])
    (Fs.fs (fst (snd (removeFile Session.platform "/p" (UnusedFile.mk "b.js" "" 0)
                        (Scenario.extensionless, mkCleanLocals [] [] [] 0%Z)))))
  = None
  /\ removedFiles
       (snd (snd (removeFile Session.platform "/p" (UnusedFile.mk "b.js" "" 0)
                    (Scenario.extensionless, mkCleanLocals [] [] [] 0%Z))))
     = [] ++ [ "b.js" ]
  /\ freedSpace
       (snd (snd (removeFile Session.platform "/p" (UnusedFile.mk "b.js" "" 0)
                    (Scenario.extensionless, mkCleanLocals [] [] [] 0%Z))))
     = (0 + Z.of_nat (String.length ""))%Z
  /\ Fs.console
       (fst (snd (removeFile Session.platform "/p" (UnusedFile.mk "b.js" "" 0)
                    (Scenario.extensionless, mkCleanLocals [] [] [] 0%Z))))
     = [].
Proof.
  apply (removeFile_deletes_the_file Session.platform "/p" (UnusedFile.mk "b.js" "" 0)
           (Scenario.extensionless, mkCleanLocals [] [] [] 0%Z)
           [ "p" ] "b.js"
           [ Scenario.packageJson [];
             Demo.file "a.js" "import b from './b'";
             Demo.file "b.js" "" ]
           (Fs.mkMeta 1700000000000 true true) ""
           (Fs.mkMeta 1700000000000 true true)).
  - vm_compute. reflexivity.
  - reflexivity.
  - repeat constructor; simpl; intros H;
      repeat (destruct H as [H | H]; [discriminate H |]); exact H.
  - reflexivity.
  - reflexivity.
Defined.

(** X29. A listed file that is no longer there when the cleanup comes to it
    is passed over in silence: where [stat] of its path throws, the iteration
    changes nothing, reports nothing and prints nothing. *)
Theorem removeFile_skips_a_missing_file :
  forall (P : Platform) (projectPath : string) (file : UnusedFile.t)
         (s : Fs.World * CleanLocals) (e : Error),
    fst (Fs.stat (cwd P) (Path.resolve (cwd P) [ projectPath; UnusedFile.path file ])
           (fst s))
    = Throw e ->
    removeFile P projectPath file s = (Return tt, s).
Proof.
  intros P projectPath file [w l] e Hstat. simpl in Hstat.
  unfold removeFile, tryCatch. unfold bind at 1.
  unfold inWorld at 1, statOrFalse, tryCatch. cbn [fst snd].
  unfold bind at 1. rewrite (inert_run _ w (inert_stat P _)), Hstat.
  reflexivity.
Qed.

Lemma removeFile_skips_a_missing_file_witness :
  removeFile Session.platform "/p" (UnusedFile.mk "gone.js" "" 0)
    (Scenario.extensionless, mkCleanLocals [] [] [] 0%Z)
  = (Return tt, (Scenario.extensionless, mkCleanLocals [] [] [] 0%Z)).
Proof.
  apply (removeFile_skips_a_missing_file Session.platform "/p"
           (UnusedFile.mk "gone.js" "" 0)
           (Scenario.extensionless, mkCleanLocals [] [] [] 0%Z)
           (Fs.ENOENT "stat" "/p/gone.js")).
  vm_compute. reflexivity.
Defined.

(** ** The recursion over the directories ends *)

Section NamedTrees.
Import Spec.

Lemma wellNamed_dir entries m :
  wellNamed (Fs.IDir entries m) <-> wellNamedEntries entries.
Proof.
  unfold wellNamedEntries. induction entries as [| [name child] rest IH].
  - simpl. split; intros _; [constructor | exact I].
  - split.
    + intros (Hname & Hchild & Hrest). constructor; [split; assumption |].
      apply IH. exact Hrest.
    + intros H. inversion H as [| e es [Hname Hchild] Hrest]. subst.
      split; [exact Hname |]. split; [exact Hchild |]. apply IH. exact Hrest.
Qed.

Lemma wellNamed_assoc name entries child :
  wellNamedEntries entries -> Fs.assoc name entries = Some child -> wellNamed child.
Proof.
  intros H. induction H as [| [n i] rest [_ Hi] _ IH]; simpl; [discriminate |].
  destruct (String.eqb name n); [| exact IH].
  intros E. injection E as <-. exact Hi.
Qed.

Lemma wellNamed_removeEntry name entries :
  wellNamedEntries entries -> wellNamedEntries (Fs.removeEntry name entries).
Proof.
  intros H. induction H as [| [n i] rest Hhead Hrest IH]; simpl; [constructor |].
  destruct (String.eqb name n); [exact Hrest |]. constructor; assumption.
Qed.

Lemma wellNamed_setEntry name node entries :
  plainSegment name -> wellNamed node ->
  wellNamedEntries entries -> wellNamedEntries (Fs.setEntry name node entries).
Proof.
  intros Hname Hnode H. induction H as [| [n i] rest [Hn Hi] Hrest IH]; simpl.
  - constructor; [split; assumption | constructor].
  - destruct (String.eqb name n).
    + constructor; [split; assumption | exact Hrest].
    + constructor; [split; assumption | exact IH].
Qed.

Lemma wellNamed_names entries :
  wellNamedEntries entries -> Forall plainSegment (map fst entries).
Proof.
  intros H. induction H as [| [n i] rest [Hn _] _ IH]; simpl; constructor; assumption.
Qed.

Lemma wellNamed_lookup segs :
  forall n below, wellNamed n -> Fs.lookup segs n = Some below -> wellNamed below.
Proof.
  induction segs as [| s rest IH]; intros n below Hn Hlook.
  - simpl in Hlook. injection Hlook as <-. exact Hn.
  - destruct n as [c m | entries m]; [discriminate Hlook |].
    simpl in Hlook. destruct (Fs.assoc s entries) as [child |] eqn:Ea;
      [| discriminate Hlook].
    apply (IH child); [| exact Hlook].
    apply (wellNamed_assoc s entries); [apply (wellNamed_dir entries m), Hn | exact Ea].
Qed.

(** A change that keeps names, made at a path of plain names, keeps the
    names of the tree. *)
Lemma modifyParent_wellNamed f segs :
  keepsNames f -> Forall plainSegment segs ->
  forall n n', Fs.modifyParent segs f n = inr n' -> wellNamed n -> wellNamed n'.
Proof.
  intros Hf Hsegs. induction Hsegs as [| s rest Hs Hrest IH]; intros n n' Hmod Hn.
  - discriminate Hmod.
  - destruct n as [c m | entries m]; [discriminate Hmod |].
    pose proof (proj1 (wellNamed_dir entries m) Hn) as Hentries.
    destruct rest as [| s2 rest'].
    + simpl in Hmod. destruct (f s entries m) as [e | entries'] eqn:Ef;
        [discriminate Hmod |].
      injection Hmod as <-. apply wellNamed_dir.
      exact (Hf s entries m entries' Hs Hentries Ef).
    + rewrite modifyParent_below in Hmod.
      destruct (Fs.assoc s entries) as [child |] eqn:Ea; [| discriminate Hmod].
      destruct (Fs.modifyParent (s2 :: rest') f child) as [e | child'] eqn:Em;
        [discriminate Hmod |].
      injection Hmod as <-. apply wellNamed_dir.
      apply wellNamed_setEntry; [exact Hs | | exact Hentries].
      apply (IH child child' Em). exact (wellNamed_assoc s entries child Hentries Ea).
Qed.

Lemma keepsNames_removes f : removesName f -> keepsNames f.
Proof.
  intros Hf name entries m entries' _ Hentries Ef.
  rewrite (Hf name entries m entries' Ef). apply wellNamed_removeEntry. exact Hentries.
Qed.

Lemma removesName_unlink :
  removesName (fun name entries m =>
    match Fs.assoc name entries with
    | None => inl Fs.ENOENT
    | Some (Fs.IDir _ _) => inl Fs.EISDIR
    | Some (Fs.IFile _ _) =>
        if Fs.writable m then inr (Fs.removeEntry name entries) else inl Fs.EACCES
    end).
Proof.
  intros name entries m entries' H.
  destruct (Fs.assoc name entries) as [[c fm | es dm] |]; try discriminate H.
  destruct (Fs.writable m); [| discriminate H]. injection H as <-. reflexivity.
Qed.

Lemma removesName_rmdir :
  removesName (fun name entries m =>
    match Fs.assoc name entries with
    | None => inl Fs.ENOENT
    | Some (Fs.IFile _ _) => inl Fs.ENOTDIR
    | Some (Fs.IDir (_ :: _) _) => inl Fs.ENOTEMPTY
    | Some (Fs.IDir [] _) =>
        if Fs.writable m then inr (Fs.removeEntry name entries) else inl Fs.EACCES
    end).
Proof.
  intros name entries m entries' H.
  destruct (Fs.assoc name entries) as [[c fm | [| e es] dm] |]; try discriminate H.
  destruct (Fs.writable m); [| discriminate H]. injection H as <-. reflexivity.
Qed.

Lemma keepsNames_write data now :
  keepsNames (fun name entries m =>
    match Fs.assoc name entries with
    | Some (Fs.IDir _ _) => inl Fs.EISDIR
    | Some (Fs.IFile _ fm) =>
        if Fs.writable fm
        then inr (Fs.setEntry name
                    (Fs.IFile data (Fs.mkMeta now (Fs.readable fm) true)) entries)
        else inl Fs.EACCES
    | None =>
        if Fs.writable m
        then inr (Fs.setEntry name (Fs.IFile data (Fs.mkMeta now true true)) entries)
        else inl Fs.EACCES
    end).
Proof.
  intros name entries m entries' Hname Hentries H.
  destruct (Fs.assoc name entries) as [[c fm | es dm] |]; try discriminate H.
  - destruct (Fs.writable fm); [| discriminate H]. injection H as <-.
    apply wellNamed_setEntry; [exact Hname | exact I | exact Hentries].
  - destruct (Fs.writable m); [| discriminate H]. injection H as <-.
    apply wellNamed_setEntry; [exact Hname | exact I | exact Hentries].
Qed.

(** *** Depths *)

Lemma depth_dir entries m : Fs.depth (Fs.IDir entries m) = S (deepest entries).
Proof. reflexivity. Qed.

Lemma assoc_deepest name entries child :
  Fs.assoc name entries = Some child -> Fs.depth child <= deepest entries.
Proof.
  induction entries as [| [n i] rest IH]; simpl; [discriminate |].
  destruct (String.eqb name n).
  - intros E. injection E as <-. apply Nat.le_max_l.
  - intros E. etransitivity; [exact (IH E) | apply Nat.le_max_r].
Qed.

Lemma deepest_removeEntry name entries :
  deepest (Fs.removeEntry name entries) <= deepest entries.
Proof.
  induction entries as [| [n i] rest IH]; simpl; [reflexivity |].
  destruct (String.eqb name n); simpl.
  - apply Nat.le_max_r.
  - apply Nat.max_le_compat_l. exact IH.
Qed.

Lemma deepest_setEntry name child child' entries :
  Fs.assoc name entries = Some child -> Fs.depth child' <= Fs.depth child ->
  deepest (Fs.setEntry name child' entries) <= deepest entries.
Proof.
  intros Ha Hd. induction entries as [| [n i] rest IH]; simpl in *; [discriminate Ha |].
  destruct (String.eqb name n); simpl.
  - injection Ha as ->. apply Nat.max_le_compat_r. exact Hd.
  - apply Nat.max_le_compat_l. exact (IH Ha).
Qed.

Lemma depthAt_nil n : depthAt [] n = Fs.depth n.
Proof. reflexivity. Qed.

Lemma depthAt_cons s rest entries m :
  depthAt (s :: rest) (Fs.IDir entries m)
  = match Fs.assoc s entries with
    | Some child => depthAt rest child
    | None => 0
    end.
Proof. unfold depthAt. simpl. destruct (Fs.assoc s entries); reflexivity. Qed.

(** What is in a directory is less deep than the directory. *)
Lemma depthAt_child segs name n below :
  Fs.lookup (segs ++ [ name ]) n = Some below ->
  depthAt (segs ++ [ name ]) n < depthAt segs n.
Proof.
  intros Hlook. unfold depthAt. rewrite Hlook. rewrite lookup_app in Hlook.
  destruct (Fs.lookup segs n) as [[c m | entries m] |]; [discriminate Hlook | | discriminate Hlook].
  simpl in Hlook. destruct (Fs.assoc name entries) as [child |] eqn:Ea;
    [| discriminate Hlook].
  injection Hlook as <-. rewrite depth_dir.
  pose proof (assoc_deepest name entries child Ea). lia.
Qed.

Lemma depthAt_root segs : forall n, depthAt segs n <= Fs.depth n.
Proof.
  induction segs as [| s rest IH]; intros n; [reflexivity |].
  destruct n as [c m | entries m]; [unfold depthAt; simpl; lia |].
  rewrite depthAt_cons, depth_dir.
  destruct (Fs.assoc s entries) as [child |] eqn:Ea; [| lia].
  pose proof (IH child). pose proof (assoc_deepest s entries child Ea). lia.
Qed.

(** Taking a name out of a directory makes nothing on the way to it
    deeper. *)
Lemma modifyParent_shrinks f segs :
  removesName f ->
  forall n n',
    Fs.modifyParent segs f n = inr n' ->
    Fs.depth n' <= Fs.depth n
    /\ forall p x rest, segs = p ++ x :: rest -> depthAt p n' <= depthAt p n.
Proof.
  intros Hf. induction segs as [| s tail IH]; intros n n' Hmod.
  - discriminate Hmod.
  - destruct n as [c m | entries m]; [discriminate Hmod |].
    destruct tail as [| s2 tail'].
    + simpl in Hmod. destruct (f s entries m) as [e | entries'] eqn:Ef;
        [discriminate Hmod |].
      injection Hmod as <-. rewrite (Hf s entries m entries' Ef).
      assert (Hdepth : Fs.depth (Fs.IDir (Fs.removeEntry s entries) m)
                       <= Fs.depth (Fs.IDir entries m)).
      { rewrite !depth_dir. pose proof (deepest_removeEntry s entries). lia. }
      split; [exact Hdepth |].
      intros p x rest E. destruct p as [| y p'].
      * rewrite !depthAt_nil. exact Hdepth.
      * injection E as _ E. destruct p'; discriminate E.
    + rewrite modifyParent_below in Hmod.
      destruct (Fs.assoc s entries) as [child |] eqn:Ea; [| discriminate Hmod].
      destruct (Fs.modifyParent (s2 :: tail') f child) as [e | child'] eqn:Em;
        [discriminate Hmod |].
      injection Hmod as <-. destruct (IH child child' Em) as [Hchild Hbelow].
      assert (Hdepth : Fs.depth (Fs.IDir (Fs.setEntry s child' entries) m)
                       <= Fs.depth (Fs.IDir entries m)).
      { rewrite !depth_dir.
        pose proof (deepest_setEntry s child child' entries Ea Hchild). lia. }
      split; [exact Hdepth |].
      intros p x rest E. destruct p as [| y p'].
      * rewrite !depthAt_nil. exact Hdepth.
      * injection E as <- E. rewrite !depthAt_cons, assoc_setEntry_eq, Ea.
        exact (Hbelow p' x rest E).
Qed.

End NamedTrees.

(** *** Paths of plain names *)

Section PlainPaths.
Import Spec.

Lemma split_parts sep s :
  Forall (fun seg => JsString.split sep seg = [ seg ]) (JsString.split sep s).
Proof.
  induction s as [| c s IH]; simpl.
  - constructor; [reflexivity | constructor].
  - destruct (Ascii.eqb c sep) eqn:Ec.
    + constructor; [reflexivity | exact IH].
    + destruct (JsString.split sep s) as [| seg rest].
      * constructor; [| constructor]. simpl. rewrite Ec. reflexivity.
      * inversion IH as [| x xs Hseg Hrest]. subst.
        constructor; [| exact Hrest]. simpl. rewrite Ec, Hseg. reflexivity.
Qed.

Lemma normalizeSegments_plainOut segs :
  Forall (fun seg => JsString.split JsString.slash seg = [ seg ]) segs ->
  forall res, Forall plainSegment res ->
              Forall plainSegment (Path.normalizeSegments false segs res).
Proof.
  intros Hsegs. induction Hsegs as [| seg segs Hseg _ IH]; intros res Hres.
  - simpl. apply Forall_rev. exact Hres.
  - simpl.
    destruct (String.eqb_spec seg "") as [-> | Hne]; [exact (IH res Hres) |].
    destruct (String.eqb_spec seg ".") as [-> | Hdot]; [exact (IH res Hres) |].
    simpl.
    destruct (String.eqb_spec seg "..") as [-> | Hup].
    + destruct res as [| last res']; [apply IH; constructor |].
      inversion Hres as [| x xs Hlast Hres']. subst.
      destruct (String.eqb last ".."); apply IH; assumption.
    + apply IH. constructor; [| exact Hres].
      split; [exact Hseg |]. repeat split; assumption.
Qed.

(** The names a path is resolved to are plain. *)
Lemma segments_plain cwd path : Forall plainSegment (Fs.segments cwd path).
Proof.
  unfold Fs.segments. apply normalizeSegments_plainOut; [apply split_parts | constructor].
Qed.

Lemma split_absolute segs :
  Forall plainSegment segs ->
  Path.normalizeSegments false (JsString.split JsString.slash (absolute segs)) [] = segs.
Proof.
  intros Hsegs. unfold absolute.
  change (JsString.split JsString.slash ("/" +:+ ?x))
    with ("" :: JsString.split JsString.slash x).
  change (Path.normalizeSegments false ("" :: ?l) [])
    with (Path.normalizeSegments false l []).
  destruct segs as [| seg segs']; [reflexivity |].
  rewrite (split_join (seg :: segs') Hsegs) by discriminate.
  rewrite <- (app_nil_r (seg :: segs')) at 1.
  rewrite (normalizeSegments_plain false (seg :: segs') [] [] Hsegs).
  simpl. rewrite ?app_nil_r, rev_app_distr, rev_involutive. reflexivity.
Qed.

Lemma resolve_absolute cwd segs :
  Forall plainSegment segs -> Path.resolve cwd [ absolute segs ] = absolute segs.
Proof.
  intros Hsegs. unfold Path.resolve.
  assert (Hloop : Path.resolveLoop (rev [ absolute segs ] ++ [ cwd ]) ""
                  = (absolute segs +:+ "/" +:+ "", true)).
  { cbn [rev app]. rewrite resolveLoop_cons. unfold absolute.
    change ("/" +:+ ?x) with (String JsString.slash x).
    change (String.eqb (String JsString.slash ?x) "") with false.
    cbv iota. rewrite startsWith_slash. reflexivity. }
  rewrite Hloop. unfold Path.normalizeString. simpl negb. cbv iota.
  assert (Hsplit : Path.normalizeSegments false
                     (JsString.split JsString.slash (absolute segs +:+ "/" +:+ "")) []
                   = segs).
  { unfold absolute.
    change (("/" +:+ ?x) +:+ "/" +:+ "") with (String JsString.slash (x +:+ String JsString.slash "")).
    change (JsString.split JsString.slash (String JsString.slash ?x))
      with ("" :: JsString.split JsString.slash x).
    rewrite split_append.
    change (Path.normalizeSegments false ("" :: ?l) [])
      with (Path.normalizeSegments false l []).
    destruct segs as [| seg segs']; [reflexivity |].
    rewrite (split_join (seg :: segs') Hsegs) by discriminate.
    rewrite (normalizeSegments_plain false (seg :: segs') _ [] Hsegs).
    simpl. rewrite ?app_nil_r, rev_app_distr, rev_involutive. reflexivity. }
  rewrite Hsplit. reflexivity.
Qed.

Lemma segments_absolute cwd segs :
  Forall plainSegment segs -> Fs.segments cwd (absolute segs) = segs.
Proof.
  intros Hsegs. unfold Fs.segments.
  rewrite (resolve_absolute cwd segs Hsegs). exact (split_absolute segs Hsegs).
Qed.

End PlainPaths.

Section JoinedPaths.
Import Spec.

Lemma endsWithSlash_no_slash s :
  Forall (fun c => Ascii.eqb c JsString.slash = false) (list_ascii_of_string s) ->
  JsString.endsWithSlash s = false.
Proof.
  induction s as [| c s IH]; intros H; [reflexivity |].
  simpl in H. inversion H as [| x xs Hc Hrest]. subst.
  destruct s as [| c' s']; [exact Hc | exact (IH Hrest)].
Qed.

Lemma endsWithSlash_append x c tail :
  JsString.endsWithSlash (x +:+ String c tail) = JsString.endsWithSlash (String c tail).
Proof.
  induction x as [| a x IH]; [reflexivity |].
  rewrite append_cons.
  change (JsString.endsWithSlash (String a ?y))
    with (match y with
          | EmptyString => Ascii.eqb a JsString.slash
          | String _ _ => JsString.endsWithSlash y
          end).
  destruct (x +:+ String c tail) eqn:E; [destruct x; discriminate E |].
  exact IH.
Qed.

(** A plain name joined to an absolute path of plain names. *)
Lemma join_absolute segs name :
  Forall plainSegment segs -> plainSegment name ->
  Path.join [ absolute segs; name ] = absolute (segs ++ [ name ]).
Proof.
  intros Hsegs Hname.
  destruct (plainSegment_head name Hname) as (c & tail & Ename & Hc).
  destruct (plainSegment_eqb name Hname) as (E1 & E2 & E3).
  assert (Hall : Forall plainSegment (segs ++ [ name ])).
  { apply Forall_app. split; [exact Hsegs | constructor; [exact Hname | constructor]]. }
  unfold Path.join.
  assert (Hfilter : filter (fun a : string => a ≠ "") [ absolute segs; name ]
                    = [ absolute segs; name ]).
  { rewrite filter_cons_True by (unfold absolute; discriminate).
    rewrite filter_cons_True by (rewrite Ename; discriminate).
    reflexivity. }
  rewrite Hfilter.
  change (JsString.join "/" [ absolute segs; name ])
    with (absolute segs +:+ "/" +:+ name).
  set (dir := JsString.join "/" segs).
  assert (Hpath : absolute segs +:+ "/" +:+ name
                  = String JsString.slash (dir +:+ String JsString.slash name)).
  { reflexivity. }
  rewrite Hpath. unfold Path.normalize.
  change (String.eqb (String JsString.slash ?x) "") with false. cbv iota.
  rewrite startsWith_slash. cbv zeta.
  assert (Htrail : JsString.endsWithSlash
                     (String JsString.slash (dir +:+ String JsString.slash name))
                   = false).
  { assert (E : String JsString.slash (dir +:+ String JsString.slash name)
                = String JsString.slash (dir +:+ "/") +:+ String c tail).
    { rewrite Ename, append_cons, append_assoc. reflexivity. }
    rewrite E, endsWithSlash_append, <- Ename.
    apply endsWithSlash_no_slash.
    exact (split_single_no_separator _ _ (plainSegment_split name Hname)). }
  rewrite Htrail. simpl negb.
  unfold Path.normalizeString.
  assert (Hnorm : Path.normalizeSegments false
                    (JsString.split JsString.slash
                       (String JsString.slash (dir +:+ String JsString.slash name))) []
                  = segs ++ [ name ]).
  { change (JsString.split JsString.slash (String JsString.slash ?x))
      with ("" :: JsString.split JsString.slash x).
    rewrite split_append, (plainSegment_split name Hname).
    change (Path.normalizeSegments false ("" :: ?l) [])
      with (Path.normalizeSegments false l []).
    unfold dir. destruct segs as [| seg segs'].
    - simpl. rewrite E1, E2, E3. reflexivity.
    - rewrite (split_join (seg :: segs') Hsegs) by discriminate.
      rewrite <- (app_nil_r ((seg :: segs') ++ [ name ])) at 1.
      rewrite (normalizeSegments_plain false _ [] [] Hall).
      change (Path.normalizeSegments false [] ?r) with (rev r).
      rewrite app_nil_r. apply rev_involutive. }
  rewrite Hnorm.
  assert (Hjoined : exists c' tail', JsString.join "/" (segs ++ [ name ]) = String c' tail').
  { destruct segs as [| seg segs'].
    - exists c, tail. exact Ename.
    - pose proof (List.Forall_inv Hsegs) as Hseg.
      destruct (join_head seg (segs' ++ [ name ]) Hseg) as (c' & tail' & E & _).
      exists c', tail'. exact E. }
  destruct Hjoined as (c' & tail' & Ejoined).
  rewrite Ejoined. change (String.eqb (String c' tail') "") with false. cbv iota.
  unfold absolute. rewrite Ejoined. reflexivity.
Qed.

End JoinedPaths.

Section Ends.
Context {S : Type}.

Lemma ends_run {A} (Pre Post : S -> Prop) (m : M S A) (s : S) :
  ends Pre Post m -> Pre s -> fst (m s) <> OutOfFuel /\ Post (snd (m s)).
Proof. intros Hm Hs. exact (Hm s Hs). Qed.

Lemma ends_ret {A} (Pre Post : S -> Prop) (a : A) :
  (forall s, Pre s -> Post s) -> ends Pre Post (ret a).
Proof. intros H s Hs. split; [discriminate | apply H, Hs]. Qed.

Lemma ends_bind {A B} (Pre Mid Post : S -> Prop) (m : M S A) (k : A -> M S B) :
  ends Pre Mid m -> (forall s, Mid s -> Post s) -> (forall a, ends Mid Post (k a)) ->
  ends Pre Post (bind m k).
Proof.
  intros Hm Hpost Hk s Hs. unfold bind. destruct (Hm s Hs) as [Hfuel Hmid].
  destruct (m s) as [[a | e | ] s']; simpl in *.
  - apply Hk. exact Hmid.
  - split; [discriminate | apply Hpost, Hmid].
  - contradiction.
Qed.

(** After a step that changes nothing, what follows knows what the step
    returned and where. *)
Lemma ends_inert_bind {A B} (Pre Post : S -> Prop) (m : M S A) (k : A -> M S B) :
  inert m -> (forall s, Pre s -> Post s) ->
  (forall s a, Pre s -> fst (m s) = Return a ->
               fst (k a s) <> OutOfFuel /\ Post (snd (k a s))) ->
  ends Pre Post (bind m k).
Proof.
  intros Hm Hpost Hk s Hs. unfold bind. destruct (Hm s) as [Hsame Hfuel].
  specialize (Hk s).
  destruct (m s) as [[a | e | ] s']; simpl in *; subst s'.
  - apply Hk; [exact Hs | reflexivity].
  - split; [discriminate | apply Hpost, Hs].
  - contradiction.
Qed.

Lemma ends_forOf {A B} (Inv : S -> Prop) (l : list A) (body : A -> B -> M S B) acc :
  (forall x b, In x l -> ends Inv Inv (body x b)) -> ends Inv Inv (forOf l body acc).
Proof.
  revert acc. induction l as [| x l IH]; intros acc Hbody; simpl.
  - apply ends_ret. auto.
  - apply (ends_bind Inv Inv Inv); [apply Hbody; left; reflexivity | auto |].
    intros b. apply IH. intros y b' Hy. apply Hbody. right. exact Hy.
Qed.

Lemma ends_stable {A} (R : S -> S -> Prop) (Pre Post : S -> Prop) (m : M S A) :
  fuelFree m -> stable R m -> (forall s s', Pre s -> R s s' -> Post s') ->
  ends Pre Post m.
Proof. intros Hfuel Hm Hpost s Hs. split; [apply Hfuel | exact (Hpost _ _ Hs (Hm s))]. Qed.

Lemma fuelFree_returns {A} (m : M S A) : alwaysReturns m -> fuelFree m.
Proof. intros Hm s. destruct (Hm s) as (a & Ha). rewrite Ha. discriminate. Qed.

End Ends.

Section PruningEnds.
Import Spec.
Variable P : Platform.

Lemma readdir_returned path w files :
  fst (Fs.readdir (cwd P) path w) = Return files ->
  exists entries m,
    Fs.lookup (Fs.segments (cwd P) path) (Fs.fs w) = Some (Fs.IDir entries m)
    /\ files = map fst entries.
Proof.
  unfold Fs.readdir, bind, Fs.find, gets. simpl.
  destruct (Fs.lookup (Fs.segments (cwd P) path) (Fs.fs w)) as [[c m | entries m] |];
    simpl; try discriminate.
  destruct (Fs.readable m); simpl; [| discriminate].
  intros E. injection E as <-. eauto.
Qed.

Lemma stat_returned path w stats :
  fst (Fs.stat (cwd P) path w) = Return stats ->
  exists below, Fs.lookup (Fs.segments (cwd P) path) (Fs.fs w) = Some below.
Proof.
  unfold Fs.stat, bind, Fs.find, gets. simpl.
  destruct (Fs.lookup (Fs.segments (cwd P) path) (Fs.fs w)) as [below |];
    simpl; [eauto | discriminate].
Qed.

Lemma rmdir_shrinks path w :
  staysNamed w (snd (Fs.rmdir (cwd P) path w))
  /\ forall p x rest,
       Fs.segments (cwd P) path = p ++ x :: rest ->
       depthAt p (Fs.fs (snd (Fs.rmdir (cwd P) path w))) <= depthAt p (Fs.fs w).
Proof.
  unfold staysNamed, Fs.rmdir, Fs.mutate.
  destruct (Fs.modifyParent _ _ _) as [e | root'] eqn:Em; simpl.
  - split; [auto | intros; reflexivity].
  - split.
    + exact (modifyParent_wellNamed _ _ (keepsNames_removes _ removesName_rmdir)
               (segments_plain _ _) _ _ Em).
    + exact (proj2 (modifyParent_shrinks _ _ removesName_rmdir _ _ Em)).
Qed.

Lemma notDeeper_refl segs w : wellNamed (Fs.fs w) -> notDeeper segs w w.
Proof. intros Hn. split; [exact Hn | intros; reflexivity]. Qed.

Lemma notDeeper_above segs w s : notDeeper segs w s -> notDeeperAbove segs w s.
Proof.
  intros [Hn Hd]. split; [exact Hn |].
  intros p x rest E. apply Hd. exists (x :: rest). exact E.
Qed.

Lemma ends_rmdir segs w :
  Forall plainSegment segs ->
  ends (notDeeper segs w) (notDeeperAbove segs w) (Fs.rmdir (cwd P) (absolute segs)).
Proof.
  intros Hsegs s [Hnamed Hdeep].
  split; [exact (fuelFree_mutate P _ _ _ s) |].
  destruct (rmdir_shrinks (absolute segs) s) as [Hn Hd]. split; [exact (Hn Hnamed) |].
  intros p x rest E. etransitivity.
  - apply (Hd p x rest). rewrite (segments_absolute _ _ Hsegs). exact E.
  - apply Hdeep. exists (x :: rest). exact E.
Qed.

Lemma ends_rmdir_true segs w :
  Forall plainSegment segs ->
  ends (notDeeper segs w) (notDeeperAbove segs w)
       (Fs.rmdir (cwd P) (absolute segs) ;; ret true).
Proof.
  intros Hsegs.
  apply (ends_bind _ (notDeeperAbove segs w)); [apply ends_rmdir, Hsegs | auto |].
  intros _. apply ends_ret. auto.
Qed.

(** The recursion ends within the depth of what it is started on. *)
Lemma removeEmptyDirectories_ends fuel :
  forall segs w,
    Forall plainSegment segs ->
    depthAt segs (Fs.fs w) < fuel ->
    ends (notDeeper segs w) (notDeeperAbove segs w)
         (removeEmptyDirectories P fuel (absolute segs)).
Proof.
  induction fuel as [| fuel IH]; intros segs w Hsegs Hfuel; [lia |].
  simpl.
  apply ends_inert_bind; [apply inert_readdir | apply notDeeper_above |].
  intros s files Hs Hfiles.
  destruct (readdir_returned _ _ _ Hfiles) as (entries & m & Hlook & ->).
  rewrite (segments_absolute _ _ Hsegs) in Hlook.
  assert (Hplain : Forall plainSegment (map fst entries)).
  { apply wellNamed_names, (wellNamed_dir entries m).
    exact (wellNamed_lookup segs (Fs.fs s) _ (proj1 Hs) Hlook). }
  destruct (Nat.eqb (List.length (map fst entries)) 0).
  { apply (ends_run (notDeeper segs w) (notDeeperAbove segs w));
      [apply ends_rmdir_true, Hsegs | exact Hs]. }
  apply (ends_run (notDeeper segs w) (notDeeperAbove segs w)); [| exact Hs].
  apply (ends_bind _ (notDeeper segs w)); [| apply notDeeper_above |].
  - apply ends_forOf. intros file isEmpty Hin.
    assert (Hfile : plainSegment file).
    { pose proof Hplain as Hnames. rewrite List.Forall_forall in Hnames.
      apply Hnames. exact Hin. }
    assert (Hall : Forall plainSegment (segs ++ [ file ])).
    { apply Forall_app. split; [exact Hsegs | constructor; [exact Hfile | constructor]]. }
    rewrite (join_absolute segs file Hsegs Hfile).
    apply ends_inert_bind; [apply inert_stat | auto |].
    intros s1 stats Hs1 Hstat.
    destruct (Fs.isDirectory stats);
      [| exact (ends_ret _ _ false (fun _ H => H) s1 Hs1)].
    destruct (stat_returned _ _ _ Hstat) as (below & Hbelow).
    rewrite (segments_absolute _ _ Hall) in Hbelow.
    assert (Hdeep : depthAt (segs ++ [ file ]) (Fs.fs s1) < fuel).
    { pose proof (depthAt_child segs file _ _ Hbelow).
      assert (Hself : segs `prefix_of` segs) by (exists []; rewrite app_nil_r; reflexivity).
      pose proof (proj2 Hs1 segs Hself). lia. }
    destruct (IH (segs ++ [ file ]) s1 Hall Hdeep s1 (notDeeper_refl _ _ (proj1 Hs1)))
      as [Hfuel' [Hnamed' Hdeep']].
    assert (Hinv : notDeeper segs w
                     (snd (removeEmptyDirectories P fuel (absolute (segs ++ [ file ])) s1))).
    { split; [exact Hnamed' |]. intros p [k E]. etransitivity.
      - subst segs. destruct k as [| x k'].
        + apply (Hdeep' p file []). rewrite app_nil_r. reflexivity.
        + apply (Hdeep' p x (k' ++ [ file ])). rewrite <- app_assoc. reflexivity.
      - apply (proj2 Hs1 p). exists k. exact E. }
    unfold bind.
    destruct (removeEmptyDirectories P fuel (absolute (segs ++ [ file ])) s1)
      as [[removed | e | ] s2]; simpl in *.
    + destruct (negb removed); (split; [discriminate | exact Hinv]).
    + split; [discriminate | exact Hinv].
    + contradiction.
  - intros isEmpty. destruct isEmpty; [apply ends_rmdir_true, Hsegs |].
    apply ends_ret, notDeeper_above.
Qed.

End PruningEnds.

Section CleanEnds.
Import Spec.
Variable P : Platform.
Variable projectPath : string.

Local Abbreviation named := (@onWorld CleanLocals staysNamed).

Lemma staysNamed_refl w : staysNamed w w.
Proof. intros H. exact H. Qed.

Lemma staysNamed_trans w1 w2 w3 :
  staysNamed w1 w2 -> staysNamed w2 w3 -> staysNamed w1 w3.
Proof. intros H12 H23 H. exact (H23 (H12 H)). Qed.

Lemma named_refl s : named s s.
Proof. apply staysNamed_refl. Qed.

Lemma named_trans s1 s2 s3 : named s1 s2 -> named s2 s3 -> named s1 s3.
Proof. apply staysNamed_trans. Qed.

Lemma named_inert {A} (m : M (Fs.World * CleanLocals) A) : inert m -> stable named m.
Proof. apply stable_inert. exact named_refl. Qed.

Lemma staysNamed_mutate syscall path f :
  keepsNames f -> stable staysNamed (Fs.mutate (cwd P) syscall path f).
Proof.
  intros Hf w Hn. unfold Fs.mutate.
  destruct (Fs.modifyParent (Fs.segments (cwd P) path) f (Fs.fs w)) as [e | root'] eqn:Em;
    simpl; [exact Hn |].
  exact (modifyParent_wellNamed f _ Hf (segments_plain _ _) _ _ Em Hn).
Qed.

Lemma named_console level line : stable named (inWorld (Fs.consoleWrite level line)).
Proof. intros s H. exact H. Qed.

Lemma named_removeDependency dep : stable named (removeDependency P projectPath dep).
Proof.
  unfold removeDependency.
  apply (stable_tryCatch named named_trans); [| intros e; apply named_console].
  apply (stable_bind named named_trans);
    [apply named_inert, inert_inWorld, inert_readFile |].
  intros text. apply (stable_bind named named_trans);
                 [apply named_inert, inert_liftResult |].
  intros packageJson. apply (stable_bind named named_trans);
                        [apply named_inert, inert_getProp |].
  intros dependencies. apply (stable_bind named named_trans);
                         [apply named_inert, inert_getProp |].
  intros devDependencies. apply (stable_bind named named_trans);
                            [| intros _; apply (onWorld_assign _ staysNamed_refl)].
  apply onWorld_inWorld. unfold Fs.writeFile.
  apply (stable_bind _ staysNamed_trans);
    [apply (stable_gets _ staysNamed_refl) |].
  intros now. apply staysNamed_mutate, keepsNames_write.
Qed.

Lemma named_removeFile file : stable named (removeFile P projectPath file).
Proof.
  unfold removeFile.
  apply (stable_tryCatch named named_trans); [| intros e; apply named_console].
  apply (stable_bind named named_trans);
    [apply named_inert, inert_inWorld, inert_statOrFalse |].
  intros [|]; [| apply (stable_ret named named_refl)].
  apply (stable_bind named named_trans);
    [apply named_inert, inert_inWorld, inert_stat |].
  intros fileStat. apply (stable_bind named named_trans);
                     [apply (onWorld_assign _ staysNamed_refl) |].
  intros _. apply (stable_bind named named_trans);
              [| intros _; apply (onWorld_assign _ staysNamed_refl)].
  apply onWorld_inWorld, staysNamed_mutate, keepsNames_removes, removesName_unlink.
Qed.

(** What [cleanProject] does after the pruning cannot run on. *)
Lemma fuelFree_afterPruning :
  fuelFree
    (tryCatch
       (let nodeModulesPath := Path.join [ projectPath; "node_modules" ] in
        found <- inWorld (statOrFalse P nodeModulesPath) ;;
        if (found : bool) then
          inWorld (Fs.rm (cwd P) nodeModulesPath) ;;
          removedDirs_push "node_modules" ;;
          inWorld (Fs.consoleWrite Fs.LLog "node_modules directory removed")
        else ret tt)
       (fun error =>
          inWorld (Fs.consoleWrite Fs.LWarn
                     "Warning: Could not remove node_modules directory")) ;;
     tryCatch
       (inWorld (runExecSync P "npm install" projectPath))
       (fun error =>
          inWorld (Fs.consoleWrite Fs.LWarn
                     "Warning: Could not update package-lock.json")) ;;
     l <- local id ;;
     ret (CleanResult.mk (removedDependencies l) (removedFiles l)
                         (removedDirs l) (freedSpace l))).
Proof.
  apply fuelFree_bind.
  { apply fuelFree_tryCatch;
      [| intros e; apply fuelFree_inWorld; intros w'; discriminate].
    apply fuelFree_bind; [apply fuelFree_statOrFalse |].
    intros [|]; [| apply fuelFree_ret].
    apply fuelFree_bind; [apply fuelFree_inWorld, fuelFree_mutate |].
    intros _. apply fuelFree_bind; [apply fuelFree_assign |].
    intros _. apply fuelFree_inWorld. intros w'. discriminate. }
  intros _. apply fuelFree_bind.
  { apply fuelFree_tryCatch;
      [| intros e; apply fuelFree_inWorld; intros w'; discriminate].
    apply fuelFree_inWorld. intros w'. unfold runExecSync.
    destruct (execSync P "npm install" projectPath (Fs.fs w')) as [[e |] tree];
      discriminate. }
  intros _. apply fuelFree_bind; [apply fuelFree_inert, inert_gets |].
  intros l. apply fuelFree_ret.
Qed.

End CleanEnds.

(** X30. The recursion of [removeEmptyDirectories] ends: on a tree whose
    names are as a file system has them (one path segment each, none of them
    empty, [.] or [..]), started on an absolute path of such names, it returns
    or throws once it is given more steps than the directory is deep; and
    [cleanProject], which gives it one step more than the whole tree is deep,
    returns or throws as well. *)
Theorem removeEmptyDirectories_ends_within_the_depth :
  forall (P : Platform) (segs : list string) (analysis : AnalysisResult.t)
         (w : Fs.World) (fuel : nat),
    Forall Spec.plainSegment segs ->
    wellNamed (Fs.fs w) ->
    depthAt segs (Fs.fs w) < fuel ->
    fst (removeEmptyDirectories P fuel (Spec.absolute segs) w) <> OutOfFuel
    /\ fst (cleanProject P (Spec.absolute segs) analysis w) <> OutOfFuel.
Proof.
  intros P segs analysis w fuel Hsegs Hnamed Hfuel. split.
  - exact (proj1 (removeEmptyDirectories_ends P fuel segs w Hsegs Hfuel w
                    (notDeeper_refl segs w Hnamed))).
  - unfold cleanProject, withLocals.
    set (N := fun s : Fs.World * CleanLocals => wellNamed (Fs.fs (fst s))).
    set (T := fun _ : Fs.World * CleanLocals => True).
    match goal with
    | |- fst (let (o, s) := ?m ?s0 in _) <> _ =>
        assert (Hends : ends N T m); [| pose proof (Hends s0 Hnamed) as [H _];
                                        destruct (m s0) as [o s]; exact H]
    end.
    apply (ends_bind N N T); [| intros; exact I |].
    { apply (ends_stable (@onWorld CleanLocals staysNamed)).
      - apply fuelFree_forOf. intros dep _.
        apply fuelFree_returns, removeDependency_returns.
      - apply (stable_forOf _ (named_refl) (named_trans)). intros dep _.
        apply named_removeDependency.
      - intros s s' Hs Hss'. exact (Hss' Hs). }
    intros _. apply (ends_bind N N T); [| intros; exact I |].
    { apply (ends_stable (@onWorld CleanLocals staysNamed)).
      - apply fuelFree_forOf. intros file _.
        apply fuelFree_returns, removeFile_returns.
      - apply (stable_forOf _ (named_refl) (named_trans)). intros file _.
        apply named_removeFile.
      - intros s s' Hs Hss'. exact (Hss' Hs). }
    intros _. apply ends_inert_bind; [apply inert_inWorld, inert_gets | intros; exact I |].
    intros s tree Hs Htree. split; [| exact I].
    unfold inWorld, gets in Htree. simpl in Htree. injection Htree as <-.
    unfold bind at 1. unfold inWorld at 1.
    assert (Hdeep : depthAt segs (Fs.fs (fst s)) < S (Fs.depth (Fs.fs (fst s)))).
    { pose proof (depthAt_root segs (Fs.fs (fst s))). lia. }
    pose proof (proj1 (removeEmptyDirectories_ends P _ segs (fst s) Hsegs Hdeep (fst s)
                         (notDeeper_refl segs (fst s) Hs))) as Hprune.
    destruct (removeEmptyDirectories P (S (Fs.depth (Fs.fs (fst s)))) (Spec.absolute segs)
                (fst s)) as [[removed | e | ] w3]; simpl in *;
      [| discriminate | contradiction].
    apply fuelFree_afterPruning.
Qed.

Lemma removeEmptyDirectories_ends_within_the_depth_witness :
  fst (removeEmptyDirectories Session.platform 4 (Spec.absolute [ "p" ])
         Session.withEmptyDirectories) <> OutOfFuel
  /\ fst (cleanProject Session.platform (Spec.absolute [ "p" ])
            (AnalysisResult.mk [] []) Session.withEmptyDirectories) <> OutOfFuel.
Proof.
  apply (removeEmptyDirectories_ends_within_the_depth Session.platform [ "p" ]
           (AnalysisResult.mk [] []) Session.withEmptyDirectories 4).
  - constructor; [| constructor].
    split; [reflexivity | repeat split; discriminate].
  - simpl. repeat split; discriminate.
  - vm_compute. lia.
Defined.
